(** * rdma-lib: connection engine and lambda protocol

    A shallow embedding of the C sources [common.c], [rdma_write.c],
    [rdma_read.c], [send_receive.c], [lambda_server.c], [lambda_client.c],
    [lambda-run.c] and [rdma.c].  The C functions become functions
    in a state-and-exit monad over a [world] that holds what the C program
    cannot see directly: the objects behind its pointers, the open
    descriptors, the calls it made to libibverbs and to the operating
    system, and the answers those will give.

    Conventions.
    - A pointer is an integer, [NULL] is [0]; [if (p)] is [truthy p].
    - [struct config_t *config] is passed as [option config_t] where the code
      tests it against [NULL], and the callee hands back the updated record
      where the C code writes through the pointer.
    - Using a pointer whose object is gone (or never existed) is [Fault]:
      the C program has undefined behaviour there.
    - [exit(n)] is [Exit n]; a poll loop that never sees a completion is
      [Blocked], and so is a loop with no way out once it has used up
      what the world holds for it.
    - Standard input is a parameter of the function that reads it, and
      so is what the dynamic loader gives; standard output is not
      recorded.
    - Memory that was never written (the result of [malloc], a local
      array) holds what the world says it holds ([junk]); an anonymous
      [mmap] gives zeros.
    - Signal handlers are installed, but no signal arrives during a run.
    - [DEBUG_LOG] output is diagnostic only and is not recorded; [ERROR_LOG]
      and [die] messages are recorded as [Stderr] events. *)

From Stdlib Require Import ZArith List Lia.
From stdpp Require Import base option list gmap strings.
Import ListNotations.
Open Scope Z_scope.

(** ** Constants *)

(** [common.h] *)
Definition MAX_BUFFER_SIZE : Z := 4096.
Definition TCP_PORT : Z := 18515.
Definition IB_PORT : Z := 1.
Definition GID_INDEX : Z := 1.

(** [common.c] *)
Definition MAX_CQ_ENTRIES : Z := 10.
Definition TIMEOUT : Z := 14.
Definition RETRY_COUNT : Z := 7.
Definition RNR_RETRY : Z := 7.

(** [lambda.h] *)
Definition LAMBDA_MAX_FUNCTION_NAME : Z := 128.
Definition LAMBDA_MAX_CODE_SIZE : Z := 1024 * 1024 * 3.
Definition LAMBDA_MAX_INPUT_SIZE : Z := MAX_BUFFER_SIZE.
Definition LAMBDA_MAX_OUTPUT_SIZE : Z := MAX_BUFFER_SIZE.

(** Values of [<infiniband/verbs.h>] that the sources use by name. *)
Definition IBV_ACCESS_LOCAL_WRITE : Z := 1.
Definition IBV_ACCESS_REMOTE_WRITE : Z := 2.
Definition IBV_ACCESS_REMOTE_READ : Z := 4.
Definition IBV_QPT_RC : Z := 2.
Definition IBV_MTU_1024 : Z := 3.
Definition IBV_SEND_SIGNALED : Z := 2.
Definition IBV_WC_SUCCESS : Z := 0.

(** Values of [<signal.h>]. *)
Definition SIGINT : Z := 2.
Definition SIGTERM : Z := 15.

Definition NULL : Z := 0.
Definition truthy (z : Z) : bool := negb (z =? 0).

(** ** Enumerations of [common.h] *)

Inductive rdma_mode_t := MODE_SEND_RECV | MODE_WRITE | MODE_READ | MODE_LAMBDA.
Inductive rdma_op_t := OP_SEND | OP_WRITE | OP_READ.
Inductive rdma_status_t :=
  RDMA_SUCCESS | RDMA_ERR_DEVICE | RDMA_ERR_RESOURCE | RDMA_ERR_COMMUNICATION.

Inductive ibv_qp_state := IBV_QPS_RESET | IBV_QPS_INIT | IBV_QPS_RTR | IBV_QPS_RTS.
Inductive ibv_wr_opcode := IBV_WR_SEND | IBV_WR_RDMA_WRITE_WITH_IMM | IBV_WR_RDMA_READ.

#[global] Instance rdma_status_eq_dec : EqDecision rdma_status_t.
Proof. solve_decision. Defined.
#[global] Instance ibv_qp_state_eq_dec : EqDecision ibv_qp_state.
Proof. solve_decision. Defined.
#[global] Instance ibv_wr_opcode_eq_dec : EqDecision ibv_wr_opcode.
Proof. solve_decision. Defined.

(** [rdma_err_to_str] of [common.c]. *)
Definition rdma_err_to_str (err : rdma_status_t) : string :=
  match err with
  | RDMA_SUCCESS => "Success"
  | RDMA_ERR_DEVICE => "Device error"
  | RDMA_ERR_RESOURCE => "Resource error"
  | RDMA_ERR_COMMUNICATION => "Communication error"
  end.

(** ** Records of [common.h] *)

Record config_t := mk_config {
  context : Z;   (* struct ibv_context * *)
  pd : Z;        (* struct ibv_pd * *)
  cq : Z;        (* struct ibv_cq * *)
  qp : Z;        (* struct ibv_qp * *)
  mr : Z;        (* struct ibv_mr * *)
  buf : Z;       (* void * *)
  gid : Z;       (* union ibv_gid, 128 bits *)
  sock_fd : Z    (* int *)
}.

(** [struct config_t config = {}], as every caller declares it. *)
Definition config_zero : config_t := mk_config 0 0 0 0 0 0 0 0.

Definition set_context (v : Z) (c : config_t) : config_t :=
  mk_config v (pd c) (cq c) (qp c) (mr c) (buf c) (gid c) (sock_fd c).
Definition set_pd (v : Z) (c : config_t) : config_t :=
  mk_config (context c) v (cq c) (qp c) (mr c) (buf c) (gid c) (sock_fd c).
Definition set_cq (v : Z) (c : config_t) : config_t :=
  mk_config (context c) (pd c) v (qp c) (mr c) (buf c) (gid c) (sock_fd c).
Definition set_qp (v : Z) (c : config_t) : config_t :=
  mk_config (context c) (pd c) (cq c) v (mr c) (buf c) (gid c) (sock_fd c).
Definition set_mr (v : Z) (c : config_t) : config_t :=
  mk_config (context c) (pd c) (cq c) (qp c) v (buf c) (gid c) (sock_fd c).
Definition set_buf (v : Z) (c : config_t) : config_t :=
  mk_config (context c) (pd c) (cq c) (qp c) (mr c) v (gid c) (sock_fd c).
Definition set_gid (v : Z) (c : config_t) : config_t :=
  mk_config (context c) (pd c) (cq c) (qp c) (mr c) (buf c) v (sock_fd c).
Definition set_sock_fd (v : Z) (c : config_t) : config_t :=
  mk_config (context c) (pd c) (cq c) (qp c) (mr c) (buf c) (gid c) v.

Record qp_info_t := mk_qp_info {
  qp_num : Z;   (* uint32_t *)
  qi_gid : Z;   (* union ibv_gid *)
  addr : Z;     (* uint64_t *)
  rkey : Z      (* uint32_t *)
}.

Definition qp_info_zero : qp_info_t := mk_qp_info 0 0 0 0.

Definition set_addr (v : Z) (q : qp_info_t) : qp_info_t :=
  mk_qp_info (qp_num q) (qi_gid q) v (rkey q).

(** [sizeof(struct qp_info_t)] on the LP64 targets the program is built for:
    4 bytes of [qp_num], 4 of padding, 16 of [gid], 8 of [addr], 4 of [rkey]
    and 4 of tail padding. *)
Definition sizeof_qp_info_t : Z := 40.

(** ** Work requests and completions (the fields the sources set or read) *)

Record ibv_send_wr := mk_send_wr {
  wr_id : Z;
  sg_addr : Z;
  sg_length : Z;
  sg_lkey : Z;
  num_sge : Z;
  send_flags : Z;
  opcode : ibv_wr_opcode;
  imm_data : Z;
  remote_addr : Z;
  wr_rkey : Z
}.

Record ibv_recv_wr := mk_recv_wr {
  rwr_id : Z;
  rsg_addr : Z;
  rsg_length : Z;
  rsg_lkey : Z;
  rnum_sge : Z
}.

(** A completion as [ibv_poll_cq] reports it, together with the bytes the
    adapter placed at the start of the registered buffer before it raised
    the completion (empty for the completion of a send or a write). *)
Record ibv_wc := mk_wc {
  wc_status : Z;
  wc_imm_data : Z;
  wc_arrived : list Z
}.

(** What a call of the received lambda code did: its return value, the
    [output_size] it stored and the bytes it left in the output region. *)
Record lambda_run := mk_run {
  run_result : Z;
  run_output_size : Z;
  run_output : list Z
}.

(** ** Events: the calls that leave the process *)

Inductive libcall :=
| F_ibv_get_device_list | F_ibv_free_device_list
| F_ibv_open_device | F_ibv_close_device
| F_ibv_alloc_pd | F_ibv_dealloc_pd
| F_ibv_create_cq | F_ibv_destroy_cq
| F_ibv_create_qp | F_ibv_destroy_qp
| F_ibv_reg_mr | F_ibv_dereg_mr
| F_ibv_query_gid
| F_malloc | F_free | F_mmap
| F_socket | F_close | F_gethostbyname | F_setsockopt | F_connect
| F_sleep | F_bind | F_listen | F_accept
| F_sigaction | F_signal.

#[global] Instance libcall_eq_dec : EqDecision libcall.
Proof. solve_decision. Defined.

Inductive event :=
| Call (f : libcall) (args : list Z) (ret : Z)
| Stderr (fmt : string) (args : list Z)
| ModifyQp (q : Z) (new_state : ibv_qp_state)
           (attr : list (string * Z)) (mask : list string) (ret : Z)
| SockWrite (fd : Z) (info : qp_info_t) (count ret : Z)
| SockRead (fd : Z) (count ret : Z)
| PostSend (q : Z) (wr : ibv_send_wr) (ret : Z)
| PostRecv (q : Z) (wr : ibv_recv_wr) (ret : Z)
| PollCq (c : Z) (wc : ibv_wc)
| Invoke (fn input input_size output : Z).

(** ** The world *)

(** Objects behind the pointers. *)
Inductive obj :=
| ODeviceList (first : Z)                   (* dev_list[0] *)
| OContext
| OPd
| OCq
| OQp (num : Z) (state : ibv_qp_state)
| OMr (lkey rk : Z)
| OMem (size : Z) (data : list Z).
(* [OMem size data]: [size] bytes of which [data] are the bytes from
   offset 0 on; where [data] is shorter, the rest reads as zero. *)

Record world := mk_world {
  heap : gmap Z obj;          (* live objects, by address *)
  brk : Z;                    (* next address the allocators hand out *)
  fds : gset Z;               (* open descriptors *)
  trace : list event;         (* calls made so far, oldest first *)
  rets : list Z;              (* what the coming library calls return *)
  port_gid : Z;               (* the port's GID table entry [GID_INDEX] *)
  rx : list qp_info_t;        (* records the peer sends on the socket *)
  cq_in : list ibv_wc;        (* completions the adapter will report *)
  runs : list lambda_run;     (* what invoked lambda code will do *)
  junk : list (list Z);       (* what memory that was never written holds *)
  global_config : option config_t   (* [*global_config]; [None] is [NULL] *)
}.

Definition set_heap (h : gmap Z obj) (w : world) : world :=
  mk_world h (brk w) (fds w) (trace w) (rets w) (port_gid w) (rx w) (cq_in w) (runs w)
    (junk w) (global_config w).
Definition set_brk (b : Z) (w : world) : world :=
  mk_world (heap w) b (fds w) (trace w) (rets w) (port_gid w) (rx w) (cq_in w) (runs w)
    (junk w) (global_config w).
Definition set_fds (s : gset Z) (w : world) : world :=
  mk_world (heap w) (brk w) s (trace w) (rets w) (port_gid w) (rx w) (cq_in w) (runs w)
    (junk w) (global_config w).
Definition set_trace (t : list event) (w : world) : world :=
  mk_world (heap w) (brk w) (fds w) t (rets w) (port_gid w) (rx w) (cq_in w) (runs w)
    (junk w) (global_config w).
Definition set_rets (r : list Z) (w : world) : world :=
  mk_world (heap w) (brk w) (fds w) (trace w) r (port_gid w) (rx w) (cq_in w) (runs w)
    (junk w) (global_config w).
Definition set_rx (r : list qp_info_t) (w : world) : world :=
  mk_world (heap w) (brk w) (fds w) (trace w) (rets w) (port_gid w) r (cq_in w) (runs w)
    (junk w) (global_config w).
Definition set_cq_in (c : list ibv_wc) (w : world) : world :=
  mk_world (heap w) (brk w) (fds w) (trace w) (rets w) (port_gid w) (rx w) c (runs w)
    (junk w) (global_config w).
Definition set_runs (r : list lambda_run) (w : world) : world :=
  mk_world (heap w) (brk w) (fds w) (trace w) (rets w) (port_gid w) (rx w) (cq_in w) r
    (junk w) (global_config w).
Definition set_junk (j : list (list Z)) (w : world) : world :=
  mk_world (heap w) (brk w) (fds w) (trace w) (rets w) (port_gid w) (rx w) (cq_in w)
    (runs w) j (global_config w).
Definition set_global_config (c : option config_t) (w : world) : world :=
  mk_world (heap w) (brk w) (fds w) (trace w) (rets w) (port_gid w) (rx w) (cq_in w)
    (runs w) (junk w) c.

(** A process that has just started: nothing allocated, nothing open. *)
Definition boot (answers : list Z) : world :=
  mk_world ∅ 1 ∅ [] answers 0 [] [] [] [] None.

(** ** The monad *)

Inductive outcome (A : Type) :=
| Ok (a : A) (w : world)      (* the call returned [a] *)
| Exit (status : Z) (w : world)
| Fault (w : world)
| Blocked (w : world).
Arguments Ok {A} a w.
Arguments Exit {A} status w.
Arguments Fault {A} w.
Arguments Blocked {A} w.

Definition M (A : Type) : Type := world -> outcome A.

Definition final {A} (o : outcome A) : world :=
  match o with Ok _ w | Exit _ w | Fault w | Blocked w => w end.

#[global] Instance M_ret : MRet M := fun A a w => Ok a w.
#[global] Instance M_bind : MBind M := fun A B f m w =>
  match m w with
  | Ok a w' => f a w'
  | Exit s w' => Exit s w'
  | Fault w' => Fault w'
  | Blocked w' => Blocked w'
  end.

Definition fault {A} : M A := fun w => Fault w.
Definition exit {A} (status : Z) : M A := fun w => Exit status w.
Definition blocked {A} : M A := fun w => Blocked w.
Definition emit (e : event) : M unit :=
  fun w => Ok tt (set_trace (trace w ++ [e]) w).

(** The next scripted return value ([0] once the script is used up). *)
Definition answer : M Z := fun w =>
  match rets w with
  | [] => Ok 0 w
  | r :: rs => Ok r (set_rets rs w)
  end.

(** A fresh object of [n] address units. *)
Definition alloc (o : obj) (n : Z) : M Z := fun w =>
  Ok (brk w) (set_brk (brk w + n) (set_heap (<[brk w := o]> (heap w)) w)).

Definition lookup_obj (p : Z) : M obj := fun w =>
  match heap w !! p with
  | Some o => Ok o w
  | None => Fault w
  end.

Definition store_obj (p : Z) (o : obj) : M unit := fun w =>
  Ok tt (set_heap (<[p := o]> (heap w)) w).

Definition release (p : Z) : M unit := fun w =>
  match heap w !! p with
  | Some _ => Ok tt (set_heap (delete p (heap w)) w)
  | None => Fault w
  end.

(** [die] of [common.c]. *)
Definition die {A} (message : string) : M A :=
  emit (Stderr message []);; exit 1.

Definition ask {A} (f : world -> A) : M A := fun w => Ok (f w) w.

(** The contents of [n] bytes that were never written: the environment's
    (zeros once its script is used up). *)
Definition indeterminate (n : Z) : M (list Z) := fun w =>
  Ok (take (Z.to_nat n) (hd [] (junk w))) (set_junk (tl (junk w)) w).
Definition when (b : bool) (m : M unit) : M unit := if b then m else mret tt.

(** ** libibverbs and libc, as far as the sources rely on them *)

(** A creating call: [NULL] when the scripted answer is [0], otherwise a
    fresh object built from the answer. *)
Definition lib_alloc (f : libcall) (args : list Z) (o : Z -> obj) (n : Z) : M Z :=
  r ← answer;
  p ← (if r =? 0 then mret NULL else alloc (o r) n);
  emit (Call f args p);;
  mret p.

(** A destroying call: the object must be live and of the right kind. *)
Definition lib_free (f : libcall) (kind : obj -> bool) (p : Z) : M unit :=
  o ← lookup_obj p;
  if kind o then release p;; emit (Call f [p] 0) else fault.

Definition is_device_list (o : obj) : bool :=
  match o with ODeviceList _ => true | _ => false end.
Definition is_context (o : obj) : bool :=
  match o with OContext => true | _ => false end.
Definition is_pd (o : obj) : bool :=
  match o with OPd => true | _ => false end.
Definition is_cq (o : obj) : bool :=
  match o with OCq => true | _ => false end.
Definition is_qp (o : obj) : bool :=
  match o with OQp _ _ => true | _ => false end.
Definition is_mr (o : obj) : bool :=
  match o with OMr _ _ => true | _ => false end.
Definition is_mem (o : obj) : bool :=
  match o with OMem _ _ => true | _ => false end.

(** [ibv_get_device_list]: [NULL], or a list whose first entry is the next
    scripted answer ([0] for an empty list). *)
Definition ibv_get_device_list : M Z :=
  r ← answer;
  if r =? 0 then emit (Call F_ibv_get_device_list [] NULL);; mret NULL
  else
    first ← answer;
    p ← alloc (ODeviceList first) 1;
    emit (Call F_ibv_get_device_list [] p);;
    mret p.

Definition ibv_free_device_list (p : Z) : M unit :=
  lib_free F_ibv_free_device_list is_device_list p.

(** [dev_list[0]] *)
Definition dev_list_first (dev_list : Z) : M Z :=
  o ← lookup_obj dev_list;
  match o with ODeviceList first => mret first | _ => fault end.

Definition ibv_open_device (device : Z) : M Z :=
  lib_alloc F_ibv_open_device [device] (fun _ => OContext) 1.
Definition ibv_alloc_pd (ctx : Z) : M Z :=
  lib_alloc F_ibv_alloc_pd [ctx] (fun _ => OPd) 1.
Definition ibv_create_cq (ctx cqe : Z) : M Z :=
  lib_alloc F_ibv_create_cq [ctx; cqe] (fun _ => OCq) 1.
(* [init]: send_cq, recv_cq, qp_type, max_send_wr, max_recv_wr,
   max_send_sge, max_recv_sge *)
Definition ibv_create_qp (p : Z) (init : list Z) : M Z :=
  lib_alloc F_ibv_create_qp (p :: init)
            (fun r => OQp (r mod 2 ^ 32) IBV_QPS_RESET) 1.
(** [malloc]: the bytes of the new object are whatever was there. *)
Definition malloc (size : Z) : M Z :=
  r ← answer;
  p ← (if r =? 0 then mret NULL
       else data ← indeterminate size; alloc (OMem size data) size);
  emit (Call F_malloc [size] p);;
  mret p.
Definition ibv_reg_mr (p b len access : Z) : M Z :=
  lib_alloc F_ibv_reg_mr [p; b; len; access]
            (fun r => OMr (r mod 2 ^ 32) (r mod 2 ^ 32)) 1.

(** [ibv_query_gid]: the status and the GID it stores on success. *)
Definition ibv_query_gid (ctx port index : Z) : M (Z * Z) :=
  r ← answer;
  g ← ask port_gid;
  emit (Call F_ibv_query_gid [ctx; port; index] r);;
  mret (r, g).

Definition ibv_destroy_qp (p : Z) : M unit := lib_free F_ibv_destroy_qp is_qp p.
Definition ibv_dereg_mr (p : Z) : M unit := lib_free F_ibv_dereg_mr is_mr p.
Definition free (p : Z) : M unit := lib_free F_free is_mem p.
Definition ibv_destroy_cq (p : Z) : M unit := lib_free F_ibv_destroy_cq is_cq p.
Definition ibv_dealloc_pd (p : Z) : M unit := lib_free F_ibv_dealloc_pd is_pd p.
Definition ibv_close_device (p : Z) : M unit :=
  lib_free F_ibv_close_device is_context p.

(** [close]: closing a descriptor that is not open fails with [EBADF] and
    nothing else happens. *)
Definition close (fd : Z) : M Z := fun w =>
  if bool_decide (fd ∈ fds w)
  then Ok 0 (set_trace (trace w ++ [Call F_close [fd] 0])
               (set_fds (fds w ∖ {[ fd ]}) w))
  else Ok (-1) (set_trace (trace w ++ [Call F_close [fd] (-1)]) w).

(** ** Resource management ([common.c]) *)

Definition cleanup_qp (config : config_t) : M config_t :=
  if truthy (qp config) then
    ibv_destroy_qp (qp config);;
    mret (set_qp NULL config)
  else mret config.

Definition cleanup_resources (config : option config_t) : M (option config_t) :=
  match config with
  | None => mret None
  | Some config =>
    config ← (if truthy (qp config) then cleanup_qp config else mret config);
    when (truthy (mr config)) (ibv_dereg_mr (mr config));;
    when (truthy (buf config)) (free (buf config));;
    when (truthy (cq config)) (ibv_destroy_cq (cq config));;
    when (truthy (pd config)) (ibv_dealloc_pd (pd config));;
    when (truthy (context config)) (ibv_close_device (context config));;
    when (truthy (sock_fd config)) (close (sock_fd config);; mret tt);;
    mret (Some config)
  end.

(** [die_with_cleanup] of [common.c]. *)
Definition die_with_cleanup {A} (message : string) (config : option config_t) : M A :=
  emit (Stderr message []);;
  cleanup_resources config;;
  exit 1.

Definition access_flags_for_init (mode : rdma_mode_t) : Z :=
  match mode with
  | MODE_WRITE => Z.lor IBV_ACCESS_LOCAL_WRITE IBV_ACCESS_REMOTE_WRITE
  | MODE_READ => Z.lor IBV_ACCESS_LOCAL_WRITE IBV_ACCESS_REMOTE_READ
  | MODE_SEND_RECV => IBV_ACCESS_LOCAL_WRITE
  | MODE_LAMBDA => Z.lor IBV_ACCESS_LOCAL_WRITE IBV_ACCESS_REMOTE_WRITE
  end.

(** The tail of every failure branch after the device list exists. *)
Definition unwind (config : config_t) (dev_list : Z) (err : rdma_status_t)
  : M (rdma_status_t * option config_t) :=
  config' ← cleanup_resources (Some config);
  ibv_free_device_list dev_list;;
  mret (err, config').

Definition init_resources (config : option config_t) (mode : rdma_mode_t)
  : M (rdma_status_t * option config_t) :=
  match config with
  | None => mret (RDMA_ERR_RESOURCE, None)
  | Some config =>
    dev_list ← ibv_get_device_list;
    if negb (truthy dev_list) then mret (RDMA_ERR_DEVICE, Some config) else
    device ← dev_list_first dev_list;
    if negb (truthy device) then
      ibv_free_device_list dev_list;;
      mret (RDMA_ERR_DEVICE, Some config)
    else
    c ← ibv_open_device device;
    let config := set_context c config in
    if negb (truthy (context config)) then
      ibv_free_device_list dev_list;;
      mret (RDMA_ERR_DEVICE, Some config)
    else
    p ← ibv_alloc_pd (context config);
    let config := set_pd p config in
    if negb (truthy (pd config)) then unwind config dev_list RDMA_ERR_RESOURCE else
    q ← ibv_create_cq (context config) MAX_CQ_ENTRIES;
    let config := set_cq q config in
    if negb (truthy (cq config)) then unwind config dev_list RDMA_ERR_RESOURCE else
    q ← ibv_create_qp (pd config)
          [cq config; cq config; IBV_QPT_RC;
           MAX_CQ_ENTRIES; MAX_CQ_ENTRIES; 1; 1];
    let config := set_qp q config in
    if negb (truthy (qp config)) then unwind config dev_list RDMA_ERR_RESOURCE else
    b ← malloc MAX_BUFFER_SIZE;
    let config := set_buf b config in
    if negb (truthy (buf config)) then unwind config dev_list RDMA_ERR_RESOURCE else
    let access_flags := access_flags_for_init mode in
    m ← ibv_reg_mr (pd config) (buf config) MAX_BUFFER_SIZE access_flags;
    let config := set_mr m config in
    if negb (truthy (mr config)) then unwind config dev_list RDMA_ERR_RESOURCE else
    '(r, g) ← ibv_query_gid (context config) IB_PORT GID_INDEX;
    let config := if r =? 0 then set_gid g config else config in
    if truthy r then unwind config dev_list RDMA_ERR_DEVICE else
    ibv_free_device_list dev_list;;
    mret (RDMA_SUCCESS, Some config)
  end.

(** ** Queue pair state management ([common.c]) *)

(** [ibv_modify_qp]: on success the queue pair takes the requested state. *)
Definition ibv_modify_qp (q : Z) (new_state : ibv_qp_state)
    (attr : list (string * Z)) (mask : list string) : M Z :=
  o ← lookup_obj q;
  match o with
  | OQp num _ =>
    r ← answer;
    when (r =? 0) (store_obj q (OQp num new_state));;
    emit (ModifyQp q new_state attr mask r);;
    mret r
  | _ => fault
  end.

Definition modify_qp_to_init (q : Z) (access_flags : Z) : M unit :=
  r ← ibv_modify_qp q IBV_QPS_INIT
        [("pkey_index", 0); ("port_num", IB_PORT);
         ("qp_access_flags", access_flags)]
        ["IBV_QP_STATE"; "IBV_QP_PKEY_INDEX"; "IBV_QP_PORT";
         "IBV_QP_ACCESS_FLAGS"];
  if truthy r then die "Failed to modify QP to INIT" else mret tt.

Definition modify_qp_to_rtr (q : Z) (remote_qpn : Z) (remote_gid : Z) : M unit :=
  r ← ibv_modify_qp q IBV_QPS_RTR
        [("path_mtu", IBV_MTU_1024); ("dest_qp_num", remote_qpn);
         ("rq_psn", 0); ("max_dest_rd_atomic", 1); ("min_rnr_timer", 12);
         ("ah_attr.is_global", 1); ("ah_attr.sl", 0);
         ("ah_attr.src_path_bits", 0); ("ah_attr.port_num", IB_PORT);
         ("ah_attr.grh.hop_limit", 1); ("ah_attr.grh.dgid", remote_gid);
         ("ah_attr.grh.sgid_index", GID_INDEX)]
        ["IBV_QP_STATE"; "IBV_QP_AV"; "IBV_QP_PATH_MTU"; "IBV_QP_DEST_QPN";
         "IBV_QP_RQ_PSN"; "IBV_QP_MAX_DEST_RD_ATOMIC"; "IBV_QP_MIN_RNR_TIMER"];
  if truthy r then die "Failed to modify QP to RTR" else mret tt.

Definition modify_qp_to_rts (q : Z) : M unit :=
  r ← ibv_modify_qp q IBV_QPS_RTS
        [("timeout", TIMEOUT); ("retry_cnt", RETRY_COUNT);
         ("rnr_retry", RNR_RETRY); ("sq_psn", 0); ("max_rd_atomic", 1)]
        ["IBV_QP_STATE"; "IBV_QP_TIMEOUT"; "IBV_QP_RETRY_CNT";
         "IBV_QP_RNR_RETRY"; "IBV_QP_SQ_PSN"; "IBV_QP_MAX_QP_RD_ATOMIC"];
  if truthy r then die "Failed to modify QP to RTS" else mret tt.

(** ** Connection management ([common.c]) *)

Definition SO_REUSEADDR : Z := 2.
Definition SO_RCVTIMEO : Z := 20.
Definition SO_SNDTIMEO : Z := 21.

(** A call that returns a new descriptor ([socket], [accept]). *)
Definition note_open (fd : Z) : M unit := fun w =>
  Ok tt (if 0 <=? fd then set_fds (fds w ∪ {[ fd ]}) w else w).

Definition open_fd (f : libcall) (args : list Z) : M Z :=
  r ← answer;
  note_open r;;
  emit (Call f args r);;
  mret r.

(** A call whose only effect here is its return value. *)
Definition syscall (f : libcall) (args : list Z) : M Z :=
  r ← answer;
  emit (Call f args r);;
  mret r.

Definition sleep (seconds : Z) : M unit := emit (Call F_sleep [seconds] 0).

(** The retry loop of [setup_socket]:
    [while (retry_count-- > 0 && !connected)]. *)
Fixpoint connect_retry (retry_count : nat) (fd : Z) : M bool :=
  match retry_count with
  | O => mret false
  | S n =>
    r ← syscall F_connect [fd; TCP_PORT];
    if r =? 0 then mret true
    else
      when (0 <? Z.of_nat n)
        (emit (Stderr "Connection failed, retrying in 1 second... (%d attempts left)"
                      [Z.of_nat n]);;
         sleep 1);;
      connect_retry n fd
  end.

Definition setup_socket (config : config_t) (server_name : option string)
  : M config_t :=
  match server_name with
  | Some name =>   (* Client *)
    fd ← open_fd F_socket [];
    let config := set_sock_fd fd config in
    if sock_fd config <? 0 then die "Failed to create socket" else
    server ← syscall F_gethostbyname [];
    if negb (truthy server) then die "No such host" else
    r ← syscall F_setsockopt [sock_fd config; SO_RCVTIMEO; 5];
    if r <? 0 then
      close (sock_fd config);; die "Failed to set socket timeout"
    else
    r ← syscall F_setsockopt [sock_fd config; SO_SNDTIMEO; 5];
    if r <? 0 then
      close (sock_fd config);; die "Failed to set socket timeout"
    else
    connected ← connect_retry 3 (sock_fd config);
    if negb connected then
      close (sock_fd config);;
      die "Failed to connect after multiple attempts"
    else mret config
  | None =>        (* Server *)
    listen_fd ← open_fd F_socket [];
    if listen_fd <? 0 then die "Failed to create socket" else
    syscall F_setsockopt [listen_fd; SO_REUSEADDR; 1];;
    r ← syscall F_bind [listen_fd; TCP_PORT];
    if r <? 0 then close listen_fd;; die "Failed to bind" else
    syscall F_listen [listen_fd; 1];;
    fd ← open_fd F_accept [listen_fd];
    let config := set_sock_fd fd config in
    if sock_fd config <? 0 then close listen_fd;; die "Failed to accept" else
    close listen_fd;;
    mret config
  end.

(** [write(fd, info, count)] on the control socket. *)
Definition sock_write (fd : Z) (info : qp_info_t) (count : Z) : M Z :=
  r ← answer;
  emit (SockWrite fd info count r);;
  mret r.

(** [read(fd, info, count)] on the control socket: the return value, and the
    record it filled in when it read all [count] bytes. *)
Definition next_record : M qp_info_t := fun w =>
  match rx w with
  | q :: rest => Ok q (set_rx rest w)
  | [] => Ok qp_info_zero w
  end.

Definition sock_read (fd : Z) (count : Z) : M (Z * qp_info_t) :=
  r ← answer;
  info ← (if r =? count then next_record else mret qp_info_zero);
  emit (SockRead fd count r);;
  mret (r, info).

Definition exchange_qp_info (config : config_t) (server_name : option string)
    (local_info : qp_info_t) : M qp_info_t :=
  match server_name with
  | Some _ =>   (* Client *)
    r ← sock_write (sock_fd config) local_info sizeof_qp_info_t;
    if negb (r =? sizeof_qp_info_t) then
      close (sock_fd config);; die "Failed to send local QP info"
    else
    '(r, remote_info) ← sock_read (sock_fd config) sizeof_qp_info_t;
    if negb (r =? sizeof_qp_info_t) then
      close (sock_fd config);; die "Failed to receive remote QP info"
    else mret remote_info
  | None =>     (* Server *)
    '(r, remote_info) ← sock_read (sock_fd config) sizeof_qp_info_t;
    if negb (r =? sizeof_qp_info_t) then
      close (sock_fd config);; die "Failed to receive remote QP info"
    else
    r ← sock_write (sock_fd config) local_info sizeof_qp_info_t;
    if negb (r =? sizeof_qp_info_t) then
      close (sock_fd config);; die "Failed to send local QP info"
    else mret remote_info
  end.

(** [config->qp->qp_num] and [config->mr->rkey] / [->lkey]. *)
Definition load_qp_num (q : Z) : M Z :=
  o ← lookup_obj q;
  match o with OQp num _ => mret num | _ => fault end.
Definition load_rkey (m : Z) : M Z :=
  o ← lookup_obj m;
  match o with OMr _ rk => mret rk | _ => fault end.
Definition load_lkey (m : Z) : M Z :=
  o ← lookup_obj m;
  match o with OMr lk _ => mret lk | _ => fault end.

Definition access_flags_for_connect (mode : rdma_mode_t) : Z :=
  match mode with
  | MODE_WRITE => Z.lor IBV_ACCESS_LOCAL_WRITE IBV_ACCESS_REMOTE_WRITE
  | MODE_READ => Z.lor IBV_ACCESS_LOCAL_WRITE IBV_ACCESS_REMOTE_READ
  | _ => IBV_ACCESS_LOCAL_WRITE
  end.

(** [connect_qps]; [want_remote] tells whether [remote_info] is non-[NULL],
    and the result carries what was stored through it. *)
Definition connect_qps (config : config_t) (server_name : option string)
    (want_remote : bool) (mode : rdma_mode_t)
  : M (config_t * option qp_info_t) :=
  num ← load_qp_num (qp config);
  rk ← load_rkey (mr config);
  let local_qp_info := mk_qp_info num (gid config) (buf config) rk in
  config ← setup_socket config server_name;
  remote_qp_info ← exchange_qp_info config server_name local_qp_info;
  let remote_info := if want_remote then Some remote_qp_info else None in
  let access_flags := access_flags_for_connect mode in
  modify_qp_to_init (qp config) access_flags;;
  modify_qp_to_rtr (qp config) (qp_num remote_qp_info) (qi_gid remote_qp_info);;
  modify_qp_to_rts (qp config);;
  mret (config, remote_info).

Definition setup_rdma_connection (config : config_t)
    (server_name : option string) (mode : rdma_mode_t) (want_remote : bool)
  : M (rdma_status_t * option config_t * option qp_info_t) :=
  '(status, config') ← init_resources (Some config) mode;
  if negb (bool_decide (status = RDMA_SUCCESS)) then
    emit (Stderr ("Failed to initialize resources: " +:+ rdma_err_to_str status) []);;
    mret (status, config', None)
  else
    match config' with
    | Some config' =>
      '(config', remote_info) ← connect_qps config' server_name want_remote mode;
      mret (RDMA_SUCCESS, Some config', remote_info)
    | None => fault
    end.

(** ** RDMA operations ([common.c]) *)

(** Byte order: the hosts are little-endian, so [htonl] and [ntohl] reverse
    the four bytes of a 32-bit value. *)
Definition htonl (x : Z) : Z :=
  let x := x mod 2 ^ 32 in
  (x mod 256) * 2 ^ 24 + (x / 2 ^ 8 mod 256) * 2 ^ 16
  + (x / 2 ^ 16 mod 256) * 2 ^ 8 + (x / 2 ^ 24 mod 256).
Definition ntohl (x : Z) : Z := htonl x.

(** The first [n] bytes of [data], zero where [data] is shorter. *)
Definition bytes_at (data : list Z) (off n : Z) : list Z :=
  take (Z.to_nat n) (drop (Z.to_nat off) data ++ replicate (Z.to_nat n) 0).

(** [data] with its first [length src] bytes replaced by [src]. *)
Definition overwrite (src data : list Z) : list Z :=
  src ++ drop (length src) data.

(** [memcpy(dst, src, n)] where [src] holds the bytes readable at the source
    pointer: it must stay inside both objects. *)
Definition memcpy (dst : Z) (src : list Z) (n : Z) : M unit :=
  o ← lookup_obj dst;
  match o with
  | OMem size data =>
    if (n <=? size) && (n <=? Z.of_nat (length src))
    then store_obj dst (OMem size (overwrite (take (Z.to_nat n) src) data))
    else fault
  | _ => fault
  end.

(** The [n] bytes at offset [off] of the memory object at [p]. *)
Definition load (p : Z) (off n : Z) : M (list Z) :=
  o ← lookup_obj p;
  match o with
  | OMem size data =>
    if (0 <=? off) && (off + n <=? size) then mret (bytes_at data off n)
    else fault
  | _ => fault
  end.

Definition ibv_post_send (q : Z) (wr : ibv_send_wr) : M Z :=
  o ← lookup_obj q;
  if is_qp o then
    r ← answer;
    emit (PostSend q wr r);;
    mret r
  else fault.

Definition ibv_post_recv (q : Z) (wr : ibv_recv_wr) : M Z :=
  o ← lookup_obj q;
  if is_qp o then
    r ← answer;
    emit (PostRecv q wr r);;
    mret r
  else fault.

Definition deref {A} (p : option A) : M A :=
  match p with Some a => mret a | None => fault end.

Definition post_operation (config : option config_t) (op : rdma_op_t)
    (data : option (list Z)) (remote_info : option qp_info_t) (length : Z)
  : M unit :=
  match config with
  | None => mret tt
  | Some config =>
    if MAX_BUFFER_SIZE <? length then mret tt else
    lkey ← load_lkey (mr config);
    (* sg = { addr, length, lkey }; wr = { wr_id = 0, num_sge = 1,
       send_flags = IBV_SEND_SIGNALED } *)
    let wr opc imm raddr rk :=
      mk_send_wr 0 (buf config) (length mod 2 ^ 32) lkey 1 IBV_SEND_SIGNALED
                 opc imm raddr rk in
    wr ← match op with
         | OP_SEND =>
           match data with
           | Some d => memcpy (buf config) d length
           | None => mret tt
           end;;
           mret (wr IBV_WR_SEND 0 0 0)
         | OP_WRITE =>
           match data with
           | Some d => memcpy (buf config) d length
           | None => mret tt
           end;;
           ri ← deref remote_info;
           mret (wr IBV_WR_RDMA_WRITE_WITH_IMM (htonl length) (addr ri) (rkey ri))
         | OP_READ =>
           ri ← deref remote_info;
           mret (wr IBV_WR_RDMA_READ 0 (addr ri) (rkey ri))
         end;
    r ← ibv_post_send (qp config) wr;
    if truthy r then die "Failed to post operation" else mret tt
  end.

Definition post_receive (config : config_t) : M unit :=
  lkey ← load_lkey (mr config);
  let wr := mk_recv_wr 0 (buf config) MAX_BUFFER_SIZE lkey 1 in
  r ← ibv_post_recv (qp config) wr;
  if truthy r then die "Failed to post RR" else mret tt.

(** [while (ibv_poll_cq(cq, 1, &wc) == 0);] — the next completion, once the
    adapter has one; the bytes that came with it are in the buffer by then. *)
Definition poll_cq_until_one (config : config_t) : M ibv_wc := fun w =>
  match cq_in w with
  | [] => Blocked w
  | wc :: rest =>
    let w := set_cq_in rest w in
    let w :=
      match heap w !! buf config with
      | Some (OMem size data) =>
        set_heap (<[buf config :=
                     OMem size (overwrite (take (Z.to_nat size) (wc_arrived wc)) data)]>
                    (heap w)) w
      | _ => w
      end in
    Ok wc (set_trace (trace w ++ [PollCq (cq config) wc]) w)
  end.

Definition wait_completion (config : config_t) : M unit :=
  wc ← poll_cq_until_one config;
  if negb (wc_status wc =? IBV_WC_SUCCESS) then
    emit (Stderr "Completion error: %s" [wc_status wc]);;
    die "RDMA operation failed"
  else mret tt.

(** ** Write mode ([rdma_write.c]) *)

(** [strlen]: the index of the first zero byte. *)
Fixpoint strlen (s : list Z) : option Z :=
  match s with
  | [] => None
  | c :: rest => if c =? 0 then Some 0 else Z.succ <$> strlen rest
  end.

(** The bytes [printf("%s")] shows for the string stored in [data]. *)
Fixpoint cstring (data : list Z) : list Z :=
  match data with
  | [] => []
  | c :: rest => if c =? 0 then [] else c :: cstring rest
  end.

Definition rw_post_write (config : config_t) (message : list Z)
    (remote_info : qp_info_t) : M unit :=
  match strlen message with
  | Some n =>
    let length := n + 1 in
    post_operation (Some config) OP_WRITE (Some message) (Some remote_info) length
  | None => fault
  end.

(** One turn of the [while (1)] of [rw_server_loop]; the result is what the
    turn printed: [received_len] and the text of the buffer. *)
Definition rw_server_turn (config : config_t) : M (option (Z * list Z)) :=
  post_receive config;;
  wc ← poll_cq_until_one config;
  if negb (wc_status wc =? IBV_WC_SUCCESS) then
    emit (Stderr "Completion error: %s" [wc_status wc]);;
    mret None
  else
    let received_len := ntohl (wc_imm_data wc) in
    text ← load (buf config) 0 MAX_BUFFER_SIZE;
    mret (Some (received_len, cstring text)).

(** ** Read mode ([rdma_read.c]) *)

Definition rd_post_read (config : option config_t) (remote_offset : Z)
    (length : Z) (remote_info : qp_info_t) : M qp_info_t :=
  let remote_info :=
    set_addr ((addr remote_info + remote_offset) mod 2 ^ 64) remote_info in
  post_operation config OP_READ None (Some remote_info) length;;
  let remote_info :=
    set_addr ((addr remote_info - remote_offset) mod 2 ^ 64) remote_info in
  mret remote_info.

(** ** Send/receive mode ([send_receive.c]) *)

Definition sr_post_send (config : option config_t) (message : list Z) : M unit :=
  match strlen message with
  | Some n => post_operation config OP_SEND (Some message) None (n + 1)
  | None => fault
  end.

(** ** Lambda mode ([lambda.h], [lambda_server.c]) *)

Record lambda_metadata := mk_metadata {
  function_name : list Z;   (* char[LAMBDA_MAX_FUNCTION_NAME] *)
  code_size : Z;            (* size_t *)
  input_size : Z;           (* size_t *)
  entry_offset : Z          (* uint64_t *)
}.

(** [sizeof(struct lambda_metadata)]: 128 + 8 + 8 + 8. *)
Definition sizeof_lambda_metadata : Z := 152.

Record lambda_memory_regions := mk_regions {
  code_region : Z;
  input_region : Z;
  output_region : Z;
  code_mr : Z;
  input_mr : Z;
  output_mr : Z
}.

(** Integers in memory, least significant byte first. *)
Fixpoint le_decode (bs : list Z) : Z :=
  match bs with
  | [] => 0
  | b :: rest => b + 256 * le_decode rest
  end.

Fixpoint le_encode (n : nat) (x : Z) : list Z :=
  match n with
  | O => []
  | S k => x mod 256 :: le_encode k (x / 256)
  end.

(** [memcpy(&meta_storage, config->buf, sizeof(struct lambda_metadata))] *)
Definition decode_lambda_metadata (bs : list Z) : lambda_metadata :=
  mk_metadata (bytes_at bs 0 LAMBDA_MAX_FUNCTION_NAME)
              (le_decode (bytes_at bs 128 8))
              (le_decode (bytes_at bs 136 8))
              (le_decode (bytes_at bs 144 8)).

(** [memcpy(&client_info, ..., sizeof(struct qp_info_t))] *)
Definition decode_qp_info (bs : list Z) : qp_info_t :=
  mk_qp_info (le_decode (bytes_at bs 0 4))
             (le_decode (bytes_at bs 8 16))
             (le_decode (bytes_at bs 24 8))
             (le_decode (bytes_at bs 32 4)).

Definition encode_lambda_metadata (m : lambda_metadata) : list Z :=
  bytes_at (function_name m) 0 LAMBDA_MAX_FUNCTION_NAME
  ++ le_encode 8 (code_size m) ++ le_encode 8 (input_size m)
  ++ le_encode 8 (entry_offset m).

Definition encode_qp_info (q : qp_info_t) : list Z :=
  le_encode 4 (qp_num q) ++ [0; 0; 0; 0] ++ le_encode 16 (qi_gid q)
  ++ le_encode 8 (addr q) ++ le_encode 4 (rkey q) ++ [0; 0; 0; 0].

Definition error_log (fmt : string) (args : list Z) : M unit :=
  emit (Stderr fmt args).

Definition MAP_FAILED : Z := -1.

(** [mmap(NULL, len, PROT_READ | PROT_WRITE | PROT_EXEC,
          MAP_PRIVATE | MAP_ANONYMOUS, -1, 0)] *)
Definition mmap (len : Z) : M Z :=
  r ← answer;
  p ← (if r =? 0 then mret MAP_FAILED else alloc (OMem len []) len);
  emit (Call F_mmap [len] p);;
  mret p.

Definition setup_lambda_regions (config : option config_t)
  : M lambda_memory_regions :=
  match config with
  | None =>
    error_log "Null config passed to setup_lambda_regions" [];; exit 1
  | Some config =>
    code ← mmap LAMBDA_MAX_CODE_SIZE;
    if code =? MAP_FAILED then
      error_log "Failed to mmap code region: %s" [];; exit 1
    else
    cmr ← ibv_reg_mr (pd config) code LAMBDA_MAX_CODE_SIZE
            (Z.lor IBV_ACCESS_LOCAL_WRITE IBV_ACCESS_REMOTE_WRITE);
    if negb (truthy cmr) then
      error_log "Failed to register code memory region: %s" [];; exit 1
    else
    if negb (truthy (buf config)) then
      error_log "Config buffer is NULL" [];; exit 1
    else
    mret (mk_regions code (buf config) (buf config + LAMBDA_MAX_INPUT_SIZE)
                     cmr (mr config) (mr config))
  end.

Definition post_lambda_send (config : option config_t) (buf : option (list Z))
  : M Z :=
  post_operation config OP_SEND buf None MAX_BUFFER_SIZE;;
  mret 0.

Definition post_lambda_receive (config : config_t) : M Z :=
  post_receive config;;
  mret 0.

Definition post_lambda_write (config : option config_t) (buf : option (list Z))
    (remote_info : option qp_info_t) : M Z :=
  post_operation config OP_WRITE buf remote_info MAX_BUFFER_SIZE;;
  mret 0.

(** What the next call of lambda code will do. *)
Definition next_run : M lambda_run := fun w =>
  Ok (hd (mk_run 0 0 []) (runs w)) (set_runs (tl (runs w)) w).

(** Calling the received code at [fn]: what it returns, the size it
    reports and the bytes it stores are the environment's; it stores them
    from [output] on, which must be a memory object that holds them. *)
Definition invoke (fn input input_size output : Z) : M lambda_run :=
  run ← next_run;
  emit (Invoke fn input input_size output);;
  match run_output run with
  | [] => mret tt
  | out => memcpy output out (Z.of_nat (length out))
  end;;
  mret run.

(** [char result_buf[MAX_BUFFER_SIZE]] once the server has stored the
    status, the output size and the [body] it copied from the output
    region; [stack] is what the array held before. *)
Definition result_record (stack : list Z) (result output_size : Z)
    (body : list Z) : list Z :=
  overwrite (le_encode 4 result ++ le_encode 8 output_size ++ body)
            (bytes_at stack 0 MAX_BUFFER_SIZE).

Inductive loop_ctl := Continue | Break.

(** The body of the [while (1)] of [lambda_server_loop] from the metadata
    check on, for the metadata and client record just received. *)
Definition lambda_server_request (config : config_t)
    (server_regions : lambda_memory_regions)
    (meta : lambda_metadata) (client_info : qp_info_t) : M loop_ctl :=
  if (code_size meta =? 0) || (LAMBDA_MAX_CODE_SIZE <? code_size meta) then
    error_log "Invalid metadata received: code_size=%zu" [code_size meta];;
    mret Break
  else
  r ← post_lambda_receive config;
  if truthy r then
    error_log "Failed to post receive for function code" [];; mret Break
  else
  wait_completion config;;
  code ← load (buf config) 0 (code_size meta);
  memcpy (code_region server_regions) code (code_size meta);;
  r ← post_lambda_receive config;
  if truthy r then
    error_log "Failed to post receive for input data" [];; mret Break
  else
  wait_completion config;;
  if code_size meta <=? entry_offset meta then
    error_log "Invalid entry offset: %lu (code size: %zu)"
              [entry_offset meta; code_size meta];;
    mret Break
  else
  let func := code_region server_regions + entry_offset meta in
  run ← invoke func (input_region server_regions) (input_size meta)
               (output_region server_regions);
  stack ← indeterminate MAX_BUFFER_SIZE;
  let output_size := run_output_size run in
  body ← (if 0 <? output_size then
            let data_offset := 4 + 8 in
            let max_copy := MAX_BUFFER_SIZE - data_offset in
            let bytes_to_copy :=
              if output_size <? max_copy then output_size else max_copy in
            load (output_region server_regions) 0 bytes_to_copy
          else mret []);
  let result_buf := result_record stack (run_result run) output_size body in
  post_lambda_write (Some config) (Some result_buf) (Some client_info);;
  wait_completion config;;
  mret Continue.

(** Waiting for the first message of a request and copying the metadata
    and the client's record out of the buffer. *)
Definition receive_request (config : config_t)
  : M (lambda_metadata * qp_info_t) :=
  wait_completion config;;
  meta ← load (buf config) 0 sizeof_lambda_metadata;
  client ← load (buf config) sizeof_lambda_metadata sizeof_qp_info_t;
  mret (decode_lambda_metadata meta, decode_qp_info client).

(** The whole body: receive the metadata, then serve the request. *)
Definition lambda_server_turn (config : config_t)
    (server_regions : lambda_memory_regions) : M loop_ctl :=
  r ← post_lambda_receive config;
  if truthy r then
    error_log "Failed to post receive for metadata" [];; mret Break
  else
  '(meta, client_info) ← receive_request config;
  lambda_server_request config server_regions meta client_info.

(** [while (1) { ... }] run for at most [turns] turns. *)
Fixpoint lambda_server_turns (turns : nat) (config : config_t)
    (server_regions : lambda_memory_regions) : M unit :=
  match turns with
  | O => blocked
  | S n =>
    c ← lambda_server_turn config server_regions;
    match c with
    | Break => mret tt
    | Continue => lambda_server_turns n config server_regions
    end
  end.

(** [lambda_server_loop]: every turn that goes round again has consumed a
    completion, so one turn more than there are completions is enough to
    reach the point where the loop leaves or waits for ever. *)
Definition lambda_server_loop (config : config_t)
    (server_regions : lambda_memory_regions) : M unit := fun w =>
  lambda_server_turns (S (length (cq_in w))) config server_regions w.

Definition lambda_run_server : M Z :=
  (* setup_lambda_qps *)
  '(status, config, _) ← setup_rdma_connection config_zero None MODE_WRITE false;
  if negb (bool_decide (status = RDMA_SUCCESS)) then
    error_log "Failed to setup data QP" [];; exit 1
  else
  server_regions ← setup_lambda_regions config;
  match config with
  | Some data_qp =>
    lambda_server_loop data_qp server_regions;;
    cleanup_resources (Some data_qp);;
    mret 0
  | None => fault
  end.

(** ** Vocabulary of the properties *)

(** *** Traces *)

(** [m] only adds events that [ok] accepts, whatever the world and however
    the call ends. *)
Definition emits_only {A} (ok : event -> bool) (m : M A) : Prop :=
  forall w, exists new,
    trace (final (m w)) = trace w ++ new /\ forallb ok new = true.

(** Every value [m] returns satisfies [Q]. *)
Definition returns_only {A} (Q : A -> Prop) (m : M A) : Prop :=
  forall w a w', m w = Ok a w' -> Q a.

Definition is_invoke (e : event) : bool :=
  match e with Invoke _ _ _ _ => true | _ => false end.

Definition is_post (e : event) : bool :=
  match e with PostSend _ _ _ | PostRecv _ _ _ => true | _ => false end.

Definition is_modify (e : event) : bool :=
  match e with ModifyQp _ _ _ _ _ => true | _ => false end.

(** The calls by which [cleanup_resources] gives RDMA resources back. *)
Definition is_rollback (e : event) : bool :=
  match e with
  | Call F_ibv_destroy_qp _ _ | Call F_ibv_dereg_mr _ _ | Call F_free _ _
  | Call F_ibv_destroy_cq _ _ | Call F_ibv_dealloc_pd _ _
  | Call F_ibv_close_device _ _ => true
  | _ => false
  end.

(** The state changes a trace asked for, each with what [ibv_modify_qp]
    returned. *)
Fixpoint transitions (t : list event) : list (ibv_qp_state * Z) :=
  match t with
  | [] => []
  | ModifyQp _ s _ _ r :: rest => (s, r) :: transitions rest
  | _ :: rest => transitions rest
  end.

(** *** Initialisation steps *)

Inductive init_step :=
| DeviceDiscovery | FirstDevice | ContextOpen | ProtectionDomain
| CompletionQueue | QueuePair | BufferAlloc | MemoryRegistration | GidQuery.

(** The position of a step's answer in the script of a fresh run. *)
Definition step_index (s : init_step) : nat :=
  match s with
  | DeviceDiscovery => 0 | FirstDevice => 1 | ContextOpen => 2
  | ProtectionDomain => 3 | CompletionQueue => 4 | QueuePair => 5
  | BufferAlloc => 6 | MemoryRegistration => 7 | GidQuery => 8
  end%nat.

Definition answer_at (k : nat) (answers : list Z) : Z := nth k answers 0.

(** Step [s] is the first to fail: the creating calls fail by returning
    [NULL], [ibv_query_gid] by returning non-zero. *)
Definition step_fails (s : init_step) (answers : list Z) : Prop :=
  (forall k, (k < step_index s)%nat -> answer_at k answers <> 0) /\
  match s with
  | GidQuery => answer_at 8 answers <> 0
  | _ => answer_at (step_index s) answers = 0
  end.

(** The error each failing step is to be reported as. *)
Definition error_class (s : init_step) : rdma_status_t :=
  match s with
  | DeviceDiscovery | FirstDevice | ContextOpen | GidQuery => RDMA_ERR_DEVICE
  | ProtectionDomain | CompletionQueue | QueuePair | BufferAlloc
  | MemoryRegistration => RDMA_ERR_RESOURCE
  end.

(** The allocators hand out addresses nobody holds yet, and never [NULL]. *)
Definition sound (w : world) : Prop :=
  0 < brk w /\ forall p, brk w <= p -> heap w !! p = None.

Definition handles (c : config_t) : list Z :=
  [context c; pd c; cq c; qp c; mr c; buf c].

Definition holds_nothing_live (c : config_t) (w : world) : Prop :=
  Forall (fun p => p = NULL \/ heap w !! p = None) (handles c).

(** *** Reporting *)

(** A call that returns nothing can make a failure known only by ending the
    process with a non-zero status or by writing to [stderr]. *)
Definition reported {A} (w : world) (o : outcome A) : Prop :=
  (exists s w', o = Exit s w' /\ s <> 0) \/
  (exists fmt args, In (Stderr fmt args) (drop (length (trace w)) (trace (final o)))).

(** *** The wire *)

(** What the reliable connection does with a posted write-with-immediate
    whose target is the base of the peer's registered buffer: the bytes of
    the scatter element reach that buffer and the peer's posted receive
    completes with the immediate value. *)
Definition rc_deliver (sender : world) (wr : ibv_send_wr) (peer_buf : Z)
  : option ibv_wc :=
  match heap sender !! sg_addr wr with
  | Some (OMem size data) =>
    if (remote_addr wr =? peer_buf)
       && bool_decide (opcode wr = IBV_WR_RDMA_WRITE_WITH_IMM)
    then Some (mk_wc IBV_WC_SUCCESS (imm_data wr)
                     (bytes_at data 0 (sg_length wr)))
    else None
  | _ => None
  end.

(** *** A connected session, for the concrete runs *)

Definition demo_config : config_t := mk_config 2 3 4 5 4102 6 0 0.

Definition demo_regions : lambda_memory_regions :=
  mk_regions 4103 6 (6 + LAMBDA_MAX_INPUT_SIZE) 3149831 4102 4102.

Definition demo_heap : gmap Z obj :=
  <[3149831 := OMr 11 11]> (<[4103 := OMem LAMBDA_MAX_CODE_SIZE []]>
  (<[4102 := OMr 9 9]> (<[6 := OMem MAX_BUFFER_SIZE []]>
  (<[5 := OQp 7 IBV_QPS_RTS]> (<[4 := OCq]> (<[3 := OPd]>
  (<[2 := OContext]> ∅))))))).

Definition demo_world (answers : list Z) (completions : list ibv_wc)
    (calls : list lambda_run) : world :=
  mk_world demo_heap 3149832 ∅ [] answers 0 [] completions calls [] None.

(** The completion of a receive that brought [bytes] into the buffer. *)
Definition arrival (bytes : list Z) : ibv_wc := mk_wc IBV_WC_SUCCESS 0 bytes.

Definition demo_client : qp_info_t := mk_qp_info 21 0 8192 33.

(** The first message of a lambda request: metadata, then the sender's own
    record. *)
Definition request_header (meta : lambda_metadata) : list Z :=
  encode_lambda_metadata meta ++ encode_qp_info demo_client.

(** *** Event classes *)

Definition no_invoke (e : event) : bool := negb (is_invoke e).

(** Neither a posted work request nor a resource given back. *)
Definition calm (e : event) : bool := negb (is_post e) && negb (is_rollback e).

Definition no_post (e : event) : bool := negb (is_post e).

(** Calm, and not a queue pair transition either. *)
Definition quiet (e : event) : bool := calm e && negb (is_modify e).

(** Every work request posted covers the whole buffer. *)
Definition full_length (e : event) : bool :=
  match e with
  | PostSend _ wr _ => sg_length wr =? MAX_BUFFER_SIZE
  | PostRecv _ wr _ => rsg_length wr =? MAX_BUFFER_SIZE
  | _ => true
  end.

(** *** The queue pair state machine *)

(** The transitions [ts] a connection setup asked for and the way it ended
    belong together: nothing asked for and no connection; or the fixed
    order Init, ReadyToReceive, ReadyToSend, each asked for once the one
    before succeeded, ending in [exit(1)] at the first that fails and in a
    normal return only when all three succeeded. *)
Definition state_machine {A} (ts : list (ibv_qp_state * Z)) (o : outcome A) : Prop :=
  match ts with
  | [] => forall a w', o <> Ok a w'
  | [(s1, r1)] =>
    s1 = IBV_QPS_INIT /\ r1 <> 0 /\ exists w', o = Exit 1 w'
  | [(s1, r1); (s2, r2)] =>
    s1 = IBV_QPS_INIT /\ r1 = 0 /\
    s2 = IBV_QPS_RTR /\ r2 <> 0 /\ exists w', o = Exit 1 w'
  | [(s1, r1); (s2, r2); (s3, r3)] =>
    s1 = IBV_QPS_INIT /\ r1 = 0 /\ s2 = IBV_QPS_RTR /\ r2 = 0 /\
    s3 = IBV_QPS_RTS /\
    ((r3 = 0 /\ exists a w', o = Ok a w')
     \/ (r3 <> 0 /\ exists w', o = Exit 1 w'))
  | _ => False
  end.

Definition drives {A} (m : M A) : Prop :=
  forall w, exists new,
    trace (final (m w)) = trace w ++ new
    /\ forallb calm new = true
    /\ state_machine (transitions new) (m w).

(** *** The handshake as the specification words it *)

(** The client writes its record, then reads the peer's; the server reads
    first, then writes; both transfer [sizeof_qp_info_t] bytes; a transfer
    of any other size closes the socket and is fatal.  [first] and [second]
    are what the two transfers return, in the order the role makes them,
    and [closed] what [close] returns.  The result is the events and
    whether the exchange completes. *)
Definition exchange_script (client : bool) (fd : Z) (local_info : qp_info_t)
    (first second closed : Z) : list event * bool :=
  let size := sizeof_qp_info_t in
  let wr r := SockWrite fd local_info size r in
  let rd r := SockRead fd size r in
  let send_failed := Stderr "Failed to send local QP info" [] in
  let recv_failed := Stderr "Failed to receive remote QP info" [] in
  let shut := Call F_close [fd] closed in
  if client then
    if negb (first =? size) then ([wr first; shut; send_failed], false)
    else if negb (second =? size) then
           ([wr first; rd second; shut; recv_failed], false)
         else ([wr first; rd second], true)
  else
    if negb (first =? size) then ([rd first; shut; recv_failed], false)
    else if negb (second =? size) then
           ([rd first; wr second; shut; send_failed], false)
         else ([rd first; wr second], true).

(** *** Requests for the concrete runs *)

(** Metadata that announces no code at all, metadata for three bytes of
    code entered at offset 1, and metadata whose entry offset is the code
    length. *)
Definition empty_code : lambda_metadata := mk_metadata [102; 0] 0 4 0.
Definition three_bytes : lambda_metadata := mk_metadata [102; 0] 3 4 1.
Definition entry_past_end : lambda_metadata := mk_metadata [102; 0] 3 4 3.

(** The four completions of a well-formed request: metadata, code, input,
    and the completion of the result write. *)
Definition good_request : list ibv_wc :=
  [arrival (request_header three_bytes); arrival [1; 2; 3];
   arrival [97; 98; 99; 0]; arrival []].

(** *** The server loop *)

(** The loop has not handed control back to [lambda_run_server]: it goes
    on serving (or waiting), or the process ended inside it. *)
Definition stays_in_loop (o : outcome unit) : Prop :=
  forall w', o <> Ok tt w'.

(** *** Heap and completion bookkeeping *)

(** [m] never brings an address to life. *)
Definition only_deletes {A} (m : M A) : Prop :=
  forall w a w' p, m w = Ok a w' -> heap w !! p = None -> heap w' !! p = None.

(** [m] never adds to the completions still to come. *)
Definition consumes {A} (m : M A) : Prop :=
  forall w a w', m w = Ok a w' -> (length (cq_in w') <= length (cq_in w))%nat.

(** Every read posted targets the remote address [a]. *)
Definition reads_from (a : Z) (e : event) : bool :=
  match e with
  | PostSend _ wr _ =>
    (remote_addr wr =? a) && bool_decide (opcode wr = IBV_WR_RDMA_READ)
  | _ => true
  end.

(** ** The example lambda ([lambda-run.c]) *)

(** [(c >= 'a' && c <= 'z') ? c - 32 : c] *)
Definition upcase (c : Z) : Z :=
  if (97 <=? c) && (c <=? 122) then c - 32 else c.

(** The [for] loop of [process_data] from index [i] on: [input] holds the
    bytes readable from [in_str + i] and [remaining] is [input_size - i];
    the result is what the loop stores from [out_str + i] on.  There is no
    result when the loop reads [in_str] past the end of its object. *)
Fixpoint process_loop (input : list Z) (remaining : nat) {struct remaining}
  : option (list Z) :=
  match remaining with
  | O => Some []
  | S k =>
    match input with
    | [] => None
    | c :: rest =>
      if c =? 0 then Some []
      else out ← process_loop rest k; Some (upcase c :: out)
    end
  end.

(** [process_data]: the return value, [*output_size] and the bytes stored
    from [output] on (the converted text and the terminator). *)
Definition process_data (input : list Z) (input_size : Z)
  : option (Z * Z * list Z) :=
  out ← process_loop input (Z.to_nat input_size);
  Some (0, Z.of_nat (length out) + 1, out ++ [0]).

(** ** Lambda client ([lambda_client.c]) *)

Definition get_function_size (func : Z) : Z := 4096.

(** An [int] read from four bytes of memory. *)
Definition to_int (x : Z) : Z := if x <? 2 ^ 31 then x else x - 2 ^ 32.

(** [combined_meta] as [execute_lambda] fills it: the metadata with the
    name cut to [LAMBDA_MAX_FUNCTION_NAME - 1] bytes and entry offset [0],
    then the client's own record; every byte not assigned is zero. *)
Definition combined_meta (func_name : list Z) (code_size input_size : Z)
    (qp_info : qp_info_t) : list Z :=
  encode_lambda_metadata
    (mk_metadata (take (Z.to_nat (LAMBDA_MAX_FUNCTION_NAME - 1)) (cstring func_name))
                 code_size input_size 0)
  ++ encode_qp_info qp_info.

(** [post_lambda_write(config, config->buf, remote_info);] *)
Definition post_buffer (config : config_t) (remote_info : option qp_info_t)
  : M unit :=
  data ← load (buf config) 0 MAX_BUFFER_SIZE;
  post_lambda_write (Some config) (Some data) remote_info;;
  mret tt.

(** [post_lambda_write(config, config->buf, remote_info);
     wait_completion(config);] *)
Definition send_buffer (config : config_t) (remote_info : option qp_info_t)
  : M unit :=
  post_buffer config remote_info;;
  wait_completion config.

(** The start of [execute_lambda] once the function is loaded: the
    metadata is written into the buffer, then [combined_meta] is filled
    and copied over it. *)
Definition put_metadata (config : config_t) (func_name : list Z)
    (code_size input_size : Z) : M unit :=
  memcpy (buf config) (replicate (Z.to_nat sizeof_lambda_metadata) 0)
         sizeof_lambda_metadata;;
  let meta :=
    mk_metadata (take (Z.to_nat (LAMBDA_MAX_FUNCTION_NAME - 1)) (cstring func_name))
                code_size input_size 0 in
  memcpy (buf config) (encode_lambda_metadata meta) sizeof_lambda_metadata;;
  num ← load_qp_num (qp config);
  rk ← load_rkey (mr config);
  let qp_info := mk_qp_info num (gid config) (buf config) rk in
  memcpy (buf config) (combined_meta func_name code_size input_size qp_info)
         (sizeof_lambda_metadata + sizeof_qp_info_t).

(** The end of [execute_lambda]: waiting for the server's write and reading
    the result out of the buffer into an [output] of [output_capacity]
    bytes.  The result is the status, [*output_size] and the bytes copied
    to [output]. *)
Definition receive_result (config : config_t) (output_capacity : Z)
  : M (Z * Z * list Z) :=
  post_receive config;;
  wait_completion config;;
  r ← load (buf config) 0 4;
  s ← load (buf config) 4 8;
  let result := to_int (le_decode r) in
  let output_size := le_decode s in
  out ← load (buf config) (4 + 8) output_size;
  if output_capacity <? output_size then fault else
  mret (result, output_size, out).

(** [execute_lambda].  [loaded] is what the dynamic loader gives: [None]
    when [dlopen] fails, [Some None] when [dlsym] fails, otherwise the
    bytes readable at the address of the function.  [input] holds the bytes
    readable at the input pointer. *)
Definition execute_lambda (config : config_t)
    (loaded : option (option (list Z))) (func_name : list Z)
    (input : list Z) (input_size : Z) (output_capacity : Z)
    (remote_info : option qp_info_t) : M (Z * option (Z * list Z)) :=
  match loaded with
  | None => emit (Stderr "dlopen error: %s" []);; mret (-1, None)
  | Some None => emit (Stderr "dlsym error: %s" []);; mret (-1, None)
  | Some (Some func) =>
    let code_size := get_function_size 0 in
    put_metadata config func_name code_size input_size;;
    send_buffer config remote_info;;
    memcpy (buf config) func code_size;;
    send_buffer config remote_info;;
    memcpy (buf config) input input_size;;
    send_buffer config remote_info;;
    '(result, output_size, out) ← receive_result config output_capacity;
    mret (result, Some (output_size, out))
  end.

(** The library will take one more work request of [len] bytes from [c]:
    the handles of [c] are live, the buffer and the data to copy (if any)
    hold [len] bytes, and the next call of the library returns [0]. *)
Definition can_post (c : config_t) (data : option (list Z)) (len : Z)
    (w : world) : Prop :=
  (exists lkey rk, heap w !! mr c = Some (OMr lkey rk))
  /\ (exists num state, heap w !! qp c = Some (OQp num state))
  /\ (exists size old, heap w !! buf c = Some (OMem size old) /\ len <= size)
  /\ (forall d, data = Some d -> len <= Z.of_nat (length d))
  /\ hd 0 (rets w) = 0.

(** The start of a result record in memory: [int] status, [size_t] output
    size, output bytes. *)
Definition result_message (result output_size : Z) (out : list Z) : list Z :=
  le_encode 4 result ++ le_encode 8 output_size ++ out.

(** A write with immediate of the whole registered buffer to the base
    address of the peer [ri]. *)
Definition whole_buffer_write (config : config_t) (ri : qp_info_t)
    (wr : ibv_send_wr) : Prop :=
  opcode wr = IBV_WR_RDMA_WRITE_WITH_IMM
  /\ sg_addr wr = buf config
  /\ sg_length wr = MAX_BUFFER_SIZE
  /\ imm_data wr = htonl MAX_BUFFER_SIZE
  /\ remote_addr wr = addr ri
  /\ wr_rkey wr = rkey ri.

(** A line of the lambda server's log that turns a request down. *)
Definition is_rejection (e : event) : bool :=
  match e with
  | Stderr fmt _ =>
    String.eqb fmt "Invalid metadata received: code_size=%zu"
    || String.eqb fmt "Invalid entry offset: %lu (code size: %zu)"
  | _ => false
  end.

(** ** The interactive loops ([rdma_write.c], [rdma_read.c], [send_receive.c]) *)

(** Standard input and output are not part of the world: a loop gets the
    lines [fgets] will store in [input] (each with its terminator, and
    whatever the array held behind it), and what it prints is not
    recorded. *)

(** [size_t len = strlen(input);
     if (input[len - 1] == '\n') input[--len] = '\0';]
    The result is [len] and the array afterwards.  There is none when the
    array holds no terminator, or when [len] is [0] and [input[len - 1]] is
    a byte in front of the array. *)
Definition strip_newline (input : list Z) : option (Z * list Z) :=
  len ← strlen input;
  if len =? 0 then None
  else if bool_decide (input !! Z.to_nat (len - 1) = Some 10)
       then Some (len - 1, <[Z.to_nat (len - 1) := 0]> input)
       else Some (len, input).

(** One turn of the [while (fgets(...))] of [rw_run_client]. *)
Definition rw_client_line (config : config_t) (remote_info : qp_info_t)
    (input : list Z) : M unit :=
  match strip_newline input with
  | None => fault
  | Some (len, input) =>
    if len =? 0 then mret tt
    else
      rw_post_write config input remote_info;;
      wait_completion config
  end.

Fixpoint rw_client_lines (config : config_t) (remote_info : qp_info_t)
    (lines : list (list Z)) : M unit :=
  match lines with
  | [] => mret tt
  | input :: rest =>
    rw_client_line config remote_info input;;
    rw_client_lines config remote_info rest
  end.

(** [rw_run_client]; [stdin] holds the lines up to the end of the input. *)
Definition rw_run_client (server_name : string) (stdin : list (list Z)) : M Z :=
  '(status, config, remote_info) ←
    setup_rdma_connection config_zero (Some server_name) MODE_WRITE true;
  if negb (bool_decide (status = RDMA_SUCCESS)) then mret (-1) else
  match config, remote_info with
  | Some config, Some remote_info =>
    rw_client_lines config remote_info stdin;;
    cleanup_resources (Some config);;
    mret 0
  | _, _ => fault
  end.

(** [while (1) { ... }] of [rw_server_loop], run for at most [turns]
    turns. *)
Fixpoint rw_server_turns (turns : nat) (config : config_t) : M unit :=
  match turns with
  | O => blocked
  | S n => rw_server_turn config;; rw_server_turns n config
  end.

(** [rw_server_loop]: every turn uses up a completion, so one turn more
    than there are completions reaches the point where the loop waits for
    ever, unless the process ended before. *)
Definition rw_server_loop (config : config_t) : M unit := fun w =>
  rw_server_turns (S (length (cq_in w))) config w.

Definition rw_run_server : M Z :=
  '(status, config, _) ←
    setup_rdma_connection config_zero None MODE_WRITE false;
  if negb (bool_decide (status = RDMA_SUCCESS)) then mret (-1) else
  match config with
  | Some config =>
    rw_server_loop config;;
    cleanup_resources (Some config);;
    mret 0
  | None => fault
  end.

(** The text of the acknowledgement, ["ACK"] with its terminator. *)
Definition ACK : list Z := [65; 67; 75; 0].

(** One turn of the [while (1)] of [sr_server_loop]; the result is the text
    it printed. *)
Definition sr_server_turn (config : config_t) : M (list Z) :=
  post_receive config;;
  wait_completion config;;
  text ← load (buf config) 0 MAX_BUFFER_SIZE;
  sr_post_send (Some config) ACK;;
  wait_completion config;;
  mret (cstring text).

Fixpoint sr_server_turns (turns : nat) (config : config_t) : M unit :=
  match turns with
  | O => blocked
  | S n => sr_server_turn config;; sr_server_turns n config
  end.

Definition sr_server_loop (config : config_t) : M unit := fun w =>
  sr_server_turns (S (length (cq_in w))) config w.

Definition sr_run_server : M Z :=
  '(status, config, _) ←
    setup_rdma_connection config_zero None MODE_SEND_RECV false;
  if negb (bool_decide (status = RDMA_SUCCESS)) then mret (-1) else
  match config with
  | Some config =>
    sr_server_loop config;;
    cleanup_resources (Some config);;
    mret 0
  | None => fault
  end.

(** One turn of the [while (fgets(...))] of [sr_run_client]. *)
Definition sr_client_line (config : config_t) (input : list Z) : M unit :=
  match strip_newline input with
  | None => fault
  | Some (len, input) =>
    if len =? 0 then mret tt
    else
      sr_post_send (Some config) input;;
      wait_completion config;;
      post_receive config;;
      wait_completion config
  end.

Fixpoint sr_client_lines (config : config_t) (lines : list (list Z)) : M unit :=
  match lines with
  | [] => mret tt
  | input :: rest =>
    sr_client_line config input;;
    sr_client_lines config rest
  end.

Definition sr_run_client (server_name : string) (stdin : list (list Z)) : M Z :=
  '(status, config, _) ←
    setup_rdma_connection config_zero (Some server_name) MODE_SEND_RECV true;
  if negb (bool_decide (status = RDMA_SUCCESS)) then mret (-1) else
  match config with
  | Some config =>
    sr_client_lines config stdin;;
    cleanup_resources (Some config);;
    mret 0
  | None => fault
  end.

(** [rd_server_loop]; [stdin] is the line [fgets] reads, if there is one.
    [while (1) sleep(1);] never ends; its sleeps are not recorded. *)
Definition rd_server_loop (config : config_t) (stdin : option (list Z))
  : M unit :=
  match stdin with
  | None => mret tt
  | Some input =>
    match strip_newline input with
    | None => fault
    | Some (len, input) =>
      memcpy (buf config) input (len + 1);;
      blocked
    end
  end.

Definition rd_run_server (stdin : option (list Z)) : M Z :=
  '(status, config, _) ←
    setup_rdma_connection config_zero None MODE_READ false;
  if negb (bool_decide (status = RDMA_SUCCESS)) then mret (-1) else
  match config with
  | Some config =>
    rd_server_loop config stdin;;
    cleanup_resources (Some config);;
    mret 0
  | None => fault
  end.

(** One turn of the [while (fgets(...))] of [rd_run_client] for a line in
    which [sscanf] found the two numbers [start] and [end_pos] ([end] in
    the source).  The result is the caller's [remote_info] afterwards and,
    when a read was made, its length and the bytes it left at the start of
    the buffer. *)
Definition rd_client_range (config : config_t) (start end_pos : Z)
    (remote_info : qp_info_t) : M (qp_info_t * option (Z * list Z)) :=
  if (start <? 0) || (end_pos <? start) || (MAX_BUFFER_SIZE <=? end_pos)
  then mret (remote_info, None)
  else
    let read_len := end_pos - start + 1 in
    remote_info ← rd_post_read (Some config) start read_len remote_info;
    wait_completion config;;
    data ← load (buf config) 0 read_len;
    mret (remote_info, Some (read_len, data)).

(** The loop of [rd_run_client]: for each line what [sscanf] made of it,
    [None] when it did not find two numbers. *)
Fixpoint rd_client_lines (config : config_t) (remote_info : qp_info_t)
    (lines : list (option (Z * Z))) : M unit :=
  match lines with
  | [] => mret tt
  | None :: rest => rd_client_lines config remote_info rest
  | Some (start, end_pos) :: rest =>
    '(remote_info, _) ← rd_client_range config start end_pos remote_info;
    rd_client_lines config remote_info rest
  end.

Definition rd_run_client (server_name : string)
    (stdin : list (option (Z * Z))) : M Z :=
  '(status, config, remote_info) ←
    setup_rdma_connection config_zero (Some server_name) MODE_READ true;
  if negb (bool_decide (status = RDMA_SUCCESS)) then mret (-1) else
  match config, remote_info with
  | Some config, Some remote_info =>
    rd_client_lines config remote_info stdin;;
    cleanup_resources (Some config);;
    mret 0
  | _, _ => fault
  end.

(** A read of bytes [start] to [end_pos] of the peer's buffer at [base]. *)
Definition reads_range (base start end_pos : Z) (e : event) : bool :=
  match e with
  | PostSend _ wr _ =>
    bool_decide (opcode wr = IBV_WR_RDMA_READ)
    && (remote_addr wr =? (base + start) mod 2 ^ 64)
    && (sg_length wr =? end_pos - start + 1)
    && (0 <=? start) && (1 <=? sg_length wr)
    && (start + sg_length wr <=? MAX_BUFFER_SIZE)
  | PostRecv _ _ _ => false
  | _ => true
  end.

(** ** Counting calls *)

Definition is_call (f : libcall) (e : event) : bool :=
  match e with
  | Call f' _ _ => bool_decide (f' = f)
  | _ => false
  end.

(** How often a trace calls [f]. *)
Definition calls_to (f : libcall) (t : list event) : nat :=
  length (List.filter (is_call f) t).

(** ** The lambda client as a whole ([lambda_client.c]) *)

Module lambda_client.

(** The client's [setup_lambda_regions]: neither result is checked. *)
Definition setup_lambda_regions (config : config_t) : M lambda_memory_regions :=
  code ← malloc LAMBDA_MAX_CODE_SIZE;
  cmr ← ibv_reg_mr (pd config) code LAMBDA_MAX_CODE_SIZE IBV_ACCESS_LOCAL_WRITE;
  mret (mk_regions code (buf config) (buf config + LAMBDA_MAX_INPUT_SIZE)
                   cmr 0 0).

End lambda_client.

(** ["process_data"] and ["Test STRING which will be Made upperCASE"], each
    with its terminator. *)
Definition example_func_name : list Z :=
  [112; 114; 111; 99; 101; 115; 115; 95; 100; 97; 116; 97; 0].
Definition example_input : list Z :=
  [84; 101; 115; 116; 32; 83; 84; 82; 73; 78; 71; 32; 119; 104; 105; 99; 104;
   32; 119; 105; 108; 108; 32; 98; 101; 32; 77; 97; 100; 101; 32; 117; 112;
   112; 101; 114; 67; 65; 83; 69; 0].

(** [lambda_run_client]; [char output[1024]].  The handler that the two
    calls of [signal] install is not part of a run: no signal arrives. *)
Definition lambda_run_client (server_name : string)
    (loaded : option (option (list Z))) : M Z :=
  '(status, config, remote_info) ←
    setup_rdma_connection config_zero (Some server_name) MODE_WRITE true;
  if negb (bool_decide (status = RDMA_SUCCESS)) then
    emit (Stderr "Failed to setup data QP connection" []);;
    mret (-1)
  else
  match config with
  | Some data_qp =>
    syscall F_signal [SIGINT];;
    syscall F_signal [SIGTERM];;
    lambda_client.setup_lambda_regions data_qp;;
    match strlen example_input with
    | Some n =>
      '(result, _) ← execute_lambda data_qp loaded example_func_name
                        example_input (n + 1) 1024 remote_info;
      cleanup_resources (Some data_qp);;
      mret result
    | None => fault
    end
  | None => fault
  end.

(** ** Entry points ([common.c], [rdma.c]) *)

(** What the process finds on its standard input: the lines [fgets] will
    store, and what [sscanf(input, "%d %d", ...)] makes of a line. *)
Record stdin_t := mk_stdin {
  lines : list (list Z);
  scan : list Z -> option (Z * Z)
}.

(** [run_server] and [run_client]; the [default] of the [switch] cannot be
    reached with a value of the enumeration.  The read server reads one
    line. *)
Definition run_server (mode : rdma_mode_t) (stdin : stdin_t) : M Z :=
  '(status, config, _) ← setup_rdma_connection config_zero None mode false;
  if negb (bool_decide (status = RDMA_SUCCESS)) then mret (-1) else
  result ← match mode with
           | MODE_WRITE => rw_run_server
           | MODE_READ => rd_run_server (head (lines stdin))
           | MODE_SEND_RECV => sr_run_server
           | MODE_LAMBDA => lambda_run_server
           end;
  cleanup_resources config;;
  mret result.

Definition run_client (server_name : string) (mode : rdma_mode_t)
    (stdin : stdin_t) (loaded : option (option (list Z))) : M Z :=
  '(status, config, _) ←
    setup_rdma_connection config_zero (Some server_name) mode true;
  if negb (bool_decide (status = RDMA_SUCCESS)) then mret (-1) else
  result ← match mode with
           | MODE_WRITE => rw_run_client server_name (lines stdin)
           | MODE_READ => rd_run_client server_name (scan stdin <$> lines stdin)
           | MODE_SEND_RECV => sr_run_client server_name (lines stdin)
           | MODE_LAMBDA => lambda_run_client server_name loaded
           end;
  cleanup_resources config;;
  mret result.

(** The mode named on the command line. *)
Definition mode_of_string (mode : string) : option rdma_mode_t :=
  if String.eqb mode "send" then Some MODE_SEND_RECV
  else if String.eqb mode "write" then Some MODE_WRITE
  else if String.eqb mode "read" then Some MODE_READ
  else if String.eqb mode "lambda" then Some MODE_LAMBDA
  else None.

(** [setup_signal_handlers] of [rdma.c]: [signal_handler] becomes the
    handler of both signals.  No signal arrives during a run. *)
Definition setup_signal_handlers : M unit :=
  syscall F_sigaction [SIGINT];;
  syscall F_sigaction [SIGTERM];;
  mret tt.

(** [global_config = ...] *)
Definition store_global_config (c : option config_t) : M unit := fun w =>
  Ok tt (set_global_config c w).

(** [main]; [argv] holds the [argc] arguments, the program name first.
    [global_config] is made to point to the [config] of [main] itself,
    which stays as [= {}] left it. *)
Definition main (argv : list string) (stdin : stdin_t)
    (loaded : option (option (list Z))) : M Z :=
  match argv with
  | [_; mode] | [_; mode; _] =>
    setup_signal_handlers;;
    store_global_config (Some config_zero);;
    match mode_of_string mode with
    | None => mret 1
    | Some rdma_mode =>
      result ←
        match argv !! 2%nat with
        | Some host =>
          result ← run_client host rdma_mode stdin loaded;
          when (negb (result =? 0))
            (emit (Stderr "Client operation failed with error code: %d" [result]));;
          mret result
        | None =>
          result ← run_server rdma_mode stdin;
          when (negb (result =? 0))
            (emit (Stderr "Server operation failed with error code: %d" [result]));;
          mret result
        end;
      store_global_config None;;
      mret result
    end
  | _ => mret 1
  end.

(** *** Sessions *)

(** Neither a posted work request nor a call of [socket]. *)
Definition no_session (e : event) : bool :=
  negb (is_post e) && negb (is_call F_socket e).

(** [m] posts no work request, and whenever it returns it has called
    [socket] exactly [n] times. *)
Definition opens_sockets {A} (n : nat) (m : M A) : Prop :=
  forall w, exists new,
    trace (final (m w)) = trace w ++ new
    /\ forallb no_post new = true
    /\ forall a w', m w = Ok a w' -> calls_to F_socket new = n.

(** A work request was posted. *)
Definition posted (t : list event) : Prop := existsb is_post t = true.

(** [m] opens no socket. *)
Definition keeps_session {A} (m : M A) : Prop :=
  emits_only (fun e => negb (is_call F_socket e)) m.

(** Whenever [m] has posted a work request, it has called [socket]
    exactly [n] times. *)
Definition posts_after_sockets {A} (n : nat) (m : M A) : Prop :=
  forall w, exists new,
    trace (final (m w)) = trace w ++ new
    /\ (posted new -> calls_to F_socket new = n).

(** A command line [main] accepts: one or two arguments, the first a known
    mode. *)
Definition usage_ok (argv : list string) : bool :=
  match argv with
  | [_; mode] | [_; mode; _] =>
    match mode_of_string mode with Some _ => true | None => false end
  | _ => false
  end.

(** One or two arguments. *)
Definition argc_ok (argv : list string) : bool :=
  match argv with
  | [_; _] | [_; _; _] => true
  | _ => false
  end.

(** The world once [main] has installed its handlers and set
    [global_config]: two calls of [sigaction] made and answered, and
    [global_config] pointing to a [config] that is all zero. *)
Definition handlers_installed (w : world) : world :=
  mk_world (heap w) (brk w) (fds w)
    (trace w ++ [Call F_sigaction [SIGINT] (hd 0 (rets w));
                 Call F_sigaction [SIGTERM] (hd 0 (tl (rets w)))])
    (tl (tl (rets w))) (port_gid w) (rx w) (cq_in w) (runs w) (junk w)
    (Some config_zero).

(** The line [main] prints on [stderr] for a failed run. *)
Definition failure_report (r : Z) (e : event) : Prop :=
  e = Stderr "Client operation failed with error code: %d" [r]
  \/ e = Stderr "Server operation failed with error code: %d" [r].

(** * Properties *)

(** ** Running the monad by hand *)

Lemma bind_Ok {A B} (m : M A) (f : A -> M B) w a w1 :
  m w = Ok a w1 -> (m ≫= f) w = f a w1.
Proof. intros E. unfold mbind, M_bind. now rewrite E. Qed.

Lemma bind_Ok_inv {A B} (m : M A) (f : A -> M B) w b w' :
  (m ≫= f) w = Ok b w' -> exists a w1, m w = Ok a w1 /\ f a w1 = Ok b w'.
Proof.
  unfold mbind, M_bind. destruct (m w) as [a w1| | |]; try discriminate.
  intros E. now exists a, w1.
Qed.

Lemma bind_Fault {A B} (m : M A) (f : A -> M B) w w1 :
  m w = Fault w1 -> (m ≫= f) w = Fault w1.
Proof. intros E. unfold mbind, M_bind. now rewrite E. Qed.

(** Unfolding the model down to matches on the world. *)
Ltac unfold_model :=
  unfold init_resources, unwind, cleanup_resources, cleanup_qp,
    die_with_cleanup, ibv_get_device_list, ibv_free_device_list,
    dev_list_first, ibv_open_device, ibv_alloc_pd, ibv_create_cq,
    ibv_create_qp, malloc, ibv_reg_mr, ibv_query_gid, ibv_destroy_qp,
    ibv_dereg_mr, free, ibv_destroy_cq, ibv_dealloc_pd, ibv_close_device,
    modify_qp_to_init, modify_qp_to_rtr, modify_qp_to_rts, ibv_modify_qp,
    exchange_qp_info, sock_write, sock_read, next_record, close,
    setup_socket, open_fd, note_open, syscall, sleep,
    post_lambda_send, post_lambda_write, post_lambda_receive,
    rd_post_read, rw_server_turn, post_operation, post_receive,
    wait_completion, poll_cq_until_one, ibv_post_send, ibv_post_recv,
    memcpy, load, deref, load_lkey, load_rkey, load_qp_num, error_log,
    invoke, next_run, receive_request, indeterminate,
    lib_alloc, lib_free, when, lookup_obj, release, store_obj, alloc, answer,
    die, emit, ask, fault, exit, blocked, truthy, NULL,
    set_heap, set_brk, set_fds, set_trace, set_rets, set_rx, set_cq_in,
    set_runs, set_junk, set_global_config, mbind, M_bind, mret, M_ret in *.

(** Deciding the test the run is stuck on from what is known. *)
Ltac decide_test :=
  match goal with
  | |- context [?a =? ?b] =>
    (rewrite (proj2 (Z.eqb_neq a b)) by lia)
    || (rewrite (proj2 (Z.eqb_eq a b)) by lia)
  | |- context [?a <? ?b] =>
    (rewrite (proj2 (Z.ltb_lt a b)) by lia)
    || (rewrite (proj2 (Z.ltb_ge a b)) by lia)
  | |- context [?a <=? ?b] =>
    (rewrite (proj2 (Z.leb_le a b)) by lia)
    || (rewrite (proj2 (Z.leb_gt a b)) by lia)
  | |- context [(<[?i := ?x]> ?m) !! ?j] =>
    (rewrite (lookup_insert_eq m i x))
    || (rewrite (lookup_insert_ne m i j x) by lia)
  | |- context [(delete ?i ?m) !! ?j] =>
    (rewrite (lookup_delete_eq m i))
    || (rewrite (lookup_delete_ne m i j) by lia)
  | H : ?m !! ?p = _ |- context [?m !! ?p] => rewrite H
  end.

Ltac run := repeat (cbn; decide_test); cbn.

(** Splitting the run on the innermost test it is stuck on. *)
Ltac split_test :=
  match goal with
  | |- context [match ?x with _ => _ end] =>
    lazymatch x with
    | context [match _ with _ => _ end] => fail
    | _ => destruct x eqn:?
    end
  end.

Ltac explore := repeat (cbn; try decide_test; try split_test); cbn.

(** Turning the boolean tests met on a path into facts. *)
Ltac know_tests :=
  repeat match goal with
         | H : negb _ = true |- _ => apply negb_true_iff in H
         | H : negb _ = false |- _ => apply negb_false_iff in H
         | H : _ && _ = true |- _ => apply andb_prop in H as [? ?]
         | H : (_ =? _) = true |- _ => apply Z.eqb_eq in H; subst
         | H : (_ =? _) = false |- _ => apply Z.eqb_neq in H
         | H : (_ <=? _) = true |- _ => apply Z.leb_le in H
         | H : (_ <=? _) = false |- _ => apply Z.leb_gt in H
         | H : (_ <? _) = true |- _ => apply Z.ltb_lt in H
         | H : (_ <? _) = false |- _ => apply Z.ltb_ge in H
         end.

(** The new part of a trace that was extended step by step. *)
Ltac new_events :=
  rewrite <- ?app_assoc;
  first [ eexists; split; [reflexivity|]
        | exists []; split; [now rewrite app_nil_r|] ].

(** Two heaps built by insertions and deletions over the same base agree. *)
Ltac heap_eq :=
  apply map_eq; intros ?;
  repeat (rewrite lookup_delete || rewrite lookup_insert);
  repeat case_decide; subst; try lia; try reflexivity;
  match goal with
  | H : forall p, _ <= p -> _ !! p = None |- _ => symmetry; apply H; lia
  end.

(** ** What a call may add to the trace *)

Section Emits.
Context (ok : event -> bool).

Lemma emits_only_silent {A} (m : M A) :
  (forall w, trace (final (m w)) = trace w) -> emits_only ok m.
Proof. intros H w. exists []. rewrite H, app_nil_r. now split. Qed.

Lemma emits_only_ret {A} (a : A) : emits_only ok (mret a).
Proof. now apply emits_only_silent. Qed.

Lemma emits_only_bind {A B} (m : M A) (f : A -> M B) :
  emits_only ok m -> (forall a, emits_only ok (f a)) ->
  emits_only ok (m ≫= f).
Proof.
  intros Hm Hf w. destruct (Hm w) as (n1 & E1 & F1).
  unfold mbind, M_bind. destruct (m w) as [a w1| | |] eqn:E; cbn in *;
    try (exists n1; now split).
  destruct (Hf a w1) as (n2 & E2 & F2).
  exists (n1 ++ n2). rewrite E2, E1, app_assoc. split; [reflexivity|].
  rewrite forallb_app, F1, F2. reflexivity.
Qed.

Lemma emits_only_emit e : ok e = true -> emits_only ok (emit e).
Proof. intros H w. exists [e]. cbn. now rewrite H. Qed.

Lemma emits_only_answer : emits_only ok answer.
Proof.
  apply emits_only_silent. intros w. unfold answer. now destruct (rets w).
Qed.

Lemma emits_only_ask {A} (f : world -> A) : emits_only ok (ask f).
Proof. now apply emits_only_silent. Qed.

Lemma emits_only_alloc o n : emits_only ok (alloc o n).
Proof. now apply emits_only_silent. Qed.

Lemma emits_only_lookup_obj p : emits_only ok (lookup_obj p).
Proof.
  apply emits_only_silent. intros w. unfold lookup_obj.
  now destruct (heap w !! p).
Qed.

Lemma emits_only_store_obj p o : emits_only ok (store_obj p o).
Proof. now apply emits_only_silent. Qed.

Lemma emits_only_release p : emits_only ok (release p).
Proof.
  apply emits_only_silent. intros w. unfold release.
  now destruct (heap w !! p).
Qed.

Lemma emits_only_fault {A} : emits_only ok (@fault A).
Proof. now apply emits_only_silent. Qed.

Lemma emits_only_exit {A} s : emits_only ok (@exit A s).
Proof. now apply emits_only_silent. Qed.

Lemma emits_only_blocked {A} : emits_only ok (@blocked A).
Proof. now apply emits_only_silent. Qed.

Lemma emits_only_note_open fd : emits_only ok (note_open fd).
Proof.
  apply emits_only_silent. intros w. unfold note_open.
  now destruct (0 <=? fd).
Qed.

Lemma emits_only_next_record : emits_only ok next_record.
Proof.
  apply emits_only_silent. intros w. unfold next_record.
  now destruct (rx w).
Qed.

Lemma emits_only_indeterminate n : emits_only ok (indeterminate n).
Proof. apply emits_only_silent. intros w. reflexivity. Qed.

Lemma emits_only_next_run : emits_only ok next_run.
Proof. apply emits_only_silent. intros w. reflexivity. Qed.

Lemma emits_only_store_global_config c :
  emits_only ok (store_global_config c).
Proof. now apply emits_only_silent. Qed.

Lemma emits_only_poll config :
  (forall c wc, ok (PollCq c wc) = true) ->
  emits_only ok (poll_cq_until_one config).
Proof.
  intros H w. unfold poll_cq_until_one. destruct (cq_in w) as [|wc rest].
  - exists []. cbn. now rewrite app_nil_r.
  - exists [PollCq (cq config) wc]. cbn. rewrite H. split; [|reflexivity].
    destruct (heap w !! buf config) as [[]|]; reflexivity.
Qed.

Lemma emits_only_close fd :
  (forall r, ok (Call F_close [fd] r) = true) -> emits_only ok (close fd).
Proof.
  intros H w. unfold close. destruct (bool_decide _).
  - exists [Call F_close [fd] 0]. cbn. now rewrite H.
  - exists [Call F_close [fd] (-1)]. cbn. now rewrite H.
Qed.
End Emits.

Ltac emits_step :=
  first
    [ apply emits_only_ret | apply emits_only_answer | apply emits_only_ask
    | apply emits_only_alloc | apply emits_only_lookup_obj
    | apply emits_only_store_obj | apply emits_only_release
    | apply emits_only_fault | apply emits_only_exit
    | apply emits_only_blocked
    | apply emits_only_note_open | apply emits_only_next_record
    | apply emits_only_indeterminate | apply emits_only_next_run
    | apply emits_only_store_global_config
    | apply emits_only_emit; reflexivity
    | apply emits_only_poll; reflexivity
    | apply emits_only_close; reflexivity
    | apply emits_only_bind; [|intros]
    | match goal with
      | |- emits_only _ (if ?b then _ else _) =>
        destruct b eqn:?; try discriminate
      | |- emits_only _ (match ?x with _ => _ end) =>
        destruct x eqn:?; try discriminate
      end
    | progress unfold post_lambda_receive, post_receive, wait_completion,
        load, memcpy, load_lkey, load_rkey, load_qp_num, ibv_post_recv,
        ibv_post_send, die, error_log, deref, open_fd, syscall, sleep,
        sock_write, sock_read, when, lib_alloc, lib_free ].

Ltac emits := repeat emits_step.

Lemma emits_only_invoke ok fn input input_size output :
  ok (Invoke fn input input_size output) = true ->
  emits_only ok (invoke fn input input_size output).
Proof.
  intros H. unfold invoke.
  apply emits_only_bind; [apply emits_only_next_run|intros run].
  apply emits_only_bind; [now apply emits_only_emit|intros _].
  emits.
Qed.

Lemma returns_only_bind {A B} (Q : B -> Prop) (m : M A) (f : A -> M B) :
  (forall a, returns_only Q (f a)) -> returns_only Q (m ≫= f).
Proof.
  intros H w b w' E. apply bind_Ok_inv in E as (a & w1 & _ & E).
  eapply H, E.
Qed.

Lemma returns_only_ret {A} (Q : A -> Prop) (a : A) :
  Q a -> returns_only Q (mret a).
Proof. intros H w a' w' E. inversion E; subst. exact H. Qed.

Ltac returns_step :=
  first
    [ apply returns_only_ret; reflexivity
    | apply returns_only_bind; intros
    | match goal with
      | |- returns_only _ (if ?b then _ else _) =>
        destruct b eqn:?; try discriminate
      | |- returns_only _ (match ?x with _ => _ end) =>
        destruct x eqn:?; try discriminate
      end ].

(** ** Teardown *)

(** Tearing down a context that was never populated does nothing. *)
Lemma cleanup_resources_zero w :
  cleanup_resources (Some config_zero) w = Ok (Some config_zero) w.
Proof. reflexivity. Qed.

Lemma cleanup_resources_null w : cleanup_resources None w = Ok None w.
Proof. reflexivity. Qed.

Lemma only_deletes_bind {A B} (m : M A) (f : A -> M B) :
  only_deletes m -> (forall a, only_deletes (f a)) -> only_deletes (m ≫= f).
Proof.
  intros Hm Hf w b w' p E Hp.
  apply bind_Ok_inv in E as (a & w1 & E1 & E2).
  eapply Hf; [exact E2|]. eapply Hm; eauto.
Qed.

Lemma only_deletes_ret {A} (a : A) : only_deletes (mret a).
Proof. intros w a' w' p E Hp. inversion E; subst. exact Hp. Qed.

Lemma only_deletes_lib_free f kind p : only_deletes (lib_free f kind p).
Proof.
  intros w a w' q E Hq. unfold_model.
  destruct (heap w !! p) as [o|] eqn:Ep; [|discriminate].
  destruct (kind o); [|discriminate].
  cbn in E. rewrite Ep in E. cbn in E. inversion E; subst; cbn.
  rewrite lookup_delete. case_decide; [reflexivity|exact Hq].
Qed.

Lemma only_deletes_when b (m : M unit) :
  only_deletes m -> only_deletes (when b m).
Proof. destruct b; [trivial|]. intros _. apply only_deletes_ret. Qed.

Lemma only_deletes_close fd : only_deletes (close fd).
Proof.
  intros w a w' q E Hq. unfold close in E.
  destruct (bool_decide _); inversion E; subst; exact Hq.
Qed.

(** After [ibv_dereg_mr] the memory region is gone. *)
Lemma lib_free_gone f kind p w a w' :
  lib_free f kind p w = Ok a w' -> heap w' !! p = None.
Proof.
  intros E. unfold_model.
  destruct (heap w !! p) as [o|] eqn:Ep; [|discriminate].
  destruct (kind o); [|discriminate].
  cbn in E. rewrite Ep in E. cbn in E. inversion E; subst; cbn.
  apply lookup_delete_eq.
Qed.

(** Whenever a context with a registered memory region has been torn down,
    tearing it down again hands the stale [mr] to [ibv_dereg_mr]. *)
Lemma second_cleanup_faults c w c' w' :
  cleanup_resources (Some c) w = Ok (Some c') w' ->
  mr c <> NULL ->
  cleanup_resources (Some c') w' = Fault w'.
Proof.
  intros E Hmr. unfold cleanup_resources in E.
  apply bind_Ok_inv in E as (c1 & w1 & E1 & E).
  assert (Hc1 : qp c1 = 0 /\ mr c1 = mr c).
  { unfold truthy in E1. destruct (qp c =? 0) eqn:Eq; cbn in E1.
    - inversion E1; subst. split; [lia|reflexivity].
    - unfold cleanup_qp, truthy in E1. rewrite Eq in E1. cbn in E1.
      apply bind_Ok_inv in E1 as (? & ? & _ & E1). inversion E1; subst.
      split; reflexivity. }
  destruct Hc1 as [Hqp Hmr1].
  apply bind_Ok_inv in E as ([] & w2 & E2 & E).
  assert (Hgone : heap w2 !! mr c = None).
  { unfold when, truthy in E2. rewrite Hmr1 in E2.
    rewrite (proj2 (Z.eqb_neq (mr c) 0)) in E2 by exact Hmr. cbn in E2.
    eapply lib_free_gone. exact E2. }
  assert (Hrest : heap w' !! mr c = None /\ c' = c1).
  { revert E Hgone. generalize w2 w'. clear. intros w2 w' E Hgone.
    apply bind_Ok_inv in E as ([] & w3 & E3 & E).
    apply bind_Ok_inv in E as ([] & w4 & E4 & E).
    apply bind_Ok_inv in E as ([] & w5 & E5 & E).
    apply bind_Ok_inv in E as ([] & w6 & E6 & E).
    apply bind_Ok_inv in E as ([] & w7 & E7 & E).
    inversion E; subst. split; [|reflexivity].
    pose proof (only_deletes_when _ _ (only_deletes_lib_free _ _ _)
                  _ _ _ (mr c) E3) as H3.
    pose proof (only_deletes_when _ _ (only_deletes_lib_free _ _ _)
                  _ _ _ (mr c) E4) as H4.
    pose proof (only_deletes_when _ _ (only_deletes_lib_free _ _ _)
                  _ _ _ (mr c) E5) as H5.
    pose proof (only_deletes_when _ _ (only_deletes_lib_free _ _ _)
                  _ _ _ (mr c) E6) as H6.
    assert (Hclose : only_deletes (close (sock_fd c') ;; mret ())).
    { apply only_deletes_bind; [apply only_deletes_close|].
      intros. apply only_deletes_ret. }
    pose proof (only_deletes_when _ _ Hclose _ _ _ (mr c) E7) as H7.
    exact (H7 (H6 (H5 (H4 (H3 Hgone))))). }
  destruct Hrest as [Hnone ->].
  unfold cleanup_resources, truthy. rewrite Hqp. cbn [Z.eqb negb].
  rewrite (bind_Ok _ _ w' c1 w') by reflexivity.
  rewrite Hmr1, (proj2 (Z.eqb_neq (mr c) 0)) by exact Hmr.
  unfold when, negb, ibv_dereg_mr, lib_free, lookup_obj, mbind, M_bind.
  rewrite Hnone. reflexivity.
Qed.

(** C1 (as the code has it).  A context that [init_resources] has fully
    populated is torn down without fault and leaves nothing live, but the
    second [cleanup_resources] on it faults: only [qp] was reset to [NULL],
    so the stale [mr] is deregistered again. *)
Theorem cleanup_resources_twice_faults :
  exists c1 w1 c2 w2 w3,
    init_resources (Some config_zero) MODE_SEND_RECV
                   (boot [1; 1; 1; 1; 1; 7; 1; 9; 0])
    = Ok (RDMA_SUCCESS, Some c1) w1
    /\ cleanup_resources (Some c1) w1 = Ok (Some c2) w2
    /\ heap w2 = ∅
    /\ qp c2 = NULL /\ mr c2 = mr c1 /\ mr c1 <> NULL
    /\ cleanup_resources (Some c2) w2 = Fault w3.
Proof.
  do 5 eexists.
  split; [vm_compute; reflexivity|].
  split; [vm_compute; reflexivity|].
  split; [vm_compute; reflexivity|].
  split; [reflexivity|].
  split; [reflexivity|].
  split; [discriminate|].
  vm_compute; reflexivity.
Qed.

(** ** Initialisation *)

(** C5.  Started on a zero-initialised context (as every caller does), when
    step [s] of [init_resources] is the first to fail the call returns the
    error of that step's class, the heap and the descriptors are what they
    were before the call (all that the earlier steps allocated has been
    given back), and no handle left in the context is live. *)
Theorem init_failure_unwinds (s : init_step) (mode : rdma_mode_t) (w : world) :
  sound w -> step_fails s (rets w) ->
  exists config' w',
    init_resources (Some config_zero) mode w
    = Ok (error_class s, Some config') w'
    /\ heap w' = heap w /\ fds w' = fds w
    /\ holds_nothing_live config' w'.
Proof.
  intros [Hb Hfresh] [Hpre Hat].
  destruct w as [h b f t r g x c u jk gc]; simpl in *.
  destruct s; simpl in *; unfold answer_at in *.
  all: repeat match goal with
       | H : forall k, (k < S ?n)%nat -> _ |- _ =>
         let H' := fresh in
         pose proof (H n ltac:(lia)) as H';
         assert (forall k, (k < n)%nat -> nth k r 0 <> 0)
           by (intros; apply H; lia);
         clear H
       | H : forall k, (k < 0)%nat -> _ |- _ => clear H
       end.
  all: repeat match goal with
       | H : nth _ ?r 0 <> 0 |- _ =>
         is_var r; destruct r; simpl in H; [congruence|]
       | H : context [nth _ (_ :: _) _] |- _ => simpl in H
       end.
  all: try match goal with
       | H : nth _ ?r 0 = 0 |- _ => is_var r; destruct r; simpl in H; subst
       end.
  all: unfold_model; unfold MAX_BUFFER_SIZE.
  all: run.
  all: eexists; eexists.
  all: split; [reflexivity|]; cbn.
  all: match goal with
       | |- ?h' = ?h0 /\ _ =>
         let E := fresh in
         assert (E : h' = h0) by (try reflexivity; heap_eq);
         split; [exact E|]; try rewrite E
       end.
  all: split; [reflexivity|]; unfold holds_nothing_live, handles; cbn.
  all: repeat match goal with |- Forall _ _ => constructor end.
  all: (left; reflexivity) || (right; apply Hfresh; lia).
Qed.

Lemma init_failure_unwinds_witness :
  exists config' w',
    init_resources (Some config_zero) MODE_WRITE (boot [1; 1; 1; 1; 1; 0])
    = Ok (RDMA_ERR_RESOURCE, Some config') w'
    /\ heap w' = ∅ /\ fds w' = ∅
    /\ holds_nothing_live config' w'.
Proof.
  apply (init_failure_unwinds QueuePair MODE_WRITE (boot [1; 1; 1; 1; 1; 0])).
  - split; [simpl; lia|]. intros p _. apply lookup_empty.
  - split; [|reflexivity].
    intros k Hk. simpl in Hk.
    do 5 (destruct k as [|k]; [unfold answer_at; simpl; lia|]). lia.
Defined.

(** ** Posting operations *)

(** C4 (as the code has it).  A [post_operation] whose length exceeds
    [MAX_BUFFER_SIZE] returns at once and leaves the world as it was:
    nothing copied into the buffer, no work request posted, nothing
    written to [stderr], no exit. *)
Theorem oversized_post_is_dropped config op data remote_info length w :
  MAX_BUFFER_SIZE < length ->
  post_operation config op data remote_info length w = Ok tt w.
Proof.
  intros H. unfold post_operation. destruct config; [|reflexivity].
  now rewrite (proj2 (Z.ltb_lt _ _) H).
Qed.

Lemma oversized_post_is_dropped_witness :
  post_operation (Some demo_config) OP_WRITE (Some (replicate 5000 65))
                 (Some demo_client) 5000 (demo_world [] [] [])
  = Ok tt (demo_world [] [] []).
Proof.
  apply (oversized_post_is_dropped (Some demo_config) OP_WRITE
           (Some (replicate 5000 65)) (Some demo_client) 5000
           (demo_world [] [] [])).
  unfold MAX_BUFFER_SIZE. lia.
Defined.

(** C4 as claimed fails: a send of 4097 bytes comes back like a successful
    call, and no failure is reported on any channel. *)
Lemma oversized_post_is_not_reported :
  let w := demo_world [] [] [] in
  let o := post_operation (Some demo_config) OP_SEND
                          (Some (replicate 4097 65)) None 4097 w in
  o = Ok tt w /\ ~ reported w o.
Proof.
  cbn zeta. split; [reflexivity|].
  intros [(s & w' & E & _)|(fmt & args & H)].
  - discriminate E.
  - vm_compute in H. exact H.
Qed.

(** A post of the full buffer only ever adds work requests of that length. *)
Lemma post_operation_full_length config op data remote_info :
  emits_only full_length
             (post_operation config op data remote_info MAX_BUFFER_SIZE).
Proof.
  intros w. destruct w as [h b f t r g rx c u jk gc].
  destruct config as [config|]; [|exists []; cbn; now rewrite app_nil_r].
  destruct op, data as [d|], remote_info as [ri|].
  all: unfold_model; unfold MAX_BUFFER_SIZE.
  all: explore.
  all: new_events; reflexivity.
Qed.

Lemma Ok_inj {A} (a a' : A) w w' : Ok a w = Ok a' w' -> a = a' /\ w = w'.
Proof. intros E. now inversion E. Qed.

(** What [post_operation] has done when it returns from a length that fits:
    one work request posted and accepted, the data (if any) copied to the
    start of the buffer before that, nothing else changed. *)
Lemma post_operation_returns config op data remote_info length w w' :
  length <= MAX_BUFFER_SIZE ->
  post_operation (Some config) op data remote_info length w = Ok tt w' ->
  exists lkey rk,
    heap w !! mr config = Some (OMr lkey rk)
    /\ exists wr heap',
      w' = mk_world heap' (brk w) (fds w)
             (trace w ++ [PostSend (qp config) wr 0])
             (tl (rets w)) (port_gid w) (rx w) (cq_in w) (runs w) (junk w) (global_config w)
      /\ wr_id wr = 0 /\ sg_addr wr = buf config
      /\ sg_length wr = length mod 2 ^ 32 /\ sg_lkey wr = lkey
      /\ match op with
         | OP_SEND => opcode wr = IBV_WR_SEND
         | OP_WRITE =>
           opcode wr = IBV_WR_RDMA_WRITE_WITH_IMM
           /\ imm_data wr = htonl length
           /\ exists ri, remote_info = Some ri
                /\ remote_addr wr = addr ri /\ wr_rkey wr = rkey ri
         | OP_READ =>
           opcode wr = IBV_WR_RDMA_READ
           /\ exists ri, remote_info = Some ri
                /\ remote_addr wr = addr ri /\ wr_rkey wr = rkey ri
         end
      /\ match op, data with
         | OP_READ, _ | _, None => heap' = heap w
         | _, Some d =>
           exists size old,
             heap w !! buf config = Some (OMem size old)
             /\ length <= size /\ length <= Z.of_nat (List.length d)
             /\ heap'
                = <[buf config :=
                      OMem size (overwrite (take (Z.to_nat length) d) old)]>
                    (heap w)
         end.
Proof.
  intros Hlen. destruct w as [h b f t r g x c u jk gc].
  match goal with |- _ -> ?G => set (concl := G) end.
  destruct op, data as [d|], remote_info as [ri|].
  all: unfold_model; unfold MAX_BUFFER_SIZE in *.
  all: rewrite (proj2 (Z.ltb_ge 4096 length)) by lia.
  all: cbn.
  all: destruct (h !! mr config) as [[| | | | |lk rk'|]|] eqn:Emr; cbn;
    try (intros E; discriminate E).
  all: try (destruct (h !! buf config) as [[| | | | | |size old]|] eqn:Ebuf; cbn;
    try (intros E; discriminate E);
    destruct (length <=? size) eqn:E1; cbn;
    try (intros E; discriminate E);
    destruct (length <=? Z.of_nat (List.length d)) eqn:E2; cbn;
    try (intros E; discriminate E)).
  all: rewrite ?lookup_insert; try case_decide; cbn;
    try (intros E; discriminate E).
  all: destruct (h !! qp config) as [[]|] eqn:Eqp; cbn;
    try (intros E; discriminate E).
  all: destruct r as [|r0 r]; cbn.
  all: try (destruct (r0 =? 0) eqn:E0; cbn;
            [apply Z.eqb_eq in E0; subst r0|intros E; discriminate E]).
  all: intros E; apply Ok_inj in E as [_ <-]; subst concl; cbn.
  all: exists lk, rk'; split; [exact Emr|].
  all: eexists; eexists; split; [reflexivity|]; cbn.
  all: repeat match goal with
       | |- _ /\ _ => split
       | |- exists _, _ => eexists
       | |- _ !! _ = _ => eassumption
       | |- _ = _ => reflexivity
       | |- _ <= _ => apply Z.leb_le; assumption
       end.
Qed.

(** When the library takes the request, [post_operation] returns. *)
Lemma post_operation_accepts c op data ri len w :
  len <= MAX_BUFFER_SIZE -> can_post c data len w ->
  (op <> OP_SEND -> ri <> None) ->
  exists w', post_operation (Some c) op data ri len w = Ok tt w'.
Proof.
  intros Hlen ((lk & rk & Hmr) & (num & st & Hqp) & (size & old & Hbuf & Hs)
               & Hd & Hr) Hri.
  destruct w as [h b f t r g x cq u jk gc]. cbn in Hmr, Hqp, Hbuf, Hr.
  assert (Hm : forall d, data = Some d ->
                         (len <=? Z.of_nat (length d)) = true)
    by (intros d Ed; apply Z.leb_le; eauto).
  assert (Hq : forall o, (<[buf c := OMem size o]> h) !! qp c
                         = Some (OQp num st)).
  { intros o. rewrite lookup_insert_ne; [exact Hqp|]. congruence. }
  assert (Ha : exists r', answer (mk_world h b f t r g x cq u jk gc)
                          = Ok 0 r' /\ trace r' = t).
  { unfold answer. cbn. destruct r as [|r0 r]; [eexists; now split|].
    cbn in Hr. subst r0. eexists. now split. }
  unfold MAX_BUFFER_SIZE in Hlen.
  destruct op, data as [d|], ri as [ri|]; try (exfalso; now apply Hri).
  all: unfold_model; unfold MAX_BUFFER_SIZE.
  all: rewrite (proj2 (Z.ltb_ge 4096 len)) by lia.
  all: cbn; rewrite Hmr; cbn; rewrite ?Hbuf; cbn.
  all: rewrite ?(proj2 (Z.leb_le len size)) by lia.
  all: rewrite ?(Hm d eq_refl); cbn; rewrite ?Hq, ?Hqp; cbn.
  all: destruct r as [|r0 r]; cbn in Hr |- *; subst; cbn; eexists;
    reflexivity.
Qed.

(** C10.  [post_lambda_send] and [post_lambda_write] post nothing but work
    requests over the full [MAX_BUFFER_SIZE] bytes, however the call ends,
    and each of the three wrappers returns [0] whenever it returns.  With
    a context that is not [NULL], a wrapper that returns has posted
    exactly one work request, of [MAX_BUFFER_SIZE] bytes from the start of
    the registered buffer, and the library has taken it; and the wrapper
    does return, with [0], whenever the library takes the request. *)
Theorem post_lambda_full_buffer config config' data remote_info :
  emits_only full_length (post_lambda_send config data)
  /\ emits_only full_length (post_lambda_write config data remote_info)
  /\ returns_only (fun r => r = 0) (post_lambda_send config data)
  /\ returns_only (fun r => r = 0) (post_lambda_receive config')
  /\ returns_only (fun r => r = 0) (post_lambda_write config data remote_info)
  /\ (forall c w r w',
        post_lambda_send (Some c) data w = Ok r w' ->
        exists wr,
          trace w' = trace w ++ [PostSend (qp c) wr 0]
          /\ opcode wr = IBV_WR_SEND
          /\ sg_addr wr = buf c /\ sg_length wr = MAX_BUFFER_SIZE)
  /\ (forall c w r w',
        post_lambda_write (Some c) data remote_info w = Ok r w' ->
        exists ri wr,
          remote_info = Some ri
          /\ trace w' = trace w ++ [PostSend (qp c) wr 0]
          /\ opcode wr = IBV_WR_RDMA_WRITE_WITH_IMM
          /\ sg_addr wr = buf c /\ sg_length wr = MAX_BUFFER_SIZE
          /\ imm_data wr = htonl MAX_BUFFER_SIZE
          /\ remote_addr wr = addr ri /\ wr_rkey wr = rkey ri)
  /\ (forall c w,
        can_post c data MAX_BUFFER_SIZE w ->
        (exists w', post_lambda_send (Some c) data w = Ok 0 w')
        /\ (forall ri, exists w',
              post_lambda_write (Some c) data (Some ri) w = Ok 0 w')).
Proof.
  split; [|split; [|split; [|split; [|split; [|split; [|split]]]]]].
  - apply emits_only_bind; [apply post_operation_full_length|].
    intros. apply emits_only_ret.
  - apply emits_only_bind; [apply post_operation_full_length|].
    intros. apply emits_only_ret.
  - unfold post_lambda_send. repeat returns_step.
  - unfold post_lambda_receive. repeat returns_step.
  - unfold post_lambda_write. repeat returns_step.
  - intros c w r w' E. unfold post_lambda_send in E.
    apply bind_Ok_inv in E as ([] & w1 & E1 & E).
    apply Ok_inj in E as [_ <-].
    apply post_operation_returns in E1; [|lia].
    destruct E1 as (lkey & rk & _ & wr & heap' & -> & _ & Ha & Hl & _ & Hop & _).
    exists wr. cbn. repeat split; try assumption.
  - intros c w r w' E. unfold post_lambda_write in E.
    apply bind_Ok_inv in E as ([] & w1 & E1 & E).
    apply Ok_inj in E as [_ <-].
    apply post_operation_returns in E1; [|lia].
    destruct E1 as (lkey & rk & _ & wr & heap' & -> & _ & Ha & Hl & _ & Hop & _).
    destruct Hop as (Hopc & Himm & ri & -> & Hra & Hrk).
    exists ri, wr. cbn. repeat split; try assumption.
  - intros c w Hc. split; [|intros ri].
    + destruct (post_operation_accepts c OP_SEND data None MAX_BUFFER_SIZE w)
        as [w' E]; [lia|exact Hc|congruence|].
      exists w'. unfold post_lambda_send. now rewrite (bind_Ok _ _ _ _ _ E).
    + destruct (post_operation_accepts c OP_WRITE data (Some ri)
                  MAX_BUFFER_SIZE w) as [w' E]; [lia|exact Hc|congruence|].
      exists w'. unfold post_lambda_write. now rewrite (bind_Ok _ _ _ _ _ E).
Qed.

(** On a connected session the write wrapper does return, with [0], after
    one work request over all 4096 bytes of the buffer. *)
Example post_lambda_write_demo :
  exists wr w',
    post_lambda_write (Some demo_config) (Some (replicate 4096 0))
                      (Some demo_client) (demo_world [] [] [])
    = Ok 0 w'
    /\ trace w' = [PostSend (qp demo_config) wr 0]
    /\ sg_length wr = 4096.
Proof.
  do 2 eexists. split; [vm_compute; reflexivity|].
  split; reflexivity.
Qed.

(** The connected session of the concrete runs is one on which the
    library takes a post of the full buffer. *)
Example can_post_demo :
  can_post demo_config (Some (replicate 4096 0)) MAX_BUFFER_SIZE
           (demo_world [] [] []).
Proof.
  unfold can_post, MAX_BUFFER_SIZE.
  split; [do 2 eexists; vm_compute; reflexivity|].
  split; [do 2 eexists; vm_compute; reflexivity|].
  split; [do 2 eexists; split; [vm_compute; reflexivity|lia]|].
  split; [|reflexivity].
  intros d [= <-]. apply Z.leb_le. vm_compute. reflexivity.
Qed.

(** Every read [rd_post_read] posts targets the offset address. *)
Lemma rd_post_read_targets config remote_offset length remote_info :
  emits_only (reads_from ((addr remote_info + remote_offset) mod 2 ^ 64))
             (rd_post_read config remote_offset length remote_info).
Proof.
  intros w. destruct w as [h b f t r g rx c u jk gc].
  destruct config as [config|]; [|exists []; cbn; now rewrite app_nil_r].
  unfold_model.
  explore.
  all: new_events; cbn; rewrite ?Z.eqb_refl; reflexivity.
Qed.

(** C9.  Whenever [rd_post_read] returns, the caller's [remote_info] is
    what it was before the call, [addr] included; the offset only shows in
    the read that was posted. *)
Theorem rd_post_read_restores_remote_info
    config remote_offset length remote_info w r w' :
  0 <= addr remote_info < 2 ^ 64 ->
  rd_post_read config remote_offset length remote_info w = Ok r w' ->
  r = remote_info
  /\ emits_only (reads_from ((addr remote_info + remote_offset) mod 2 ^ 64))
                (rd_post_read config remote_offset length remote_info).
Proof.
  intros Ha E. split; [|apply rd_post_read_targets].
  unfold rd_post_read in E.
  apply bind_Ok_inv in E as ([] & w1 & _ & E). inversion E; subst.
  destruct remote_info as [n g a k]. unfold set_addr; cbn in *. f_equal.
  rewrite Zminus_mod_idemp_l.
  replace (a + remote_offset - remote_offset) with a by lia.
  apply Z.mod_small. exact Ha.
Qed.

Lemma rd_post_read_restores_remote_info_witness :
  exists r w',
    rd_post_read (Some demo_config) 5 3 demo_client (demo_world [] [] [])
    = Ok r w'
    /\ r = demo_client
    /\ emits_only (reads_from ((addr demo_client + 5) mod 2 ^ 64))
                  (rd_post_read (Some demo_config) 5 3 demo_client).
Proof.
  do 2 eexists. split; [vm_compute; reflexivity|].
  eapply (rd_post_read_restores_remote_info (Some demo_config) 5 3 demo_client
            (demo_world [] [] [])).
  - cbn. lia.
  - vm_compute. reflexivity.
Defined.

(** ** Queue pair transitions *)

Lemma transitions_app t1 t2 :
  transitions (t1 ++ t2) = transitions t1 ++ transitions t2.
Proof.
  induction t1 as [|e t1 IH]; [reflexivity|].
  destruct e; cbn; rewrite ?IH; reflexivity.
Qed.

Lemma quiet_is_calm new :
  forallb quiet new = true -> forallb calm new = true /\ transitions new = [].
Proof.
  induction new as [|e new IH]; [now split|].
  cbn. unfold quiet at 1. intros H.
  apply andb_prop in H as [H1 H2]. apply andb_prop in H1 as [H1 H3].
  destruct (IH H2) as [IH1 IH2]. rewrite H1, IH1. split; [reflexivity|].
  destruct e; cbn in *; try discriminate; exact IH2.
Qed.

(** The three calls at the end of [connect_qps], over every way
    [ibv_modify_qp] can answer. *)
Lemma drives_three_transitions {A} q flags rqpn rgid (x : A) :
  drives (modify_qp_to_init q flags;;
          modify_qp_to_rtr q rqpn rgid;;
          modify_qp_to_rts q;;
          mret x).
Proof.
  intros w. destruct w as [h b f t r g rx c u jk gc]. unfold_model.
  explore.
  all: new_events; cbn.
  all: know_tests.
  all: split; [reflexivity|].
  all: try (intros ? ?; discriminate).
  all: repeat split; try reflexivity; try assumption; try lia.
  all: try solve [eexists; reflexivity].
  all: try solve [left; split; [reflexivity|]; do 2 eexists; reflexivity].
  all: try solve [right; split; [assumption|]; eexists; reflexivity].
Qed.

(** What runs before them neither posts, nor gives anything back, nor
    touches the queue pair state. *)
Lemma drives_after_quiet {A B} (m : M A) (f : A -> M B) :
  emits_only quiet m -> (forall a, drives (f a)) -> drives (m ≫= f).
Proof.
  intros Hm Hf w. destruct (Hm w) as (n1 & E1 & F1).
  apply quiet_is_calm in F1 as [C1 T1].
  unfold mbind, M_bind. destruct (m w) as [a w1| | |] eqn:E; cbn in *.
  - destruct (Hf a w1) as (n2 & E2 & C2 & H2).
    exists (n1 ++ n2). rewrite E2, E1, app_assoc. split; [reflexivity|].
    rewrite forallb_app, C1, C2, transitions_app, T1.
    split; [reflexivity|exact H2].
  - exists n1. rewrite T1. repeat split; try assumption.
    intros ? ?; discriminate.
  - exists n1. rewrite T1. repeat split; try assumption.
    intros ? ?; discriminate.
  - exists n1. rewrite T1. repeat split; try assumption.
    intros ? ?; discriminate.
Qed.

Lemma emits_only_connect_retry n fd : emits_only quiet (connect_retry n fd).
Proof. induction n; cbn [connect_retry]; emits. exact IHn. Qed.

Lemma emits_only_setup_socket config name :
  emits_only quiet (setup_socket config name).
Proof. unfold setup_socket. emits; apply emits_only_connect_retry. Qed.

Lemma emits_only_exchange config name info :
  emits_only quiet (exchange_qp_info config name info).
Proof. unfold exchange_qp_info. emits. Qed.


(** A client whose transitions all succeed, and a server whose second
    transition is refused. *)
Example connect_qps_demo_client :
  exists r w',
    connect_qps demo_config (Some "server") true MODE_WRITE
                (demo_world [3; 1; 0; 0; 0; 40; 40; 0; 0; 0] [] [])
    = Ok r w'
    /\ transitions (trace w')
       = [(IBV_QPS_INIT, 0); (IBV_QPS_RTR, 0); (IBV_QPS_RTS, 0)]
    /\ heap w' !! qp demo_config = Some (OQp 7 IBV_QPS_RTS).
Proof.
  do 2 eexists. split; [vm_compute; reflexivity|].
  split; vm_compute; reflexivity.
Qed.

Example connect_qps_demo_refused :
  exists w',
    connect_qps demo_config None true MODE_WRITE
                (demo_world [3; 0; 0; 0; 4; 40; 40; 0; 7; 0] [] [])
    = Exit 1 w'
    /\ transitions (trace w') = [(IBV_QPS_INIT, 0); (IBV_QPS_RTR, 7)]
    /\ last (trace w') = Some (Stderr "Failed to modify QP to RTR" [])
    /\ heap w' !! mr demo_config = Some (OMr 9 9).
Proof.
  eexists. split; [vm_compute; reflexivity|].
  repeat split; vm_compute; reflexivity.
Qed.

(** ** Initialisation followed by connection setup *)

Ltac emits_lib :=
  repeat first
    [ emits_step
    | progress unfold init_resources, unwind, cleanup_resources, cleanup_qp,
        ibv_get_device_list, ibv_free_device_list, dev_list_first,
        ibv_open_device, ibv_alloc_pd, ibv_create_cq, ibv_create_qp, malloc,
        ibv_reg_mr, ibv_query_gid, ibv_destroy_qp, ibv_dereg_mr, free,
        ibv_destroy_cq, ibv_dealloc_pd, ibv_close_device,
        modify_qp_to_init, modify_qp_to_rtr, modify_qp_to_rts, ibv_modify_qp,
        exchange_qp_info ].

Lemma connect_retry_posts_nothing n fd :
  emits_only no_post (connect_retry n fd).
Proof. induction n; cbn [connect_retry]; emits. exact IHn. Qed.

(** From the first library call to the last transition, connection setup
    posts no work request: the mode drivers get the queue pair only once
    [setup_rdma_connection] has returned. *)
Lemma setup_posts_nothing config server_name mode want_remote :
  emits_only no_post
             (setup_rdma_connection config server_name mode want_remote).
Proof.
  unfold setup_rdma_connection, connect_qps, setup_socket.
  emits_lib; apply connect_retry_posts_nothing.
Qed.

Lemma init_resources_no_transition config mode :
  emits_only (fun e => negb (is_modify e)) (init_resources config mode).
Proof. emits_lib. Qed.

Lemma no_transition new :
  forallb (fun e => negb (is_modify e)) new = true -> transitions new = [].
Proof.
  induction new as [|e new IH]; [reflexivity|].
  cbn. intros H. apply andb_prop in H as [H1 H2].
  destruct e; cbn in *; try discriminate; auto.
Qed.

Lemma drives_connect_qps config server_name want_remote mode :
  drives (connect_qps config server_name want_remote mode).
Proof.
  unfold connect_qps.
  apply drives_after_quiet; [emits|intros num].
  apply drives_after_quiet; [emits|intros rk].
  apply drives_after_quiet; [apply emits_only_setup_socket|intros config'].
  apply drives_after_quiet; [apply emits_only_exchange|intros remote].
  apply drives_three_transitions.
Qed.

(** Whenever [setup_rdma_connection] reports success, the queue pair has
    gone through exactly the three transitions, in order. *)
Lemma setup_success_is_connected config server_name mode want_remote
    w c ri w' :
  setup_rdma_connection config server_name mode want_remote w
  = Ok (RDMA_SUCCESS, c, ri) w' ->
  transitions (drop (length (trace w)) (trace w'))
  = [(IBV_QPS_INIT, 0); (IBV_QPS_RTR, 0); (IBV_QPS_RTS, 0)].
Proof.
  unfold setup_rdma_connection. intros E.
  apply bind_Ok_inv in E as ([status c0] & w1 & E1 & E).
  destruct (init_resources_no_transition (Some config) mode w)
    as (n1 & T1 & F1).
  rewrite E1 in T1. cbn in T1. apply no_transition in F1.
  destruct (bool_decide (status = RDMA_SUCCESS)) eqn:Es; cbn in E.
  2:{ apply bind_Ok_inv in E as (? & ? & _ & E). inversion E; subst.
      discriminate Es. }
  destruct c0 as [c0|]; [|discriminate E].
  apply bind_Ok_inv in E as ([c1 r1] & w2 & E2 & E).
  inversion E; subst; clear E.
  destruct (drives_connect_qps c0 server_name want_remote mode w1)
    as (n2 & T2 & _ & H2).
  rewrite E2 in T2, H2. cbn in T2.
  rewrite T2, T1, <- app_assoc, drop_app_length, transitions_app, F1.
  cbn [app]. unfold state_machine in H2.
  destruct (transitions n2) as [|[s1 r1'] [|[s2 r2] [|[s3 r3] [|]]]].
  - now destruct (H2 _ _ eq_refl).
  - destruct H2 as (_ & _ & ? & H2). discriminate H2.
  - destruct H2 as (_ & _ & _ & _ & ? & H2). discriminate H2.
  - destruct H2 as (-> & -> & -> & -> & -> & [[-> _]|[_ [? H2]]]);
      [reflexivity|discriminate H2].
  - destruct H2.
Qed.

(** ** Teardown after a successful initialisation *)

(** Started on a zero-initialised context with every step succeeding,
    [init_resources] hands out a context that [cleanup_resources] tears
    down completely, and that a second [cleanup_resources] faults on. *)
Lemma teardown_after_init (mode : rdma_mode_t) (w : world)
    (ok : list Z) (rest : list Z) :
  sound w ->
  length ok = 8%nat -> Forall (fun a => a <> 0) ok ->
  rets w = ok ++ 0 :: rest ->
  exists c w1 w2,
    init_resources (Some config_zero) mode w = Ok (RDMA_SUCCESS, Some c) w1
    /\ cleanup_resources (Some c) w1 = Ok (Some (set_qp NULL c)) w2
    /\ heap w2 = heap w
    /\ cleanup_resources (Some (set_qp NULL c)) w2 = Fault w2.
Proof.
  intros [Hb Hfresh] Hlen Hok Hrets.
  destruct w as [h b f t r g x c u jk gc]; simpl in *. subst r.
  do 8 (destruct ok as [|? ok]; [discriminate Hlen|]).
  destruct ok; [|discriminate Hlen]. clear Hlen.
  repeat match goal with
         | H : Forall _ (_ :: _) |- _ => inversion H; subst; clear H
         end.
  cbn [app].
  eexists; eexists; eexists.
  split; [unfold_model; unfold MAX_BUFFER_SIZE; run; reflexivity|].
  split; [unfold_model; unfold MAX_BUFFER_SIZE; run; reflexivity|].
  cbn. split; [heap_eq|].
  unfold_model; unfold MAX_BUFFER_SIZE; run. reflexivity.
Qed.

(** ** The handshake *)

(** C8.  [exchange_qp_info] does what the two-message protocol says, for
    either role and whatever the two transfers return: the client writes
    and then reads, the server reads and then writes, each transfer asks
    for [sizeof_qp_info_t] bytes, and a transfer of any other size closes
    the socket and ends the process through [die]. *)
Theorem exchange_is_two_messages config server_name local_info w :
  let o := exchange_qp_info config server_name local_info w in
  let first := answer_at 0 (rets w) in
  let second := answer_at 1 (rets w) in
  exists closed,
    let '(new, done) :=
      exchange_script (bool_decide (is_Some server_name)) (sock_fd config)
                      local_info first second closed in
    trace (final o) = trace w ++ new
    /\ if done then exists w', o = Ok (hd qp_info_zero (rx w)) w'
       else exists w', o = Exit 1 w'.
Proof.
  destruct w as [h b f t r g x c u jk gc].
  destruct server_name as [name|]; cbn [bool_decide]; unfold exchange_script.
  all: destruct r as [|r1 [|r2 r]]; unfold answer_at; cbn [nth rets].
  all: unfold_model; unfold sizeof_qp_info_t.
  all: explore.
  all: try discriminate.
  all: know_tests.
  all: try congruence.
  all: cbn in *; subst.
  all: try (exists 0; split;
            [rewrite <- ?app_assoc; reflexivity|eexists; reflexivity]).
  all: try (exists (-1); split;
            [rewrite <- ?app_assoc; reflexivity|eexists; reflexivity]).
Qed.

(** A short read on the client side. *)
Example exchange_short_read :
  exists w',
    exchange_qp_info (set_sock_fd 3 demo_config) (Some "server") demo_client
                     (set_fds {[ 3 ]} (demo_world [40; 12] [] []))
    = Exit 1 w'
    /\ trace w'
       = [SockWrite 3 demo_client 40 40; SockRead 3 40 12;
          Call F_close [3] 0; Stderr "Failed to receive remote QP info" []].
Proof. eexists. split; vm_compute; reflexivity. Qed.

(** ** Write with notification *)

Lemma ntohl_htonl x : 0 <= x < 2 ^ 32 -> ntohl (htonl x) = x.
Proof.
  intros H. unfold ntohl, htonl.
  rewrite (Z.mod_small x (2 ^ 32)) by exact H.
  set (b0 := x mod 256). set (b1 := x / 2 ^ 8 mod 256).
  set (b2 := x / 2 ^ 16 mod 256). set (b3 := x / 2 ^ 24 mod 256).
  assert (H0 : 0 <= b0 < 256) by (apply Z.mod_pos_bound; lia).
  assert (H1 : 0 <= b1 < 256) by (apply Z.mod_pos_bound; lia).
  assert (H2 : 0 <= b2 < 256) by (apply Z.mod_pos_bound; lia).
  assert (H3 : 0 <= b3 < 256) by (apply Z.mod_pos_bound; lia).
  assert (Hx : x = b0 + b1 * 2 ^ 8 + b2 * 2 ^ 16 + b3 * 2 ^ 24).
  { unfold b0, b1, b2, b3. change (2 ^ 8) with 256.
    change (2 ^ 16) with 65536. change (2 ^ 24) with 16777216.
    change (2 ^ 32) with 4294967296 in H.
    Z.div_mod_to_equations. lia. }
  clearbody b0 b1 b2 b3.
  change (2 ^ 8) with 256 in *. change (2 ^ 16) with 65536 in *.
  change (2 ^ 24) with 16777216 in *. change (2 ^ 32) with 4294967296 in *.
  Z.div_mod_to_equations. lia.
Qed.

Lemma bytes_at_prefix (m rest : list Z) :
  bytes_at (m ++ rest) 0 (Z.of_nat (length m)) = m.
Proof.
  unfold bytes_at. rewrite Nat2Z.id. change (Z.to_nat 0) with 0%nat.
  rewrite drop_0, <- app_assoc. apply take_app_length.
Qed.

Lemma bytes_at_whole (m rest : list Z) n :
  Z.of_nat (length m) <= n ->
  exists tail, bytes_at (m ++ rest) 0 n = m ++ tail.
Proof.
  intros H. unfold bytes_at. change (Z.to_nat 0) with 0%nat.
  rewrite drop_0, <- app_assoc, take_app_ge by lia. eauto.
Qed.

Lemma overwrite_whole (m data : list Z) n :
  n = length m -> overwrite (take n m) data = m ++ drop n data.
Proof. intros ->. unfold overwrite. rewrite firstn_all. reflexivity. Qed.

(** What a turn of the write server shows when the completion it polls
    brought [m] and the immediate value [imm]. *)
Lemma rw_server_turn_observes cp wp (m : list Z) imm rest d seen wp' :
  Z.of_nat (length m) <= MAX_BUFFER_SIZE ->
  cq_in wp = mk_wc IBV_WC_SUCCESS imm m :: rest ->
  heap wp !! buf cp = Some (OMem MAX_BUFFER_SIZE d) ->
  rw_server_turn cp wp = Ok seen wp' ->
  (exists tail, seen = Some (ntohl imm, cstring (m ++ tail)))
  /\ load (buf cp) 0 (Z.of_nat (length m)) wp' = Ok m wp'.
Proof.
  intros Hlen Hcq Hbuf E.
  destruct wp as [h b f t r g x c u jk gc]. cbn in Hcq, Hbuf. subst c.
  assert (Htake : take (Z.to_nat 4096) m = m).
  { apply take_ge. unfold MAX_BUFFER_SIZE in Hlen. lia. }
  revert E.
  match goal with |- _ -> ?G => set (concl := G) end.
  unfold_model. unfold MAX_BUFFER_SIZE in *.
  explore.
  all: intros E; try discriminate E; inversion E; subst seen wp'; clear E.
  all: subst concl; cbn.
  all: rewrite Htake in *.
  all: unfold overwrite in *.
  all: cbn in *.
  all: repeat match goal with
       | H : (<[?i := ?x]> ?m) !! ?i = Some _ |- _ =>
         rewrite lookup_insert_eq in H; inversion H; subst; clear H
       end.
  all: split;
    [destruct (bytes_at_whole m (drop (length m) d) 4096 Hlen) as [tail ->];
     eauto|].
  all: rewrite lookup_insert_eq; cbn.
  all: rewrite (proj2 (Z.leb_le _ _)) by lia; cbn.
  all: rewrite bytes_at_prefix; reflexivity.
Qed.


(** The peer of the run below: its buffer sits at the address the sender
    was given, and the completion is what the connection delivers. *)
Example write_roundtrip_demo :
  let m := [104; 105; 0] in
  let ri := mk_qp_info 7 0 (buf demo_config) 9 in
  exists wr ws' wc wp',
    post_operation (Some demo_config) OP_WRITE (Some m) (Some ri) 3
                   (demo_world [] [] []) = Ok tt ws'
    /\ trace ws' = [PostSend (qp demo_config) wr 0]
    /\ rc_deliver ws' wr (buf demo_config) = Some wc
    /\ rw_server_turn demo_config (demo_world [] [wc] [])
       = Ok (Some (3, [104; 105])) wp'
    /\ load (buf demo_config) 0 3 wp' = Ok m wp'.
Proof.
  cbn zeta. do 4 eexists.
  split; [vm_compute; reflexivity|].
  split; [reflexivity|].
  split; [vm_compute; reflexivity|].
  split; vm_compute; reflexivity.
Qed.


(** ** The lambda server *)

(** C3.  For metadata whose entry offset is not inside the code, serving
    the request never calls into the code region, however the receives
    go, and never completes the request: whenever it returns, it has left
    the loop body through [break]. *)
Theorem entry_offset_outside_code_is_never_called
    config server_regions meta client_info :
  code_size meta <= entry_offset meta ->
  emits_only no_invoke
             (lambda_server_request config server_regions meta client_info)
  /\ returns_only (fun c => c = Break)
       (lambda_server_request config server_regions meta client_info).
Proof.
  intros H. apply Z.leb_le in H. split.
  - unfold lambda_server_request. rewrite H. emits.
  - unfold lambda_server_request. rewrite H. repeat returns_step.
Qed.

Lemma entry_offset_outside_code_is_never_called_witness :
  emits_only no_invoke
             (lambda_server_request demo_config demo_regions entry_past_end
                                    demo_client)
  /\ returns_only (fun c => c = Break)
       (lambda_server_request demo_config demo_regions entry_past_end
                              demo_client).
Proof.
  apply (entry_offset_outside_code_is_never_called demo_config demo_regions
           entry_past_end demo_client).
  simpl. lia.
Defined.

(** The same request run through the loop: the code and the input are
    received, the offset is refused, nothing is called. *)
Example entry_past_end_demo :
  exists w',
    lambda_server_loop demo_config demo_regions
      (demo_world [] [arrival (request_header entry_past_end);
                      arrival [1; 2; 3]; arrival [97; 98; 99; 0]]
                  [mk_run 0 4 [65; 66; 67; 0]])
    = Ok tt w'
    /\ filter is_invoke (trace w') = []
    /\ last (trace w')
       = Some (Stderr "Invalid entry offset: %lu (code size: %zu)" [3; 3])
    /\ runs w' = [mk_run 0 4 [65; 66; 67; 0]].
Proof.
  eexists. split; [vm_compute; reflexivity|].
  repeat split; vm_compute; reflexivity.
Qed.

(** A well-formed request, for comparison: the code is called at
    [code_region + entry_offset] and, when it produces no output, the loop
    goes on to wait for the next request. *)
Example good_request_demo :
  exists w',
    lambda_server_loop demo_config demo_regions
      (demo_world [] good_request [mk_run 0 0 []])
    = Blocked w'
    /\ filter is_invoke (trace w')
       = [Invoke (code_region demo_regions + 1) (input_region demo_regions)
                 4 (output_region demo_regions)]
    /\ heap w' !! code_region demo_regions
       = Some (OMem LAMBDA_MAX_CODE_SIZE [1; 2; 3])
    /\ length (filter is_post (trace w')) = 5%nat.
Proof.
  eexists. split; [vm_compute; reflexivity|].
  repeat split; vm_compute; reflexivity.
Qed.

(** The same request with code that stores four bytes of output: the
    output region starts where the registered buffer ends, so the store
    is outside the buffer; the three receives are all that was posted. *)
Example output_outside_buffer_demo :
  exists w',
    lambda_server_loop demo_config demo_regions
      (demo_world [] good_request [mk_run 0 4 [65; 66; 67; 0]])
    = Fault w'
    /\ output_region demo_regions = buf demo_config + MAX_BUFFER_SIZE
    /\ last (trace w')
       = Some (Invoke (code_region demo_regions + 1)
                      (input_region demo_regions) 4
                      (output_region demo_regions))
    /\ length (filter is_post (trace w')) = 3%nat.
Proof.
  eexists. split; [vm_compute; reflexivity|].
  repeat split; vm_compute; reflexivity.
Qed.

Lemma consumes_bind {A B} (m : M A) (f : A -> M B) :
  consumes m -> (forall a, consumes (f a)) -> consumes (m ≫= f).
Proof.
  intros Hm Hf w b w' E. apply bind_Ok_inv in E as (a & w1 & E1 & E2).
  specialize (Hm _ _ _ E1). specialize (Hf _ _ _ _ E2). lia.
Qed.

Lemma consumes_keep {A} (m : M A) :
  (forall w a w', m w = Ok a w' -> cq_in w' = cq_in w) -> consumes m.
Proof. intros H w a w' E. rewrite (H _ _ _ E). lia. Qed.

Ltac keeps :=
  apply consumes_keep; intros [] ? ? E; cbn in E;
  repeat case_match; inversion E; subst; reflexivity.

Lemma consumes_ret {A} (a : A) : consumes (mret a).
Proof. keeps. Qed.
Lemma consumes_emit e : consumes (emit e).
Proof. keeps. Qed.
Lemma consumes_answer : consumes answer.
Proof. unfold answer. keeps. Qed.
Lemma consumes_lookup_obj p : consumes (lookup_obj p).
Proof. unfold lookup_obj. keeps. Qed.
Lemma consumes_store_obj p o : consumes (store_obj p o).
Proof. keeps. Qed.
Lemma consumes_fault {A} : consumes (@fault A).
Proof. keeps. Qed.
Lemma consumes_exit {A} s : consumes (@exit A s).
Proof. keeps. Qed.
Lemma consumes_indeterminate n : consumes (indeterminate n).
Proof. keeps. Qed.
Lemma consumes_next_run : consumes next_run.
Proof. keeps. Qed.

Lemma poll_consumes_one config w wc w' :
  poll_cq_until_one config w = Ok wc w' -> cq_in w = wc :: cq_in w'.
Proof.
  unfold poll_cq_until_one. destruct (cq_in w) as [|c rest]; [discriminate|].
  intros E. inversion E; subst. cbn.
  destruct (heap w !! buf config) as [[]|]; reflexivity.
Qed.

Lemma consumes_poll config : consumes (poll_cq_until_one config).
Proof.
  intros w a w' E. apply poll_consumes_one in E. rewrite E. cbn. lia.
Qed.

Ltac consumes_step :=
  first
    [ apply consumes_ret | apply consumes_emit | apply consumes_answer
    | apply consumes_lookup_obj | apply consumes_store_obj
    | apply consumes_fault | apply consumes_exit
    | apply consumes_indeterminate | apply consumes_next_run
    | apply consumes_poll
    | apply consumes_bind; [|intros]
    | match goal with
      | |- consumes (if ?b then _ else _) => destruct b
      | |- consumes (match ?x with _ => _ end) => destruct x
      end
    | progress unfold post_lambda_receive, post_lambda_write, post_operation,
        post_receive, wait_completion, load, memcpy, load_lkey, ibv_post_recv,
        ibv_post_send, die, error_log, deref, invoke ].

Lemma consumes_request config regions meta client :
  consumes (lambda_server_request config regions meta client).
Proof. unfold lambda_server_request. repeat consumes_step. Qed.

Lemma wait_completion_consumes_one config w w' :
  wait_completion config w = Ok tt w' ->
  (length (cq_in w') < length (cq_in w))%nat.
Proof.
  unfold wait_completion. intros E.
  apply bind_Ok_inv in E as (wc & w1 & E1 & E2).
  apply poll_consumes_one in E1. rewrite E1. cbn.
  assert (H : consumes
                (if negb (wc_status wc =? IBV_WC_SUCCESS)
                 then emit (Stderr "Completion error: %s" [wc_status wc]);;
                      @die unit "RDMA operation failed"
                 else mret ())) by repeat consumes_step.
  specialize (H _ _ _ E2). lia.
Qed.

(** A turn that goes round again has used up at least one completion. *)
Lemma turn_consumes config regions w w' :
  lambda_server_turn config regions w = Ok Continue w' ->
  (length (cq_in w') < length (cq_in w))%nat.
Proof.
  unfold lambda_server_turn. intros E.
  apply bind_Ok_inv in E as (r & w1 & E1 & E).
  assert (H1 : consumes (post_lambda_receive config))
    by repeat consumes_step.
  specialize (H1 _ _ _ E1).
  destruct (truthy r).
  { apply bind_Ok_inv in E as (? & ? & _ & E). inversion E. }
  apply bind_Ok_inv in E as ([meta client] & w2 & E2 & E).
  apply consumes_request in E.
  unfold receive_request in E2.
  apply bind_Ok_inv in E2 as ([] & w3 & E3 & E2).
  apply wait_completion_consumes_one in E3.
  assert (H2 : consumes
                 (meta ← load (buf config) 0 sizeof_lambda_metadata;
                  client ← load (buf config) sizeof_lambda_metadata
                                sizeof_qp_info_t;
                  mret (decode_lambda_metadata meta, decode_qp_info client)))
    by repeat consumes_step.
  specialize (H2 _ _ _ E2). lia.
Qed.

(** More turns than there are completions change nothing: the model of
    the loop never runs out of turns before the loop leaves or waits for
    ever. *)
Lemma lambda_server_turns_enough config regions n w :
  (length (cq_in w) < n)%nat ->
  lambda_server_turns n config regions w
  = lambda_server_loop config regions w.
Proof.
  unfold lambda_server_loop. revert w.
  induction n as [n IH] using lt_wf_ind. intros w Hn.
  destruct n as [|n]; [lia|]. cbn [lambda_server_turns].
  unfold mbind, M_bind.
  destruct (lambda_server_turn config regions w) as [[] w1| | |] eqn:E;
    try reflexivity.
  apply turn_consumes in E.
  rewrite (IH n) by lia.
  rewrite (IH (length (cq_in w))) by lia.
  reflexivity.
Qed.

(** C2 (as the code has it).  When the metadata just received has a zero
    or oversized [code_size], the loop logs the rejection and returns: the
    world is the one in which the metadata arrived plus the error line, so
    no code was copied, nothing was called and no further receive was
    posted. *)
Theorem invalid_code_size_ends_loop config regions meta client w w0 w1 :
  code_size meta = 0 \/ LAMBDA_MAX_CODE_SIZE < code_size meta ->
  post_lambda_receive config w = Ok 0 w0 ->
  receive_request config w0 = Ok (meta, client) w1 ->
  lambda_server_loop config regions w
  = Ok tt (set_trace
             (trace w1 ++ [Stderr "Invalid metadata received: code_size=%zu"
                                  [code_size meta]]) w1).
Proof.
  intros Hbad E0 E1.
  assert (Ht : (code_size meta =? 0)
               || (LAMBDA_MAX_CODE_SIZE <? code_size meta) = true).
  { apply orb_true_iff. destruct Hbad as [H|H]; [left; lia|right; lia]. }
  unfold lambda_server_loop. cbn [lambda_server_turns].
  rewrite (bind_Ok _ _ w Break
             (set_trace
                (trace w1 ++ [Stderr "Invalid metadata received: code_size=%zu"
                                     [code_size meta]]) w1));
    [reflexivity|].
  unfold lambda_server_turn.
  rewrite (bind_Ok _ _ _ _ _ E0). cbn [truthy Z.eqb negb].
  rewrite (bind_Ok _ _ _ _ _ E1).
  unfold lambda_server_request. rewrite Ht. reflexivity.
Qed.

Lemma invalid_code_size_ends_loop_witness :
  let w := demo_world [] (arrival (request_header empty_code) :: good_request)
                      [mk_run 0 4 [65; 66; 67; 0]] in
  let w0 := final (post_lambda_receive demo_config w) in
  let w1 := final (receive_request demo_config w0) in
  lambda_server_loop demo_config demo_regions w
  = Ok tt (set_trace
             (trace w1 ++ [Stderr "Invalid metadata received: code_size=%zu"
                                  [0]]) w1).
Proof.
  cbn zeta.
  eapply (invalid_code_size_ends_loop demo_config demo_regions
            (decode_lambda_metadata (request_header empty_code))
            (decode_qp_info (drop 152 (request_header empty_code)))).
  - left. vm_compute. reflexivity.
  - vm_compute. reflexivity.
  - vm_compute. reflexivity.
Defined.

(** C2 as claimed fails: after the request with [code_size = 0] the
    server does not stay in its loop.  The loop has returned; the
    well-formed request that follows is still waiting in the completion
    queue, and the one receive of the rejected request is all that was
    ever posted. *)
Lemma zero_code_size_stops_server :
  let o := lambda_server_loop demo_config demo_regions
             (demo_world [] (arrival (request_header empty_code)
                             :: good_request)
                         [mk_run 0 4 [65; 66; 67; 0]]) in
  ~ stays_in_loop o
  /\ exists w',
      o = Ok tt w'
      /\ cq_in w' = good_request
      /\ length (filter is_post (trace w')) = 1%nat
      /\ heap w' !! code_region demo_regions
         = Some (OMem LAMBDA_MAX_CODE_SIZE []).
Proof.
  cbn zeta.
  assert (E : exists w',
             lambda_server_loop demo_config demo_regions
               (demo_world [] (arrival (request_header empty_code)
                               :: good_request)
                           [mk_run 0 4 [65; 66; 67; 0]])
             = Ok tt w'
             /\ cq_in w' = good_request
             /\ length (filter is_post (trace w')) = 1%nat
             /\ heap w' !! code_region demo_regions
                = Some (OMem LAMBDA_MAX_CODE_SIZE [])).
  { eexists. split; [vm_compute; reflexivity|].
    repeat split; vm_compute; reflexivity. }
  split; [|exact E].
  destruct E as (w' & E & _). intros H. exact (H w' E).
Qed.

(** The whole server, from an empty process: resources, handshake and
    transitions, the code region, one request with [code_size = 0]; the
    loop is left, the session is torn down and [lambda_run_server] returns
    [0]. *)
Example lambda_run_server_demo :
  let w := mk_world ∅ 1 ∅ []
             [1; 1; 1; 1; 1; 7; 1; 9; 0;         (* init_resources *)
              3; 0; 0; 0; 4; 40; 40; 0; 0; 0;    (* connect_qps *)
              1; 1;                              (* setup_lambda_regions *)
              0]                                 (* ibv_post_recv *)
             0 [demo_client] [arrival (request_header empty_code)] []
             [] None in
  exists w',
    lambda_run_server w = Ok 0 w'
    /\ filter is_invoke (trace w') = []
    /\ length (filter is_post (trace w')) = 1%nat
    /\ filter is_rollback (trace w')
       = [Call F_ibv_destroy_qp [5] 0; Call F_ibv_dereg_mr [4102] 0;
          Call F_free [6] 0; Call F_ibv_destroy_cq [4] 0;
          Call F_ibv_dealloc_pd [3] 0; Call F_ibv_close_device [2] 0]
    /\ fds w' = ∅.
Proof.
  cbn zeta. eexists. split; [vm_compute; reflexivity|].
  repeat split; vm_compute; reflexivity.
Qed.

(** ** The example lambda *)

Lemma upcase_not_lower c : upcase c < 97 \/ 122 < upcase c.
Proof.
  unfold upcase. destruct (97 <=? c) eqn:E1; destruct (c <=? 122) eqn:E2; cbn; lia.
Qed.

Lemma upcase_idempotent c : upcase (upcase c) = upcase c.
Proof.
  unfold upcase. destruct (97 <=? c) eqn:E1; destruct (c <=? 122) eqn:E2; cbn;
    rewrite ?E1, ?E2; cbn; try reflexivity.
  rewrite (proj2 (Z.leb_gt _ _)) by lia. reflexivity.
Qed.

Lemma upcase_nonzero c : c <> 0 -> upcase c <> 0.
Proof.
  unfold upcase. destruct (97 <=? c) eqn:E1; destruct (c <=? 122) eqn:E2; cbn; lia.
Qed.

Lemma cstring_nonzero s : Forall (fun c => c <> 0) (cstring s).
Proof.
  induction s as [|c s IH]; cbn; [constructor|].
  destruct (c =? 0) eqn:E; [constructor|]. constructor; [lia|exact IH].
Qed.

Lemma cstring_terminated t rest :
  Forall (fun c => c <> 0) t -> cstring (t ++ 0 :: rest) = t.
Proof.
  induction 1 as [|c t Hc _ IH]; [reflexivity|].
  cbn. rewrite (proj2 (Z.eqb_neq c 0)) by exact Hc. now rewrite IH.
Qed.

Lemma strlen_terminated t rest :
  Forall (fun c => c <> 0) t ->
  strlen (t ++ 0 :: rest) = Some (Z.of_nat (length t)).
Proof.
  induction 1 as [|c t Hc _ IH]; [reflexivity|].
  cbn [app strlen length]. rewrite (proj2 (Z.eqb_neq c 0)) by exact Hc.
  rewrite IH. cbn. f_equal. lia.
Qed.

(** The loop converts the text in front of the first terminator, cut at
    [remaining] bytes, whenever the input object holds a terminator or at
    least [remaining] bytes. *)
Lemma process_loop_text input k :
  (k <= length input)%nat \/ is_Some (strlen input) ->
  process_loop input k = Some (map upcase (take k (cstring input))).
Proof.
  revert input. induction k as [|k IH]; intros input H;
    [now rewrite take_0|].
  destruct input as [|c rest].
  - destruct H as [H|[? H]]; [cbn in H; lia|discriminate H].
  - cbn [process_loop cstring]. destruct (c =? 0) eqn:E; [reflexivity|].
    rewrite IH.
    + reflexivity.
    + destruct H as [H|[n H]]; [left; cbn in H; lia|right].
      cbn in H. rewrite E in H. destruct (strlen rest); [eauto|discriminate H].
Qed.

Lemma process_loop_some input k out :
  process_loop input k = Some out ->
  out = map upcase (take k (cstring input)).
Proof.
  revert input out. induction k as [|k IH]; intros input out H.
  - cbn in H. inversion H. now rewrite take_0.
  - destruct input as [|c rest]; [discriminate H|].
    cbn [process_loop cstring] in *. destruct (c =? 0); [now inversion H|].
    destruct (process_loop rest k) as [o|] eqn:E; [|discriminate H].
    cbn in H. inversion H. now rewrite (IH _ _ E).
Qed.

(** X1.  [process_data] returns [0] and stores the upper-case form of the
    input text (the bytes in front of the first terminator, at most
    [input_size] of them) followed by a terminator; [*output_size] counts
    the terminator.  It does so whenever the input object holds a
    terminator or at least [input_size] bytes. *)
Theorem process_data_uppercases input input_size :
  input_size <= Z.of_nat (length input) \/ is_Some (strlen input) ->
  let text := take (Z.to_nat input_size) (cstring input) in
  process_data input input_size
  = Some (0, Z.of_nat (length text) + 1, map upcase text ++ [0]).
Proof.
  intros H text. unfold process_data.
  rewrite process_loop_text by (destruct H; [left; lia|now right]).
  cbn. now rewrite length_map.
Qed.

Lemma process_data_uppercases_witness :
  process_data [97; 98; 45; 67; 0; 100] 6 = Some (0, 5, [65; 66; 45; 67; 0]).
Proof.
  apply (process_data_uppercases [97; 98; 45; 67; 0; 100] 6).
  left. simpl. lia.
Defined.

(** X2.  Whatever [process_data] stores is a C string of [*output_size - 1]
    characters with no lower-case letter in it, and [*output_size] is at
    most [input_size + 1]: the terminator is stored one byte past the
    [input_size] bytes when the input holds no terminator. *)
Theorem process_data_output_is_a_string input input_size r size out :
  0 <= input_size ->
  process_data input input_size = Some (r, size, out) ->
  r = 0
  /\ 1 <= size <= input_size + 1
  /\ Z.of_nat (length out) = size
  /\ strlen out = Some (size - 1)
  /\ Forall (fun c => c < 97 \/ 122 < c) out.
Proof.
  intros Hn H. unfold process_data in H.
  destruct (process_loop input (Z.to_nat input_size)) as [o|] eqn:E;
    [|discriminate H].
  cbn in H. inversion H; subst; clear H.
  apply process_loop_some in E. subst o.
  set (text := take (Z.to_nat input_size) (cstring input)).
  assert (Hlen : (length text <= Z.to_nat input_size)%nat)
    by (unfold text; rewrite length_take; lia).
  assert (Hnz : Forall (fun c => c <> 0) (map upcase text)).
  { apply Forall_map. unfold text. apply Forall_take.
    eapply Forall_impl; [apply cstring_nonzero|].
    intros c Hc. now apply upcase_nonzero. }
  rewrite length_app, !length_map. cbn [length].
  repeat split; try lia.
  - rewrite strlen_terminated by exact Hnz. rewrite length_map. f_equal. lia.
  - apply Forall_app. split.
    + apply Forall_map, Forall_forall. intros c _. apply upcase_not_lower.
    + constructor; [lia|constructor].
Qed.

Lemma process_data_output_is_a_string_witness :
  0 = 0
  /\ 1 <= 4 <= 3 + 1
  /\ Z.of_nat (length [65; 66; 67; 0]) = 4
  /\ strlen [65; 66; 67; 0] = Some (4 - 1)
  /\ Forall (fun c => c < 97 \/ 122 < c) [65; 66; 67; 0].
Proof.
  apply (process_data_output_is_a_string [97; 98; 99] 3 0 4 [65; 66; 67; 0]).
  - lia.
  - reflexivity.
Defined.

(** X3.  Running [process_data] on its own output, with the size it
    reported, gives that output and that size again. *)
Theorem process_data_idempotent input input_size r size out :
  process_data input input_size = Some (r, size, out) ->
  process_data out size = Some (r, size, out).
Proof.
  intros H. unfold process_data in H.
  destruct (process_loop input (Z.to_nat input_size)) as [o|] eqn:E;
    [|discriminate H].
  cbn in H. inversion H; subst; clear H.
  apply process_loop_some in E. subst o.
  set (text := take (Z.to_nat input_size) (cstring input)).
  assert (Hnz : Forall (fun c => c <> 0) (map upcase text)).
  { apply Forall_map. unfold text. apply Forall_take.
    eapply Forall_impl; [apply cstring_nonzero|].
    intros c Hc. now apply upcase_nonzero. }
  unfold process_data. rewrite process_loop_text.
  2:{ left. rewrite length_app. cbn. lia. }
  rewrite cstring_terminated by exact Hnz.
  rewrite take_ge by lia.
  rewrite map_map, (map_ext _ upcase) by (intros; apply upcase_idempotent).
  cbn. now rewrite !length_map.
Qed.

Lemma process_data_idempotent_witness :
  process_data [72; 73; 0] 3 = Some (0, 3, [72; 73; 0]).
Proof.
  apply (process_data_idempotent [104; 105; 0; 7] 4 0 3 [72; 73; 0]).
  reflexivity.
Defined.

(** ** The lambda wire format *)

Lemma length_le_encode n x : length (le_encode n x) = n.
Proof. revert x. induction n as [|n IH]; intros x; cbn; [|rewrite IH]; reflexivity. Qed.

Lemma le_decode_encode n x :
  0 <= x < 256 ^ Z.of_nat n -> le_decode (le_encode n x) = x.
Proof.
  revert x. induction n as [|n IH]; intros x H.
  - cbn in *. lia.
  - cbn [le_encode le_decode]. rewrite IH.
    + pose proof (Z.div_mod x 256). lia.
    + rewrite Nat2Z.inj_succ, Z.pow_succ_r in H by lia.
      split; [apply Z.div_pos; lia|].
      apply Z.div_lt_upper_bound; lia.
Qed.

Lemma length_bytes_at data off n : length (bytes_at data off n) = Z.to_nat n.
Proof.
  unfold bytes_at. rewrite length_take, length_app, length_replicate. lia.
Qed.

(** Reading past a prefix of known length. *)
Lemma bytes_at_skip (a b : list Z) off n :
  off = Z.of_nat (length a) -> bytes_at (a ++ b) off n = bytes_at b 0 n.
Proof.
  intros ->. unfold bytes_at. rewrite Nat2Z.id, drop_app_length.
  reflexivity.
Qed.

Lemma bytes_at_exact (a b : list Z) n :
  n = Z.of_nat (length a) -> bytes_at (a ++ b) 0 n = a.
Proof. intros ->. apply bytes_at_prefix. Qed.

Lemma bytes_at_exact_end (a : list Z) n :
  n = Z.of_nat (length a) -> bytes_at a 0 n = a.
Proof.
  intros H. rewrite <- (app_nil_r a) at 1. now apply bytes_at_exact.
Qed.

(** Reading inside a prefix. *)
Lemma bytes_at_inside (a b : list Z) off n :
  0 <= off -> 0 <= n -> off + n <= Z.of_nat (length a) ->
  bytes_at (a ++ b) off n = bytes_at a off n.
Proof.
  intros Ho Hn H. unfold bytes_at.
  rewrite drop_app_le by lia. rewrite <- app_assoc.
  rewrite !take_app_le by (rewrite length_drop; lia). reflexivity.
Qed.

Lemma decode_encode_lambda_metadata m :
  0 <= code_size m < 2 ^ 64 -> 0 <= input_size m < 2 ^ 64 ->
  0 <= entry_offset m < 2 ^ 64 ->
  decode_lambda_metadata (encode_lambda_metadata m)
  = mk_metadata (bytes_at (function_name m) 0 LAMBDA_MAX_FUNCTION_NAME)
                (code_size m) (input_size m) (entry_offset m).
Proof.
  intros Hc Hi He. unfold decode_lambda_metadata, encode_lambda_metadata.
  set (F := bytes_at (function_name m) 0 LAMBDA_MAX_FUNCTION_NAME).
  assert (HF : length F = 128%nat) by (unfold F; now rewrite length_bytes_at).
  f_equal.
  - apply bytes_at_exact. now rewrite HF.
  - rewrite bytes_at_skip by now rewrite HF.
    rewrite bytes_at_exact by now rewrite length_le_encode.
    now apply le_decode_encode.
  - rewrite (app_assoc F), bytes_at_skip
      by now rewrite length_app, HF, length_le_encode.
    rewrite bytes_at_exact by now rewrite length_le_encode.
    now apply le_decode_encode.
  - rewrite (app_assoc F), (app_assoc (F ++ _)), bytes_at_skip
      by now rewrite !length_app, HF, !length_le_encode.
    rewrite bytes_at_exact_end by now rewrite length_le_encode.
    now apply le_decode_encode.
Qed.

Lemma decode_encode_qp_info q :
  0 <= qp_num q < 2 ^ 32 -> 0 <= qi_gid q < 2 ^ 128 ->
  0 <= addr q < 2 ^ 64 -> 0 <= rkey q < 2 ^ 32 ->
  decode_qp_info (encode_qp_info q) = q.
Proof.
  intros Hn Hg Ha Hk. destruct q as [n g a k]; cbn in Hn, Hg, Ha, Hk.
  unfold decode_qp_info, encode_qp_info; cbn [qp_num qi_gid addr rkey].
  set (N := le_encode 4 n). set (G := le_encode 16 g).
  set (A := le_encode 8 a). set (K := le_encode 4 k).
  assert (HN : length N = 4%nat) by apply length_le_encode.
  assert (HG : length G = 16%nat) by apply length_le_encode.
  assert (HA : length A = 8%nat) by apply length_le_encode.
  assert (HK : length K = 4%nat) by apply length_le_encode.
  f_equal.
  - rewrite bytes_at_exact by now rewrite HN. now apply le_decode_encode.
  - rewrite (app_assoc N), bytes_at_skip by now rewrite length_app, HN.
    rewrite bytes_at_exact by now rewrite HG. now apply le_decode_encode.
  - rewrite (app_assoc N), (app_assoc (N ++ _)), bytes_at_skip
      by now rewrite !length_app, HN, HG.
    rewrite bytes_at_exact by now rewrite HA. now apply le_decode_encode.
  - rewrite (app_assoc N), (app_assoc (N ++ _)), (app_assoc ((N ++ _) ++ _)),
      bytes_at_skip by now rewrite !length_app, HN, HG, HA.
    rewrite bytes_at_exact by now rewrite HK. now apply le_decode_encode.
Qed.

(** ** What the posting and waiting calls leave behind when they return *)

Lemma post_receive_returns config w w' :
  post_receive config w = Ok tt w' ->
  exists lkey,
    w' = mk_world (heap w) (brk w) (fds w)
           (trace w ++ [PostRecv (qp config)
                          (mk_recv_wr 0 (buf config) MAX_BUFFER_SIZE lkey 1) 0])
           (tl (rets w)) (port_gid w) (rx w) (cq_in w) (runs w) (junk w) (global_config w).
Proof.
  destruct w as [h b f t r g x c u jk gc]. unfold_model. cbn.
  destruct (h !! mr config) as [[]|]; cbn; try discriminate.
  destruct (h !! qp config) as [[]|]; cbn; try discriminate.
  destruct r as [|r0 r]; cbn.
  - intros E. inversion E. eauto.
  - destruct (r0 =? 0) eqn:E0; cbn; [|discriminate].
    apply Z.eqb_eq in E0. subst r0. intros E. inversion E. eauto.
Qed.

(** The buffer after the adapter has placed [arrived] in it. *)
Lemma wait_completion_returns config w w' :
  wait_completion config w = Ok tt w' ->
  exists wc rest,
    cq_in w = wc :: rest /\ wc_status wc = IBV_WC_SUCCESS
    /\ w' = mk_world
              (match heap w !! buf config with
               | Some (OMem size data) =>
                 <[buf config :=
                     OMem size (overwrite (take (Z.to_nat size) (wc_arrived wc)) data)]>
                   (heap w)
               | _ => heap w
               end)
              (brk w) (fds w) (trace w ++ [PollCq (cq config) wc])
              (rets w) (port_gid w) (rx w) rest (runs w) (junk w) (global_config w).
Proof.
  destruct w as [h b f t r g x c u jk gc]. unfold_model. cbn.
  destruct c as [|wc rest]; [discriminate|]. cbn.
  destruct (wc_status wc =? IBV_WC_SUCCESS) eqn:Es; cbn; [|discriminate].
  apply Z.eqb_eq in Es. intros E. inversion E.
  exists wc, rest. repeat split; try assumption.
  destruct (h !! buf config) as [[]|]; reflexivity.
Qed.

Lemma wait_completion_on_arrival config h b f t r g x bytes rest u jk gc
    size data :
  h !! buf config = Some (OMem size data) ->
  wait_completion config (mk_world h b f t r g x (arrival bytes :: rest) u jk gc)
  = Ok tt (mk_world
             (<[buf config :=
                  OMem size (overwrite (take (Z.to_nat size) bytes) data)]> h)
             b f (t ++ [PollCq (cq config) (arrival bytes)]) r g x rest u jk gc).
Proof. intros H. unfold_model. cbn. rewrite H. reflexivity. Qed.

(** Bytes of a message that arrived, read back out of the buffer. *)
Lemma bytes_at_arrived (m tail d : list Z) size off n :
  Z.of_nat (length m) <= size -> 0 <= off -> 0 <= n ->
  off + n <= Z.of_nat (length m) ->
  bytes_at (overwrite (take (Z.to_nat size) (m ++ tail)) d) off n
  = bytes_at m off n.
Proof.
  intros Hs Ho Hn H. unfold overwrite.
  rewrite take_app_ge by lia. rewrite <- app_assoc.
  now apply bytes_at_inside.
Qed.

Lemma length_encode_lambda_metadata m :
  length (encode_lambda_metadata m) = 152%nat.
Proof.
  unfold encode_lambda_metadata.
  now rewrite !length_app, length_bytes_at, !length_le_encode.
Qed.

Lemma length_encode_qp_info q : length (encode_qp_info q) = 40%nat.
Proof.
  unfold encode_qp_info. now rewrite !length_app, !length_le_encode.
Qed.

Lemma load_ok p off n w size data :
  heap w !! p = Some (OMem size data) -> 0 <= off -> off + n <= size ->
  load p off n w = Ok (bytes_at data off n) w.
Proof.
  intros H Ho Hn. unfold load, lookup_obj, mbind, M_bind. rewrite H.
  rewrite (proj2 (Z.leb_le 0 off)), (proj2 (Z.leb_le (off + n) size)) by lia.
  reflexivity.
Qed.

Lemma bytes_at_lookup (d : list Z) off n i :
  (i < Z.to_nat n)%nat ->
  bytes_at d off n !! i = Some (nth (Z.to_nat off + i) d 0).
Proof.
  intros Hi. unfold bytes_at. rewrite lookup_take_lt by exact Hi.
  destruct (decide (i < length (drop (Z.to_nat off) d))%nat) as [Hl|Hl].
  - rewrite lookup_app_l by exact Hl. rewrite lookup_drop.
    rewrite length_drop in Hl.
    destruct (d !! (Z.to_nat off + i)%nat) as [x|] eqn:E.
    + now rewrite (nth_lookup_Some _ _ 0 _ E).
    + apply lookup_ge_None in E. lia.
  - rewrite lookup_app_r by lia. rewrite length_drop in *.
    rewrite lookup_replicate_2 by lia.
    now rewrite nth_overflow by lia.
Qed.

Lemma bytes_at_bytes_at (d : list Z) off n size :
  0 <= off -> 0 <= n -> off + n <= size ->
  bytes_at (bytes_at d 0 size) off n = bytes_at d off n.
Proof.
  intros Ho Hn H. apply list_eq_same_length with (Z.to_nat n);
    try apply length_bytes_at.
  intros i x y Hi Hx Hy.
  rewrite bytes_at_lookup in Hx, Hy by exact Hi.
  inversion Hx; inversion Hy; subst.
  destruct (bytes_at d 0 size !! (Z.to_nat off + i)%nat) as [z|] eqn:E.
  - rewrite (nth_lookup_Some _ _ 0 _ E).
    rewrite bytes_at_lookup in E by lia. inversion E. reflexivity.
  - apply lookup_ge_None in E. rewrite length_bytes_at in E. lia.
Qed.

Lemma le_decode_encode_mod n x :
  le_decode (le_encode n x) = x mod 256 ^ Z.of_nat n.
Proof.
  revert x. induction n as [|n IH]; intros x.
  - cbn. now rewrite Z.mod_1_r.
  - cbn [le_encode le_decode]. rewrite IH.
    rewrite Nat2Z.inj_succ, Z.pow_succ_r by lia.
    rewrite Z.rem_mul_r by lia. reflexivity.
Qed.

Lemma to_int_of_int r :
  - 2 ^ 31 <= r < 2 ^ 31 -> to_int (r mod 2 ^ 32) = r.
Proof.
  intros H. unfold to_int.
  change (2 ^ 31) with 2147483648 in *. change (2 ^ 32) with 4294967296.
  destruct (r mod 4294967296 <? 2147483648) eqn:E.
  - apply Z.ltb_lt in E. Z.div_mod_to_equations. lia.
  - apply Z.ltb_ge in E. Z.div_mod_to_equations. lia.
Qed.

(** The three fields of a result message, read back. *)
Lemma result_message_fields r s (out : list Z) :
  Z.of_nat (length out) = s ->
  bytes_at (result_message r s out) 0 4 = le_encode 4 r
  /\ bytes_at (result_message r s out) 4 8 = le_encode 8 s
  /\ bytes_at (result_message r s out) 12 s = out.
Proof.
  intros Hs. unfold result_message. split; [|split].
  - now rewrite bytes_at_exact by now rewrite length_le_encode.
  - rewrite bytes_at_skip by now rewrite length_le_encode.
    now rewrite bytes_at_exact by now rewrite length_le_encode.
  - rewrite app_assoc.
    rewrite bytes_at_skip by now rewrite length_app, !length_le_encode.
    now apply bytes_at_exact_end.
Qed.

Lemma length_result_message r s (out : list Z) :
  Z.of_nat (length (result_message r s out)) = 12 + Z.of_nat (length out).
Proof.
  unfold result_message. rewrite !length_app, !length_le_encode. lia.
Qed.

Lemma bytes_at_arrived_whole (m d : list Z) size off n :
  Z.of_nat (length m) <= size -> 0 <= off -> 0 <= n ->
  off + n <= Z.of_nat (length m) ->
  bytes_at (overwrite (take (Z.to_nat size) m) d) off n = bytes_at m off n.
Proof.
  intros. rewrite <- (app_nil_r m) at 1. now apply bytes_at_arrived.
Qed.

(** What [receive_result] hands to the caller when the message that
    arrives starts with a result message. *)
Lemma receive_result_reads config cap r s (out tail d : list Z) rest w res w' :
  - 2 ^ 31 <= r < 2 ^ 31 ->
  Z.of_nat (length out) = s -> s <= MAX_BUFFER_SIZE - 12 ->
  heap w !! buf config = Some (OMem MAX_BUFFER_SIZE d) ->
  cq_in w = arrival (result_message r s out ++ tail) :: rest ->
  receive_result config cap w = Ok res w' ->
  res = (r, s, out).
Proof.
  intros Hr Hlen Hs Hbuf Hcq E.
  destruct (result_message_fields r s out Hlen) as (F1 & F2 & F3).
  pose proof (length_result_message r s out) as HL.
  unfold receive_result in E.
  apply bind_Ok_inv in E as ([] & w0 & E0 & E).
  apply post_receive_returns in E0 as [lkey ->].
  rewrite Hcq in E.
  erewrite bind_Ok in E by (apply wait_completion_on_arrival; exact Hbuf).
  unfold MAX_BUFFER_SIZE in *.
  erewrite bind_Ok in E
    by (eapply load_ok; [apply lookup_insert_eq|lia|lia]).
  erewrite bind_Ok in E
    by (eapply load_ok; [apply lookup_insert_eq|lia|lia]).
  rewrite !bytes_at_arrived in E by lia.
  rewrite F1, F2 in E.
  rewrite (le_decode_encode 8 s) in E by lia.
  erewrite bind_Ok in E
    by (eapply load_ok; [apply lookup_insert_eq|lia|lia]).
  rewrite bytes_at_arrived in E by lia.
  change (4 + 8) with 12 in E. rewrite F3 in E.
  destruct (cap <? s); [discriminate E|].
  apply Ok_inj in E as [<- _]. rewrite le_decode_encode_mod.
  change (256 ^ Z.of_nat 4) with (2 ^ 32). now rewrite to_int_of_int.
Qed.

Lemma memcpy_returns dst src n w w' :
  memcpy dst src n w = Ok tt w' ->
  exists size old,
    heap w !! dst = Some (OMem size old)
    /\ n <= size /\ n <= Z.of_nat (length src)
    /\ w' = set_heap (<[dst := OMem size (overwrite (take (Z.to_nat n) src) old)]>
                        (heap w)) w.
Proof.
  unfold memcpy, lookup_obj, store_obj, fault, mbind, M_bind.
  destruct (heap w !! dst) as [[| | | | | |size old]|]; try discriminate.
  destruct (n <=? size) eqn:E1; [|discriminate].
  destruct (n <=? Z.of_nat (length src)) eqn:E2; [|discriminate].
  cbn. intros E. apply Ok_inj in E as [_ <-].
  exists size, old. repeat split; try (apply Z.leb_le; assumption).
Qed.

Lemma load_returns p off n w bs w' :
  load p off n w = Ok bs w' ->
  w' = w
  /\ exists size data,
      heap w !! p = Some (OMem size data)
      /\ 0 <= off /\ off + n <= size /\ bs = bytes_at data off n.
Proof.
  unfold load, lookup_obj, fault, mbind, M_bind.
  destruct (heap w !! p) as [[| | | | | |size data]|]; try discriminate.
  destruct (0 <=? off) eqn:E1; [|discriminate].
  destruct (off + n <=? size) eqn:E2; [|discriminate].
  cbn. intros E. apply Ok_inj in E as [<- <-].
  split; [reflexivity|]. exists size, data.
  repeat split; try (apply Z.leb_le; assumption).
Qed.

Lemma load_qp_num_returns q w n w' :
  load_qp_num q w = Ok n w' -> w' = w.
Proof.
  unfold load_qp_num, lookup_obj, fault, mbind, M_bind.
  destruct (heap w !! q) as [[]|]; try discriminate.
  intros E. now apply Ok_inj in E as [_ <-].
Qed.

Lemma load_rkey_returns m w k w' :
  load_rkey m w = Ok k w' -> w' = w.
Proof.
  unfold load_rkey, lookup_obj, fault, mbind, M_bind.
  destruct (heap w !! m) as [[]|]; try discriminate.
  intros E. now apply Ok_inj in E as [_ <-].
Qed.

(** The work request by which the lambda client sends its buffer: a write
    with immediate of the whole buffer to the peer's base address.  The
    bytes of the buffer are what they were. *)
Lemma post_buffer_returns config remote_info w w' :
  post_buffer config remote_info w = Ok tt w' ->
  exists ri wr size old,
    remote_info = Some ri
    /\ heap w !! buf config = Some (OMem size old)
    /\ MAX_BUFFER_SIZE <= size
    /\ w' = set_heap
              (<[buf config :=
                   OMem size (overwrite (bytes_at old 0 MAX_BUFFER_SIZE) old)]>
                 (heap w))
              (set_rets (tl (rets w))
                 (set_trace (trace w ++ [PostSend (qp config) wr 0]) w))
    /\ whole_buffer_write config ri wr.
Proof.
  unfold post_buffer. intros E.
  apply bind_Ok_inv in E as (data & w0 & E0 & E).
  apply load_returns in E0 as [-> (size & old & Hbuf & _ & Hs & ->)].
  apply bind_Ok_inv in E as (z & w1 & E1 & E).
  apply Ok_inj in E as [_ <-].
  unfold post_lambda_write in E1.
  apply bind_Ok_inv in E1 as ([] & w2 & E2 & E1).
  apply Ok_inj in E1 as [_ <-].
  apply post_operation_returns in E2; [|lia].
  destruct E2 as (lkey & rk & _ & wr & heap' & -> & _ & Ha & Hl & _ & Hop & Hh).
  destruct Hop as (Hopc & Himm & ri & -> & Hra & Hrk).
  destruct Hh as (size' & old' & Hbuf' & _ & _ & ->).
  rewrite Hbuf in Hbuf'. inversion Hbuf'; subst size' old'.
  exists ri, wr, size, old.
  split; [reflexivity|]. split; [exact Hbuf|]. split; [lia|].
  split.
  - unfold set_heap, set_rets, set_trace. cbn. f_equal. f_equal. f_equal.
    f_equal. apply take_ge. rewrite length_bytes_at. lia.
  - repeat split; assumption.
Qed.

(** Copying the buffer onto itself changes none of its bytes. *)
Lemma bytes_at_normalised (old : list Z) M off n :
  bytes_at (overwrite (bytes_at old 0 M) old) off n = bytes_at old off n.
Proof.
  apply list_eq_same_length with (Z.to_nat n); try apply length_bytes_at.
  intros i x y Hi Hx Hy.
  rewrite bytes_at_lookup in Hx, Hy by exact Hi.
  inversion Hx; inversion Hy; subst. clear Hx Hy.
  rewrite !nth_lookup. unfold overwrite. rewrite length_bytes_at.
  set (k := (Z.to_nat off + i)%nat).
  destruct (decide (k < Z.to_nat M)%nat) as [Hk|Hk].
  - rewrite lookup_app_l by (rewrite length_bytes_at; exact Hk).
    rewrite bytes_at_lookup by exact Hk. cbn. now rewrite nth_lookup.
  - rewrite lookup_app_r by (rewrite length_bytes_at; lia).
    rewrite length_bytes_at, lookup_drop. f_equal. f_equal. lia.
Qed.

(** What the buffer holds after [post_buffer]. *)
Lemma post_buffer_keeps config remote_info w w' size old off n :
  post_buffer config remote_info w = Ok tt w' ->
  heap w !! buf config = Some (OMem size old) ->
  0 <= off -> off + n <= size ->
  load (buf config) off n w' = Ok (bytes_at old off n) w'.
Proof.
  intros E Hbuf Ho H.
  apply post_buffer_returns in E
    as (ri & wr & size' & old' & _ & Hbuf' & Hs & -> & _).
  rewrite Hbuf in Hbuf'. inversion Hbuf'; subst size' old'.
  erewrite load_ok; [|apply lookup_insert_eq|lia|lia].
  f_equal. apply bytes_at_normalised.
Qed.

Lemma bytes_at_front (a b : list Z) n :
  length a = Z.to_nat n -> bytes_at (a ++ b) 0 n = a.
Proof.
  intros H. unfold bytes_at. change (Z.to_nat 0) with 0%nat.
  rewrite drop_0, <- app_assoc, <- H. apply take_app_length.
Qed.

(** The bytes a [memcpy] put into the buffer are what [post_buffer]
    posts. *)
Lemma post_buffer_after_memcpy config remote_info (src : list Z) n w0 w w' :
  memcpy (buf config) src n w0 = Ok tt w ->
  post_buffer config remote_info w = Ok tt w' ->
  load (buf config) 0 n w' = Ok (take (Z.to_nat n) src) w'.
Proof.
  intros E0 E.
  apply memcpy_returns in E0 as (size & old & _ & Hs & Hl & ->).
  erewrite post_buffer_keeps;
    [|exact E|apply lookup_insert_eq|lia|lia].
  f_equal. apply bytes_at_front. rewrite length_take. lia.
Qed.

Lemma load_qp_num_inv q w n w' :
  load_qp_num q w = Ok n w' ->
  w' = w /\ exists state, heap w !! q = Some (OQp n state).
Proof.
  unfold load_qp_num, lookup_obj, fault, mbind, M_bind.
  destruct (heap w !! q) as [[]|]; try discriminate.
  intros E. apply Ok_inj in E as [<- <-]. eauto.
Qed.

Lemma load_rkey_inv m w k w' :
  load_rkey m w = Ok k w' ->
  w' = w /\ exists lkey, heap w !! m = Some (OMr lkey k).
Proof.
  unfold load_rkey, lookup_obj, fault, mbind, M_bind.
  destruct (heap w !! m) as [[]|]; try discriminate.
  intros E. apply Ok_inj in E as [<- <-]. eauto.
Qed.

(** [put_metadata] leaves [combined_meta], with the client's own queue
    pair number, buffer address and key, at the start of the buffer. *)
Lemma put_metadata_returns config func_name code_size input_size w w' :
  put_metadata config func_name code_size input_size w = Ok tt w' ->
  exists num state lkey rk size old,
    heap w !! qp config = Some (OQp num state)
    /\ heap w !! mr config = Some (OMr lkey rk)
    /\ trace w' = trace w
    /\ heap w' !! buf config
       = Some (OMem size
                 (overwrite
                    (combined_meta func_name code_size input_size
                       (mk_qp_info num (gid config) (buf config) rk))
                    old)).
Proof.
  unfold put_metadata. intros E.
  apply bind_Ok_inv in E as ([] & w1 & E1 & E).
  apply memcpy_returns in E1 as (s1 & o1 & _ & _ & _ & ->).
  apply bind_Ok_inv in E as ([] & w2 & E2 & E).
  apply memcpy_returns in E2 as (s2 & o2 & _ & _ & _ & ->).
  apply bind_Ok_inv in E as (num & w3 & E3 & E).
  apply load_qp_num_inv in E3 as [-> [state Hq]].
  apply bind_Ok_inv in E as (rk & w4 & E4 & E).
  apply load_rkey_inv in E4 as [-> [lkey Hm]].
  apply memcpy_returns in E as (s3 & o3 & _ & _ & Hl & ->).
  cbn in Hq, Hm.
  rewrite !lookup_insert in Hq, Hm.
  repeat case_decide; try discriminate.
  exists num, state, lkey, rk, s3, o3.
  split; [exact Hq|]. split; [exact Hm|]. split; [reflexivity|].
  cbn. rewrite lookup_insert_eq. do 3 f_equal.
  apply take_ge. unfold combined_meta.
  rewrite length_app, length_encode_lambda_metadata, length_encode_qp_info.
  unfold sizeof_lambda_metadata, sizeof_qp_info_t. lia.
Qed.

Lemma send_buffer_returns config remote_info w w' :
  send_buffer config remote_info w = Ok tt w' ->
  exists ri wr wc,
    remote_info = Some ri
    /\ trace w' = trace w ++ [PostSend (qp config) wr 0; PollCq (cq config) wc]
    /\ whole_buffer_write config ri wr
    /\ wc_status wc = IBV_WC_SUCCESS.
Proof.
  unfold send_buffer. intros E.
  apply bind_Ok_inv in E as ([] & w0 & E0 & E).
  apply post_buffer_returns in E0
    as (ri & wr & size & old & -> & _ & _ & -> & W).
  apply wait_completion_returns in E as (wc & rest & _ & Hs & ->).
  exists ri, wr, wc. cbn. rewrite <- app_assoc.
  repeat split; try assumption; apply W.
Qed.

Lemma receive_result_returns config cap w res w' :
  receive_result config cap w = Ok res w' ->
  exists rwr wc,
    trace w' = trace w ++ [PostRecv (qp config) rwr 0; PollCq (cq config) wc]
    /\ rsg_addr rwr = buf config /\ rsg_length rwr = MAX_BUFFER_SIZE
    /\ wc_status wc = IBV_WC_SUCCESS.
Proof.
  unfold receive_result. intros E.
  apply bind_Ok_inv in E as ([] & w0 & E0 & E).
  apply post_receive_returns in E0 as [lkey ->].
  apply bind_Ok_inv in E as ([] & w1 & E1 & E).
  apply wait_completion_returns in E1 as (wc & rest & _ & Hs & ->).
  apply bind_Ok_inv in E as (r & w2 & E2 & E).
  apply load_returns in E2 as [-> _].
  apply bind_Ok_inv in E as (s & w3 & E3 & E).
  apply load_returns in E3 as [-> _].
  apply bind_Ok_inv in E as (out & w4 & E4 & E).
  apply load_returns in E4 as [-> _].
  destruct (cap <? le_decode s); [discriminate E|].
  apply Ok_inj in E as [_ <-].
  do 2 eexists. cbn. rewrite <- app_assoc.
  repeat split; try reflexivity; assumption.
Qed.

(** X4.  A call of [execute_lambda] whose library or symbol cannot be
    loaded returns [-1] after one line on [stderr] and nothing else.  A
    call that gets through has sent the buffer three times, each time as
    one write with immediate of all [MAX_BUFFER_SIZE] bytes to the base
    address of the server's buffer, and each time it has waited for the
    completion before it touched the buffer again.  When the first write
    is posted the buffer starts with the metadata and the client's own
    record, when the second is posted with the [get_function_size] bytes
    at the function's address, when the third is posted with the
    [input_size] bytes of the input.  Then it has posted one receive and
    waited for the server's answer; it has posted nothing else. *)
Theorem execute_lambda_protocol config func_name input input_size
    output_capacity remote_info w :
  (exists w', execute_lambda config None func_name input input_size
                output_capacity remote_info w = Ok (-1, None) w'
              /\ trace w' = trace w ++ [Stderr "dlopen error: %s" []])
  /\ (exists w', execute_lambda config (Some None) func_name input input_size
                   output_capacity remote_info w = Ok (-1, None) w'
                 /\ trace w' = trace w ++ [Stderr "dlsym error: %s" []])
  /\ forall func res w',
      execute_lambda config (Some (Some func)) func_name input input_size
                     output_capacity remote_info w = Ok res w' ->
      exists ri num state lkey rk wa wb wc wr1 wr2 wr3 rwr c1 c2 c3 c4,
        remote_info = Some ri
        /\ heap w !! qp config = Some (OQp num state)
        /\ heap w !! mr config = Some (OMr lkey rk)
        (* the first write: the metadata and the client's record *)
        /\ (put_metadata config func_name (get_function_size 0) input_size;;
            post_buffer config remote_info) w = Ok tt wa
        /\ trace wa = trace w ++ [PostSend (qp config) wr1 0]
        /\ load (buf config) 0 (sizeof_lambda_metadata + sizeof_qp_info_t) wa
           = Ok (combined_meta func_name (get_function_size 0) input_size
                   (mk_qp_info num (gid config) (buf config) rk)) wa
        (* the second write: the code *)
        /\ (wait_completion config;;
            memcpy (buf config) func (get_function_size 0);;
            post_buffer config remote_info) wa = Ok tt wb
        /\ trace wb = trace wa ++ [PollCq (cq config) c1;
                                   PostSend (qp config) wr2 0]
        /\ load (buf config) 0 (get_function_size 0) wb
           = Ok (take (Z.to_nat (get_function_size 0)) func) wb
        (* the third write: the input *)
        /\ (wait_completion config;;
            memcpy (buf config) input input_size;;
            post_buffer config remote_info) wb = Ok tt wc
        /\ trace wc = trace wb ++ [PollCq (cq config) c2;
                                   PostSend (qp config) wr3 0]
        /\ load (buf config) 0 input_size wc
           = Ok (take (Z.to_nat input_size) input) wc
        (* the answer *)
        /\ (exists result size out,
              res = (result, Some (size, out))
              /\ (wait_completion config;;
                  receive_result config output_capacity) wc
                 = Ok (result, size, out) w')
        /\ trace w' = trace wc ++ [PollCq (cq config) c3;
                                   PostRecv (qp config) rwr 0;
                                   PollCq (cq config) c4]
        /\ Forall (whole_buffer_write config ri) [wr1; wr2; wr3]
        /\ rsg_addr rwr = buf config /\ rsg_length rwr = MAX_BUFFER_SIZE
        /\ Forall (fun c => wc_status c = IBV_WC_SUCCESS) [c1; c2; c3; c4].
Proof.
  split; [eexists; split; reflexivity|].
  split; [eexists; split; reflexivity|].
  intros func res w' E. unfold execute_lambda in E. cbn zeta in E.
  apply bind_Ok_inv in E as ([] & w1 & E1 & E).
  apply bind_Ok_inv in E as ([] & w2 & E2 & E).
  unfold send_buffer in E2.
  apply bind_Ok_inv in E2 as ([] & wa & Ea & Ewa).
  apply bind_Ok_inv in E as ([] & w3 & E3 & E).
  apply bind_Ok_inv in E as ([] & w4 & E4 & E).
  unfold send_buffer in E4.
  apply bind_Ok_inv in E4 as ([] & wb & Eb & Ewb).
  apply bind_Ok_inv in E as ([] & w5 & E5 & E).
  apply bind_Ok_inv in E as ([] & w6 & E6 & E).
  unfold send_buffer in E6.
  apply bind_Ok_inv in E6 as ([] & wc & Ec & Ewc).
  apply bind_Ok_inv in E as ([[result size] out] & w7 & E7 & E).
  apply Ok_inj in E as [<- <-].
  (* what the buffer holds at the three posts *)
  pose proof (post_buffer_after_memcpy _ _ _ _ _ _ _ E3 Eb) as B2.
  pose proof (post_buffer_after_memcpy _ _ _ _ _ _ _ E5 Ec) as B3.
  destruct (put_metadata_returns _ _ _ _ _ _ E1)
    as (num & state & lkey & rk & size1 & old1 & Hq & Hm & T0 & Hb1).
  assert (B1 : load (buf config) 0 (sizeof_lambda_metadata + sizeof_qp_info_t)
                    wa
               = Ok (combined_meta func_name (get_function_size 0) input_size
                       (mk_qp_info num (gid config) (buf config) rk)) wa).
  { assert (Hs1 : MAX_BUFFER_SIZE <= size1).
    { destruct (post_buffer_returns _ _ _ _ Ea)
        as (? & ? & sz & ol & _ & Hb & Hs & _).
      rewrite Hb1 in Hb. inversion Hb; subst. exact Hs. }
    erewrite post_buffer_keeps; [|exact Ea|exact Hb1|lia|].
    2:{ unfold sizeof_lambda_metadata, sizeof_qp_info_t, MAX_BUFFER_SIZE in *.
        lia. }
    f_equal. apply bytes_at_front. unfold combined_meta.
    now rewrite length_app, length_encode_lambda_metadata,
      length_encode_qp_info. }
  (* the stages *)
  assert (S1 : (put_metadata config func_name (get_function_size 0) input_size;;
                post_buffer config remote_info) w = Ok tt wa)
    by (rewrite (bind_Ok _ _ _ _ _ E1); exact Ea).
  assert (S2 : (wait_completion config;;
                memcpy (buf config) func (get_function_size 0);;
                post_buffer config remote_info) wa = Ok tt wb)
    by (rewrite (bind_Ok _ _ _ _ _ Ewa), (bind_Ok _ _ _ _ _ E3); exact Eb).
  assert (S3 : (wait_completion config;;
                memcpy (buf config) input input_size;;
                post_buffer config remote_info) wb = Ok tt wc)
    by (rewrite (bind_Ok _ _ _ _ _ Ewb), (bind_Ok _ _ _ _ _ E5); exact Ec).
  assert (S4 : (wait_completion config;;
                receive_result config output_capacity) wc
               = Ok (result, size, out) w7)
    by (rewrite (bind_Ok _ _ _ _ _ Ewc); exact E7).
  (* the events *)
  destruct (post_buffer_returns _ _ _ _ Ea)
    as (ri & wr1 & ? & ? & -> & _ & _ & Hwa & W1).
  destruct (post_buffer_returns _ _ _ _ Eb)
    as (ri' & wr2 & ? & ? & Hri & _ & _ & Hwb & W2).
  apply (inj Some) in Hri as <-.
  destruct (post_buffer_returns _ _ _ _ Ec)
    as (ri' & wr3 & ? & ? & Hri & _ & _ & Hwc & W3).
  apply (inj Some) in Hri as <-.
  destruct (wait_completion_returns _ _ _ Ewa) as (c1 & ? & _ & C1 & Hw2).
  destruct (wait_completion_returns _ _ _ Ewb) as (c2 & ? & _ & C2 & Hw4).
  destruct (wait_completion_returns _ _ _ Ewc) as (c3 & ? & _ & C3 & Hw6).
  destruct (memcpy_returns _ _ _ _ _ E3) as (? & ? & _ & _ & _ & Hw3).
  destruct (memcpy_returns _ _ _ _ _ E5) as (? & ? & _ & _ & _ & Hw5).
  destruct (receive_result_returns _ _ _ _ _ E7)
    as (rwr & c4 & T4 & Ra & Rl & C4).
  exists ri, num, state, lkey, rk, wa, wb, wc, wr1, wr2, wr3, rwr,
    c1, c2, c3, c4.
  split; [reflexivity|]. split; [exact Hq|]. split; [exact Hm|].
  split; [exact S1|].
  split; [rewrite Hwa; cbn; now rewrite T0|].
  split; [exact B1|].
  split; [exact S2|].
  split; [rewrite Hwb, Hw3, Hw2; cbn; now rewrite <- app_assoc|].
  split; [exact B2|].
  split; [exact S3|].
  split; [rewrite Hwc, Hw5, Hw4; cbn; now rewrite <- app_assoc|].
  split; [exact B3|].
  split; [exists result, size, out; split; [reflexivity|exact S4]|].
  split; [rewrite T4, Hw6; cbn; now rewrite <- app_assoc|].
  split; [repeat (constructor; [assumption|]); constructor|].
  split; [exact Ra|]. split; [exact Rl|].
  repeat (constructor; [assumption|]); constructor.
Qed.

(** A call that gets through, on a connected session: the server answers
    with status [0] and three bytes of output. *)
Example execute_lambda_demo :
  exists w',
    execute_lambda demo_config (Some (Some (replicate 4096 144)))
      [102; 0] [104; 105; 0] 3 1024 (Some demo_client)
      (demo_world []
         [arrival []; arrival []; arrival [];
          arrival (result_message 0 3 [72; 73; 0])] [])
    = Ok (0, Some (3, [72; 73; 0])) w'
    /\ length (filter is_post (trace w')) = 4%nat.
Proof.
  eexists. split; vm_compute; reflexivity.
Qed.

(** ** Read mode *)


Lemma rd_post_read_returns config remote_offset length remote_info w r w' :
  length <= MAX_BUFFER_SIZE ->
  rd_post_read (Some config) remote_offset length remote_info w = Ok r w' ->
  exists wr,
    w' = mk_world (heap w) (brk w) (fds w)
           (trace w ++ [PostSend (qp config) wr 0])
           (tl (rets w)) (port_gid w) (rx w) (cq_in w) (runs w) (junk w) (global_config w)
    /\ opcode wr = IBV_WR_RDMA_READ
    /\ sg_length wr = length mod 2 ^ 32
    /\ remote_addr wr = (addr remote_info + remote_offset) mod 2 ^ 64.
Proof.
  intros Hlen E. unfold rd_post_read in E.
  apply bind_Ok_inv in E as ([] & w1 & E1 & E).
  apply Ok_inj in E as [_ <-].
  apply post_operation_returns in E1; [|exact Hlen].
  destruct E1 as (lkey & rk & _ & wr & heap' & -> & _ & _ & Hl & _ & Hop & Hh).
  destruct Hop as (Hopc & ri & Hri & Hra & _).
  apply (inj Some) in Hri as <-. cbn in Hra. subst heap'.
  exists wr. repeat split; assumption.
Qed.

(** X6.  When the completion of the read brings the bytes [start] to
    [end_pos] of the peer's buffer [remote], [rd_client_range] has exactly
    these bytes at the start of the local buffer and hands them, with their
    number, to [printf]. *)
Theorem read_returns_remote_range config start end_pos remote_info
    (remote d : list Z) rest w res w' :
  0 <= start -> start <= end_pos -> end_pos < MAX_BUFFER_SIZE ->
  heap w !! buf config = Some (OMem MAX_BUFFER_SIZE d) ->
  cq_in w = arrival (bytes_at remote start (end_pos - start + 1)) :: rest ->
  rd_client_range config start end_pos remote_info w = Ok res w' ->
  snd res = Some (end_pos - start + 1,
                  bytes_at remote start (end_pos - start + 1))
  /\ load (buf config) 0 (end_pos - start + 1) w'
     = Ok (bytes_at remote start (end_pos - start + 1)) w'.
Proof.
  intros H0 H1 H2 Hbuf Hcq E. unfold rd_client_range in E.
  rewrite (proj2 (Z.ltb_ge start 0)), (proj2 (Z.ltb_ge end_pos start)),
    (proj2 (Z.leb_gt MAX_BUFFER_SIZE end_pos)) in E by lia.
  cbn [orb] in E. unfold MAX_BUFFER_SIZE in *.
  set (n := end_pos - start + 1) in *.
  set (m := bytes_at remote start n) in *.
  assert (Hm : Z.of_nat (length m) = n)
    by (unfold m; rewrite length_bytes_at; lia).
  apply bind_Ok_inv in E as (ri & w1 & E1 & E).
  apply rd_post_read_returns in E1 as (wr & -> & _); [|unfold MAX_BUFFER_SIZE; lia].
  rewrite Hcq in E.
  erewrite bind_Ok in E by (apply wait_completion_on_arrival; exact Hbuf).
  erewrite bind_Ok in E
    by (eapply load_ok; [apply lookup_insert_eq|lia|lia]).
  apply Ok_inj in E as [<- <-]. cbn [snd].
  rewrite bytes_at_arrived_whole by lia.
  rewrite (bytes_at_exact_end m) by lia.
  split; [reflexivity|].
  erewrite load_ok; [|apply lookup_insert_eq|lia|lia].
  rewrite bytes_at_arrived_whole by lia.
  now rewrite (bytes_at_exact_end m) by lia.
Qed.

Lemma read_returns_remote_range_witness :
  exists res w',
    rd_client_range demo_config 2 4 demo_client
                    (demo_world [] [arrival [108; 108; 111]] [])
    = Ok res w'
    /\ snd res = Some (3, [108; 108; 111])
    /\ load (buf demo_config) 0 3 w' = Ok [108; 108; 111] w'.
Proof.
  do 2 eexists. split; [vm_compute; reflexivity|].
  apply (read_returns_remote_range demo_config 2 4 demo_client
           [104; 101; 108; 108; 111; 0] [] []
           (demo_world [] [arrival [108; 108; 111]] [])).
  - lia.
  - lia.
  - unfold MAX_BUFFER_SIZE. lia.
  - reflexivity.
  - reflexivity.
  - vm_compute. reflexivity.
Defined.

(** ** Send/receive mode *)

Lemma sr_post_send_returns config (message : list Z) n w w' :
  strlen message = Some n -> n + 1 <= MAX_BUFFER_SIZE ->
  sr_post_send (Some config) message w = Ok tt w' ->
  exists wr size old,
    heap w !! buf config = Some (OMem size old)
    /\ n + 1 <= size
    /\ w' = mk_world
              (<[buf config :=
                   OMem size (overwrite (take (Z.to_nat (n + 1)) message) old)]>
                 (heap w))
              (brk w) (fds w) (trace w ++ [PostSend (qp config) wr 0])
              (tl (rets w)) (port_gid w) (rx w) (cq_in w) (runs w) (junk w) (global_config w)
    /\ opcode wr = IBV_WR_SEND /\ sg_addr wr = buf config
    /\ sg_length wr = (n + 1) mod 2 ^ 32.
Proof.
  intros Hn Hlen E. unfold sr_post_send in E. rewrite Hn in E.
  apply post_operation_returns in E; [|exact Hlen].
  destruct E as (lkey & rk & _ & wr & heap' & -> & _ & Ha & Hl & _ & Hop & Hh).
  destruct Hh as (size & old & Hbuf & Hs & _ & ->).
  exists wr, size, old. repeat split; assumption.
Qed.

(** The text [printf("%s")] shows once a terminated message has arrived. *)
Lemma cstring_of_arrived (m tail d : list Z) size n :
  Forall (fun c => c <> 0) m ->
  Z.of_nat (length m) < size -> Z.of_nat (length m) < n ->
  cstring (bytes_at (overwrite (take (Z.to_nat size) (m ++ 0 :: tail)) d) 0 n)
  = m.
Proof.
  intros Hm Hs Hn. unfold overwrite.
  change (m ++ 0 :: tail) with (m ++ [0] ++ tail).
  rewrite (app_assoc m [0]), take_app_ge by (rewrite length_app; cbn; lia).
  rewrite <- (app_assoc (m ++ [0])).
  destruct (bytes_at_whole (m ++ [0])
              (take (Z.to_nat size - length (m ++ [0])) tail
               ++ drop (length ((m ++ [0])
                                ++ take (Z.to_nat size - length (m ++ [0])) tail)) d)
              n) as [t ->].
  { rewrite length_app. cbn. lia. }
  rewrite <- app_assoc. cbn [app]. now apply cstring_terminated.
Qed.

Lemma wait_completion_returns_mem config w w' size data :
  heap w !! buf config = Some (OMem size data) ->
  wait_completion config w = Ok tt w' ->
  exists wc rest,
    cq_in w = wc :: rest /\ wc_status wc = IBV_WC_SUCCESS
    /\ w' = mk_world
              (<[buf config :=
                   OMem size (overwrite (take (Z.to_nat size) (wc_arrived wc)) data)]>
                 (heap w))
              (brk w) (fds w) (trace w ++ [PollCq (cq config) wc])
              (rets w) (port_gid w) (rx w) rest (runs w) (junk w) (global_config w).
Proof.
  intros Hbuf E.
  apply wait_completion_returns in E as (wc & rest & Hcq & Hs & ->).
  rewrite Hbuf. eauto.
Qed.

(** X7.  A turn of the send/receive server that comes round has posted one
    receive, waited for the message, then posted one send of the four bytes
    of ["ACK"] from the start of its buffer and waited for that send to
    complete, in this order and nothing else; the text it printed is the
    message that arrived. *)
Theorem sr_server_turn_acknowledges config d w text w' :
  heap w !! buf config = Some (OMem MAX_BUFFER_SIZE d) ->
  sr_server_turn config w = Ok text w' ->
  exists rwr c1 wr c2,
    trace w'
    = trace w ++ [PostRecv (qp config) rwr 0; PollCq (cq config) c1;
                  PostSend (qp config) wr 0; PollCq (cq config) c2]
    /\ rsg_addr rwr = buf config /\ rsg_length rwr = MAX_BUFFER_SIZE
    /\ opcode wr = IBV_WR_SEND /\ sg_addr wr = buf config /\ sg_length wr = 4
    /\ (forall m tail,
          Forall (fun c => c <> 0) m ->
          Z.of_nat (length m) < MAX_BUFFER_SIZE ->
          wc_arrived c1 = m ++ 0 :: tail -> text = m)
    /\ (wc_arrived c2 = [] -> load (buf config) 0 4 w' = Ok ACK w').
Proof.
  unfold sr_server_turn. intros Hbuf E.
  apply bind_Ok_inv in E as ([] & w0 & E0 & E).
  apply post_receive_returns in E0 as [lkey ->].
  apply bind_Ok_inv in E as ([] & w1 & E1 & E).
  eapply wait_completion_returns_mem in E1; [|exact Hbuf].
  destruct E1 as (c1 & rest1 & _ & _ & ->).
  unfold MAX_BUFFER_SIZE in *.
  erewrite bind_Ok in E
    by (eapply load_ok; [apply lookup_insert_eq|lia|lia]).
  apply bind_Ok_inv in E as ([] & w3 & E3 & E).
  apply (sr_post_send_returns _ _ 3) in E3;
    [|reflexivity|unfold MAX_BUFFER_SIZE; lia].
  destruct E3 as (wr & size' & old & Hbuf' & Hs' & -> & Hop & Ha & Hl).
  cbn [heap] in Hbuf'. rewrite lookup_insert_eq in Hbuf'.
  injection Hbuf' as <- <-.
  apply bind_Ok_inv in E as ([] & w4 & E4 & E).
  eapply wait_completion_returns_mem in E4; [|apply lookup_insert_eq].
  destruct E4 as (c2 & rest2 & _ & _ & ->).
  apply Ok_inj in E as [<- <-].
  exists (mk_recv_wr 0 (buf config) 4096 lkey 1), c1, wr, c2.
  cbn [trace heap]. rewrite <- !app_assoc. cbn [app].
  split; [reflexivity|].
  do 5 (split; [assumption || reflexivity|]).
  split.
  - intros m tail Hm Hlen ->. apply cstring_of_arrived; assumption.
  - intros ->. erewrite load_ok; [|apply lookup_insert_eq|lia|lia].
    reflexivity.
Qed.

Lemma sr_server_turn_acknowledges_witness :
  let w := demo_world [] [arrival [104; 105; 0]; arrival []] [] in
  let w' := final (sr_server_turn demo_config w) in
  exists rwr c1 wr c2,
    trace w'
    = trace w ++ [PostRecv (qp demo_config) rwr 0; PollCq (cq demo_config) c1;
                  PostSend (qp demo_config) wr 0; PollCq (cq demo_config) c2]
    /\ rsg_addr rwr = buf demo_config /\ rsg_length rwr = MAX_BUFFER_SIZE
    /\ opcode wr = IBV_WR_SEND /\ sg_addr wr = buf demo_config
    /\ sg_length wr = 4
    /\ (forall m tail,
          Forall (fun c => c <> 0) m ->
          Z.of_nat (length m) < MAX_BUFFER_SIZE ->
          wc_arrived c1 = m ++ 0 :: tail -> [104; 105] = m)
    /\ (wc_arrived c2 = [] -> load (buf demo_config) 0 4 w' = Ok ACK w').
Proof.
  cbn zeta.
  apply (sr_server_turn_acknowledges demo_config []
           (demo_world [] [arrival [104; 105; 0]; arrival []] [])
           [104; 105]).
  - reflexivity.
  - vm_compute. reflexivity.
Defined.

(** ** Completion errors *)

(** X8.  A completion whose status is not success ends the process in
    [wait_completion], after two lines on [stderr]; the write server, which
    polls on its own, logs one line and goes round again with the next
    completion. *)
Theorem completion_error_is_fatal_outside_write_server config w wc rest :
  cq_in w = wc :: rest -> wc_status wc <> IBV_WC_SUCCESS ->
  (exists w',
      wait_completion config w = Exit 1 w'
      /\ trace w'
         = trace w ++ [PollCq (cq config) wc;
                       Stderr "Completion error: %s" [wc_status wc];
                       Stderr "RDMA operation failed" []])
  /\ forall w0,
      post_receive config w = Ok tt w0 ->
      exists w',
        rw_server_turn config w = Ok None w'
        /\ cq_in w' = rest
        /\ trace w'
           = trace w0 ++ [PollCq (cq config) wc;
                          Stderr "Completion error: %s" [wc_status wc]].
Proof.
  intros Hcq Hs. apply Z.eqb_neq in Hs.
  destruct w as [h b f t r g x c u jk gc]. cbn in Hcq. subst c.
  split.
  - unfold wait_completion, poll_cq_until_one, die, emit, exit, mbind, M_bind.
    cbn. rewrite Hs. cbn. eexists. split; [reflexivity|].
    destruct (h !! buf config) as [[]|]; cbn; now rewrite <- !app_assoc.
  - intros w0 E0. unfold rw_server_turn.
    rewrite (bind_Ok _ _ _ _ _ E0).
    apply post_receive_returns in E0 as [lkey ->]. cbn.
    unfold poll_cq_until_one, emit, mbind, M_bind, mret, M_ret.
    cbn. rewrite Hs. cbn. eexists. split; [reflexivity|].
    destruct (h !! buf config) as [[]|]; cbn;
      (split; [reflexivity|now rewrite <- !app_assoc]).
Qed.

Lemma completion_error_is_fatal_outside_write_server_witness :
  let w := demo_world [] [mk_wc 5 0 []; arrival [104; 105; 0]] [] in
  (exists w',
      wait_completion demo_config w = Exit 1 w'
      /\ trace w'
         = trace w ++ [PollCq (cq demo_config) (mk_wc 5 0 []);
                       Stderr "Completion error: %s" [5];
                       Stderr "RDMA operation failed" []])
  /\ forall w0,
      post_receive demo_config w = Ok tt w0 ->
      exists w',
        rw_server_turn demo_config w = Ok None w'
        /\ cq_in w' = [arrival [104; 105; 0]]
        /\ trace w'
           = trace w0 ++ [PollCq (cq demo_config) (mk_wc 5 0 []);
                          Stderr "Completion error: %s" [5]].
Proof.
  cbn zeta.
  apply (completion_error_is_fatal_outside_write_server demo_config
           (demo_world [] [mk_wc 5 0 []; arrival [104; 105; 0]] [])
           (mk_wc 5 0 []) [arrival [104; 105; 0]]).
  - reflexivity.
  - cbn. unfold IBV_WC_SUCCESS. lia.
Defined.

(** ** The server loops *)

Lemma rw_server_turns_never_return turns config w w' :
  rw_server_turns turns config w <> Ok tt w'.
Proof.
  revert w. induction turns as [|n IH]; intros w E; [discriminate E|].
  cbn [rw_server_turns] in E.
  apply bind_Ok_inv in E as (? & w1 & _ & E). exact (IH _ E).
Qed.

Lemma sr_server_turns_never_return turns config w w' :
  sr_server_turns turns config w <> Ok tt w'.
Proof.
  revert w. induction turns as [|n IH]; intros w E; [discriminate E|].
  cbn [sr_server_turns] in E.
  apply bind_Ok_inv in E as (? & w1 & _ & E). exact (IH _ E).
Qed.

(** X9.  The write server and the send/receive server have no way out of
    their loops: when [rw_run_server] or [sr_run_server] returns at all, it
    returns [-1], connection setup has failed and no work request was ever
    posted.  The [cleanup_resources] behind the loop is never reached. *)
Theorem write_and_send_servers_only_return_failure w :
  (forall r w', rw_run_server w = Ok r w' ->
      r = -1 /\ forallb no_post (drop (length (trace w)) (trace w')) = true)
  /\ (forall r w', sr_run_server w = Ok r w' ->
      r = -1 /\ forallb no_post (drop (length (trace w)) (trace w')) = true).
Proof.
  split; intros r w' E.
  - unfold rw_run_server in E.
    apply bind_Ok_inv in E as ([[status c] ri] & w1 & E1 & E).
    destruct (bool_decide (status = RDMA_SUCCESS)).
    + destruct c as [c|]; [|discriminate E]. cbn [negb] in E.
      apply bind_Ok_inv in E as ([] & w2 & E2 & _).
      now apply rw_server_turns_never_return in E2.
    + apply Ok_inj in E as [<- <-]. split; [reflexivity|].
      destruct (setup_posts_nothing config_zero None MODE_WRITE false w)
        as (new & T & F).
      rewrite E1 in T. cbn in T. now rewrite T, drop_app_length.
  - unfold sr_run_server in E.
    apply bind_Ok_inv in E as ([[status c] ri] & w1 & E1 & E).
    destruct (bool_decide (status = RDMA_SUCCESS)).
    + destruct c as [c|]; [|discriminate E]. cbn [negb] in E.
      apply bind_Ok_inv in E as ([] & w2 & E2 & _).
      now apply sr_server_turns_never_return in E2.
    + apply Ok_inj in E as [<- <-]. split; [reflexivity|].
      destruct (setup_posts_nothing config_zero None MODE_SEND_RECV false w)
        as (new & T & F).
      rewrite E1 in T. cbn in T. now rewrite T, drop_app_length.
Qed.

(** ** The write client *)

Lemma strip_newline_line (text tail : list Z) :
  Forall (fun c => c <> 0) text ->
  strip_newline (text ++ 10 :: 0 :: tail)
  = Some (Z.of_nat (length text), text ++ 0 :: 0 :: tail).
Proof.
  intros Ht. unfold strip_newline.
  change (text ++ 10 :: 0 :: tail) with (text ++ [10] ++ 0 :: tail).
  rewrite (app_assoc text [10]), strlen_terminated.
  2:{ apply Forall_app. split; [exact Ht|]. constructor; [lia|constructor]. }
  rewrite length_app. cbn [length mbind option_bind].
  rewrite (proj2 (Z.eqb_neq _ 0)) by lia.
  replace (Z.to_nat (Z.of_nat (length text + 1) - 1)) with (length text) by lia.
  rewrite <- (app_assoc text [10]).
  rewrite bool_decide_eq_true_2 by apply list_lookup_middle, eq_refl.
  f_equal. f_equal; [lia|].
  rewrite insert_app_r_alt by lia. now rewrite Nat.sub_diag.
Qed.

(** X10.  For a line of text that [fgets] stored with its newline, the write
    client cuts the newline off and, when the line is not empty, posts one
    write with immediate of the text and its terminator to the base of the
    peer's buffer, the length (terminator included) as immediate value,
    and waits for its completion; the text is then at the start of the
    registered buffer.  For an empty line it posts nothing. *)
Theorem rw_client_line_sends_the_text config remote_info (text tail d : list Z)
    w w' :
  Forall (fun c => c <> 0) text -> text <> [] ->
  Z.of_nat (length text) + 2 <= MAX_BUFFER_SIZE ->
  heap w !! buf config = Some (OMem MAX_BUFFER_SIZE d) ->
  rw_client_line config remote_info (text ++ 10 :: 0 :: tail) w = Ok tt w' ->
  rw_client_line config remote_info (10 :: 0 :: tail) w = Ok tt w
  /\ exists wr wc,
      trace w' = trace w ++ [PostSend (qp config) wr 0; PollCq (cq config) wc]
      /\ opcode wr = IBV_WR_RDMA_WRITE_WITH_IMM
      /\ sg_length wr = Z.of_nat (length text) + 1
      /\ imm_data wr = htonl (Z.of_nat (length text) + 1)
      /\ remote_addr wr = addr remote_info /\ wr_rkey wr = rkey remote_info
      /\ (wc_arrived wc = [] ->
          load (buf config) 0 (Z.of_nat (length text) + 1) w'
          = Ok (text ++ [0]) w').
Proof.
  intros Ht Hne Hlen Hbuf E. split; [reflexivity|].
  unfold rw_client_line in E. rewrite strip_newline_line in E by exact Ht.
  rewrite (proj2 (Z.eqb_neq _ 0)) in E by (destruct text; [congruence|cbn; lia]).
  apply bind_Ok_inv in E as ([] & w1 & E1 & E).
  unfold rw_post_write in E1. rewrite strlen_terminated in E1 by exact Ht.
  set (n := Z.of_nat (length text) + 1) in *.
  unfold MAX_BUFFER_SIZE in *.
  apply post_operation_returns in E1; [|unfold MAX_BUFFER_SIZE; lia].
  destruct E1 as (lkey & rk & _ & wr & heap' & -> & _ & _ & Hl & _ & Hop & Hh).
  destruct Hop as (Hopc & Himm & ri & Hri & Hra & Hrk).
  apply (inj Some) in Hri as <-.
  destruct Hh as (size & old & Hbuf' & _ & _ & ->).
  rewrite Hbuf in Hbuf'. injection Hbuf' as <- <-.
  eapply wait_completion_returns_mem in E; [|apply lookup_insert_eq].
  destruct E as (wc & rest & _ & _ & ->).
  exists wr, wc. cbn [trace heap]. rewrite <- app_assoc.
  split; [reflexivity|]. split; [exact Hopc|].
  split; [rewrite Hl; apply Z.mod_small; lia|].
  repeat (split; [assumption|]).
  intros ->. erewrite load_ok; [|apply lookup_insert_eq|lia|lia].
  f_equal. rewrite take_nil. unfold overwrite at 1.
  cbn [length app]. rewrite drop_0.
  change (text ++ 0 :: 0 :: tail) with (text ++ [0] ++ 0 :: tail).
  rewrite (app_assoc text [0]), take_app_length'
    by (rewrite length_app; cbn; lia).
  unfold overwrite. apply bytes_at_exact. rewrite length_app. cbn. lia.
Qed.

Lemma rw_client_line_sends_the_text_witness :
  let w := demo_world [] [arrival []] [] in
  let w' := final (rw_client_line demo_config demo_client [104; 105; 10; 0] w) in
  rw_client_line demo_config demo_client [10; 0] w = Ok tt w
  /\ exists wr wc,
      trace w' = trace w ++ [PostSend (qp demo_config) wr 0;
                             PollCq (cq demo_config) wc]
      /\ opcode wr = IBV_WR_RDMA_WRITE_WITH_IMM
      /\ sg_length wr = 3
      /\ imm_data wr = htonl 3
      /\ remote_addr wr = addr demo_client /\ wr_rkey wr = rkey demo_client
      /\ (wc_arrived wc = [] ->
          load (buf demo_config) 0 3 w' = Ok [104; 105; 0] w').
Proof.
  cbn zeta.
  apply (rw_client_line_sends_the_text demo_config demo_client [104; 105] [] []
           (demo_world [] [arrival []] [])).
  - repeat constructor; lia.
  - discriminate.
  - unfold MAX_BUFFER_SIZE. simpl. lia.
  - reflexivity.
  - vm_compute. reflexivity.
Defined.

(** ** The control socket *)

Lemma calls_to_app f t1 t2 :
  calls_to f (t1 ++ t2) = (calls_to f t1 + calls_to f t2)%nat.
Proof. unfold calls_to. now rewrite List.filter_app, length_app. Qed.

Lemma calls_to_same f args r t :
  calls_to f (Call f args r :: t) = S (calls_to f t).
Proof.
  unfold calls_to. cbn. now rewrite bool_decide_eq_true_2 by reflexivity.
Qed.

Lemma calls_to_other f f' args r t :
  f' <> f -> calls_to f (Call f' args r :: t) = calls_to f t.
Proof.
  intros H. unfold calls_to. cbn. now rewrite bool_decide_eq_false_2 by exact H.
Qed.

Lemma calls_to_stderr f fmt args t :
  calls_to f (Stderr fmt args :: t) = calls_to f t.
Proof. reflexivity. Qed.

Ltac count_calls :=
  rewrite ?calls_to_app;
  repeat first [ rewrite calls_to_same
               | rewrite calls_to_other by discriminate
               | rewrite calls_to_stderr ];
  change (calls_to _ []) with 0%nat.

(** One attempt that succeeds. *)
Lemma connected_at_once fd n h b f t r g x c u jk gc :
  exists connected w' new,
    Ok true (mk_world h b f (t ++ [Call F_connect [fd; TCP_PORT] 0]) r g x c u jk gc)
    = Ok connected w'
    /\ trace w' = t ++ new
    /\ (calls_to F_connect new <= S n)%nat
    /\ calls_to F_sleep new = pred (calls_to F_connect new)
    /\ (connected = false -> calls_to F_connect new = S n)
    /\ (connected = true ->
        exists before, new = before ++ [Call F_connect [fd; TCP_PORT] 0])
    /\ (connected = false -> S n <> 0%nat ->
        exists before r,
          new = before ++ [Call F_connect [fd; TCP_PORT] r] /\ r <> 0)
    /\ heap w' = h /\ fds w' = f.
Proof.
  exists true. eexists. exists [Call F_connect [fd; TCP_PORT] 0].
  split; [reflexivity|]. split; [reflexivity|]. count_calls.
  split; [lia|]. split; [reflexivity|]. split; [discriminate|].
  split; [intros _; now exists []|]. split; [discriminate|].
  split; reflexivity.
Qed.

(** X11.  The retry loop of [setup_socket] always comes to an end: it calls
    [connect] at most [retry_count] times, sleeps once between two attempts
    and never after the last, and reports a connection exactly when its
    last [connect] returned [0]; when it gives up it has used all its
    attempts and the last of them failed.  It opens and closes nothing. *)
Theorem connect_retry_is_bounded retry_count fd w :
  exists connected w' new,
    connect_retry retry_count fd w = Ok connected w'
    /\ trace w' = trace w ++ new
    /\ (calls_to F_connect new <= retry_count)%nat
    /\ calls_to F_sleep new = pred (calls_to F_connect new)
    /\ (connected = false -> calls_to F_connect new = retry_count)
    /\ (connected = true ->
        exists before, new = before ++ [Call F_connect [fd; TCP_PORT] 0])
    /\ (connected = false -> retry_count <> 0%nat ->
        exists before r,
          new = before ++ [Call F_connect [fd; TCP_PORT] r] /\ r <> 0)
    /\ heap w' = heap w /\ fds w' = fds w.
Proof.
  revert w. induction retry_count as [|n IH]; intros w.
  - exists false, w, []. cbn. rewrite app_nil_r.
    split; [reflexivity|]. split; [reflexivity|]. split; [lia|].
    split; [reflexivity|]. split; [reflexivity|]. split; [discriminate|].
    split; [intros _ H; now destruct H|]. split; reflexivity.
  - destruct w as [h b f t r g x c u jk gc].
    cbn [connect_retry]. unfold syscall, answer, emit, mbind, M_bind. cbn.
    destruct r as [|r0 r]; cbn; [apply connected_at_once|].
    destruct (r0 =? 0) eqn:E0.
    { apply Z.eqb_eq in E0. subst r0. apply connected_at_once. }
    unfold when, sleep, emit, mbind, M_bind, mret, M_ret.
    destruct n as [|n].
    + cbn. exists false. eexists.
      exists [Call F_connect [fd; TCP_PORT] r0].
      split; [reflexivity|]. split; [reflexivity|]. count_calls.
      split; [lia|]. split; [reflexivity|].
      split; [reflexivity|]. split; [discriminate|].
      split; [intros _ _; exists [], r0; split;
              [reflexivity|now apply Z.eqb_neq]|].
      split; reflexivity.
    + change (0 <? Z.of_nat (S n)) with true. cbn iota beta.
      unfold set_trace at 1 2 3.
      cbn [heap brk fds trace rets port_gid rx cq_in runs].
      match goal with
      | |- context [connect_retry (S n) fd ?w1] =>
        destruct (IH w1)
          as (cn & w' & new & E & T & L & Hsl & F & K & K2 & Hh & Hf)
      end.
      exists cn, w'.
      exists ([Call F_connect [fd; TCP_PORT] r0;
               Stderr "Connection failed, retrying in 1 second... (%d attempts left)"
                      [Z.of_nat (S n)];
               Call F_sleep [1] 0] ++ new).
      split; [exact E|]. cbn [trace] in T.
      split; [rewrite T, <- !app_assoc; reflexivity|].
      count_calls.
      assert (Hpos : (1 <= calls_to F_connect new)%nat).
      { destruct cn.
        - destruct (K eq_refl) as [bf ->]. count_calls. lia.
        - rewrite F by reflexivity. lia. }
      split; [lia|]. split; [lia|].
      split; [intros Hc; rewrite F by exact Hc; reflexivity|].
      split; [intros Hc; destruct (K Hc) as [bf ->];
              eexists; rewrite app_assoc; reflexivity|].
      split; [|split; assumption].
      intros Hc _. destruct (K2 Hc ltac:(discriminate)) as (bf & r1 & -> & Hr1).
      exists ([Call F_connect [fd; TCP_PORT] r0;
               Stderr "Connection failed, retrying in 1 second... (%d attempts left)"
                      [Z.of_nat (S n)];
               Call F_sleep [1] 0] ++ bf), r1.
      split; [now rewrite <- app_assoc|exact Hr1].
Qed.

Lemma answer_eq w :
  answer w = Ok (hd 0 (rets w)) (set_rets (tl (rets w)) w).
Proof. destruct w as [h b f t r g x c u jk gc]. now destruct r. Qed.

Lemma open_fd_eq f args w :
  open_fd f args w
  = Ok (hd 0 (rets w))
       (mk_world (heap w) (brk w)
          (if 0 <=? hd 0 (rets w) then fds w ∪ {[ hd 0 (rets w) ]} else fds w)
          (trace w ++ [Call f args (hd 0 (rets w))])
          (tl (rets w)) (port_gid w) (rx w) (cq_in w) (runs w) (junk w) (global_config w)).
Proof.
  unfold open_fd. rewrite (bind_Ok _ _ _ _ _ (answer_eq w)).
  unfold note_open, emit, mbind, M_bind, mret, M_ret.
  destruct (0 <=? hd 0 (rets w)); reflexivity.
Qed.

Lemma syscall_eq f args w :
  syscall f args w
  = Ok (hd 0 (rets w))
       (mk_world (heap w) (brk w) (fds w)
          (trace w ++ [Call f args (hd 0 (rets w))])
          (tl (rets w)) (port_gid w) (rx w) (cq_in w) (runs w) (junk w) (global_config w)).
Proof.
  unfold syscall. rewrite (bind_Ok _ _ _ _ _ (answer_eq w)). reflexivity.
Qed.

Lemma close_eq fd w :
  exists r,
    close fd w
    = Ok r (mk_world (heap w) (brk w) (fds w ∖ {[ fd ]})
              (trace w ++ [Call F_close [fd] r])
              (rets w) (port_gid w) (rx w) (cq_in w) (runs w) (junk w) (global_config w)).
Proof.
  unfold close. destruct (bool_decide (fd ∈ fds w)) eqn:E.
  - exists 0. reflexivity.
  - exists (-1). apply bool_decide_eq_false_1 in E.
    destruct w as [h b f t r g x c u jk gc]. cbn in *.
    assert (Hf : f ∖ {[fd]} = f) by set_solver. now rewrite Hf.
Qed.

Lemma close_then_die fd (message : string) (A : Type) w :
  exists r,
    (close fd;; @die A message) w
    = Exit 1 (mk_world (heap w) (brk w) (fds w ∖ {[ fd ]})
                (trace w ++ [Call F_close [fd] r; Stderr message []])
                (rets w) (port_gid w) (rx w) (cq_in w) (runs w) (junk w) (global_config w)).
Proof.
  destruct (close_eq fd w) as [r E]. exists r.
  rewrite (bind_Ok _ _ _ _ _ E). unfold die, emit, exit, mbind, M_bind. cbn.
  now rewrite <- app_assoc.
Qed.

Lemma close_then_return {A} fd (a : A) w :
  exists r,
    (close fd;; mret a) w
    = Ok a (mk_world (heap w) (brk w) (fds w ∖ {[ fd ]})
              (trace w ++ [Call F_close [fd] r])
              (rets w) (port_gid w) (rx w) (cq_in w) (runs w) (junk w) (global_config w)).
Proof.
  destruct (close_eq fd w) as [r E]. exists r.
  now rewrite (bind_Ok _ _ _ _ _ E).
Qed.

(** X12.  The server side of [setup_socket] never leaves its listening
    socket open, however the call ends, and touches no descriptor other
    than that one and the one [accept] returns.  It ends either by
    returning, with the accepted connection in [sock_fd] and open, or in
    [exit(1)]. *)
Theorem server_socket_is_closed_again config w :
  let o := setup_socket config None w in
  let listen_fd := answer_at 0 (rets w) in
  let fd := answer_at 4 (rets w) in
  (listen_fd ∉ fds w) ->
  (listen_fd ∉ fds (final o))
  /\ (forall other, other <> fd -> other <> listen_fd ->
        (other ∈ fds (final o)) <-> (other ∈ fds w))
  /\ match o with
     | Ok config' w' =>
       config' = set_sock_fd fd config /\ 0 <= fd
       /\ (fd <> listen_fd -> fd ∈ fds w')
     | Exit status _ => status = 1
     | _ => False
     end.
Proof.
  cbn zeta. unfold answer_at.
  replace (nth 0 (rets w) 0) with (hd 0 (rets w))
    by (destruct (rets w); reflexivity).
  replace (nth 4 (rets w) 0) with (hd 0 (tl (tl (tl (tl (rets w))))))
    by (destruct (rets w) as [|? [|? [|? [|? [|? ?]]]]]; reflexivity).
  set (l := hd 0 (rets w)). set (a := hd 0 (tl (tl (tl (tl (rets w)))))).
  intros Hfresh. unfold setup_socket.
  rewrite (bind_Ok _ _ _ _ _ (open_fd_eq _ _ _)). fold l.
  destruct (l <? 0) eqn:El.
  { apply Z.ltb_lt in El.
    rewrite (proj2 (Z.leb_gt 0 l)) by lia. cbn.
    repeat split; try assumption; tauto. }
  apply Z.ltb_ge in El. rewrite (proj2 (Z.leb_le 0 l)) by lia.
  rewrite (bind_Ok _ _ _ _ _ (syscall_eq _ _ _)).
  rewrite (bind_Ok _ _ _ _ _ (syscall_eq _ _ _)).
  cbn [heap brk fds trace rets port_gid rx cq_in runs].
  destruct (hd 0 (tl (tl (rets w))) <? 0).
  { match goal with
    | |- context [(close l;; die ?m) ?w1] =>
      destruct (close_then_die l m config_t w1) as [rc ->]
    end.
    cbn. repeat split; try set_solver. }
  rewrite (bind_Ok _ _ _ _ _ (syscall_eq _ _ _)).
  rewrite (bind_Ok _ _ _ _ _ (open_fd_eq _ _ _)).
  cbn [heap brk fds trace rets port_gid rx cq_in runs sock_fd set_sock_fd].
  fold a.
  destruct (a <? 0) eqn:Ea.
  { apply Z.ltb_lt in Ea. rewrite (proj2 (Z.leb_gt 0 a)) by lia.
    match goal with
    | |- context [(close l;; die ?m) ?w1] =>
      destruct (close_then_die l m config_t w1) as [rc ->]
    end.
    cbn. repeat split; try set_solver. }
  apply Z.ltb_ge in Ea. rewrite (proj2 (Z.leb_le 0 a)) by lia.
  match goal with
  | |- context [(close l;; mret ?c) ?w1] =>
    destruct (close_then_return l c w1) as [rc ->]
  end.
  cbn. repeat split; try assumption; try set_solver.
Qed.

Lemma server_socket_is_closed_again_witness :
  let w := demo_world [3; 0; 0; 0; 4] [] [] in
  let o := setup_socket demo_config None w in
  (3 ∉ fds (final o))
  /\ (forall other, other <> 4 -> other <> 3 ->
        (other ∈ fds (final o)) <-> (other ∈ fds w))
  /\ match o with
     | Ok config' w' =>
       config' = set_sock_fd 4 demo_config /\ 0 <= 4
       /\ (4 <> 3 -> 4 ∈ fds w')
     | Exit status _ => status = 1
     | _ => False
     end.
Proof.
  cbn zeta.
  apply (server_socket_is_closed_again demo_config
           (demo_world [3; 0; 0; 0; 4] [] [])).
  cbn. apply not_elem_of_empty.
Defined.

(** ** What posting leaves alone *)

(** X13.  However it ends, [post_operation] changes no object but the
    registered buffer, allocates and frees nothing, opens and closes
    nothing and takes no completion; a read, or a post without data, does
    not change the buffer either. *)
Theorem post_operation_touches_only_the_buffer
    config op data remote_info length w :
  let w' := final (post_operation (Some config) op data remote_info length w) in
  (forall p, p <> buf config -> heap w' !! p = heap w !! p)
  /\ dom (heap w') = dom (heap w)
  /\ brk w' = brk w /\ fds w' = fds w /\ cq_in w' = cq_in w
  /\ (op = OP_READ \/ data = None -> heap w' = heap w).
Proof.
  destruct w as [h b f t r g x c u jk gc].
  destruct op, data as [d|], remote_info as [ri|].
  all: unfold_model.
  all: explore.
  all: repeat split; try reflexivity.
  all: try (intros p Hp; now rewrite lookup_insert_ne by congruence).
  all: try (intros [H|H]; discriminate H).
  all: try (apply set_eq; intros p; rewrite !elem_of_dom, lookup_insert;
            case_decide; subst; [|reflexivity];
            split; intros _; eauto).
Qed.

(** ** Teardown of a live session *)

(** X14.  On a context whose six handles are live and whose socket field is
    set, [cleanup_resources] gives everything back in one fixed order
    (queue pair, memory region, buffer, completion queue, protection
    domain, device context, socket), each exactly once; afterwards none of
    the handles is live, no other object has changed and the socket is
    closed. *)
Theorem cleanup_releases_everything_in_order c w num state lk rk size data :
  heap w !! NULL = None ->
  heap w !! qp c = Some (OQp num state) ->
  heap w !! mr c = Some (OMr lk rk) ->
  heap w !! buf c = Some (OMem size data) ->
  heap w !! cq c = Some OCq ->
  heap w !! pd c = Some OPd ->
  heap w !! context c = Some OContext ->
  sock_fd c <> 0 ->
  exists r w',
    cleanup_resources (Some c) w = Ok (Some (set_qp NULL c)) w'
    /\ trace w'
       = trace w ++ [Call F_ibv_destroy_qp [qp c] 0;
                     Call F_ibv_dereg_mr [mr c] 0;
                     Call F_free [buf c] 0;
                     Call F_ibv_destroy_cq [cq c] 0;
                     Call F_ibv_dealloc_pd [pd c] 0;
                     Call F_ibv_close_device [context c] 0;
                     Call F_close [sock_fd c] r]
    /\ Forall (fun p => heap w' !! p = None) (handles c)
    /\ (forall p, ~ In p (handles c) -> heap w' !! p = heap w !! p)
    /\ fds w' = fds w ∖ {[ sock_fd c ]}.
Proof.
  destruct c as [cx p cq0 q m bf gd fd].
  destruct w as [h b f t r g x c u jk gc]. cbn.
  intros H0 Hq Hm Hb Hc Hp Hx Hfd.
  assert (Hne : forall a o, h !! a = Some o -> a <> 0)
    by (intros a o Ha ->; unfold NULL in H0; congruence).
  pose proof (Hne _ _ Hq). pose proof (Hne _ _ Hm). pose proof (Hne _ _ Hb).
  pose proof (Hne _ _ Hc). pose proof (Hne _ _ Hp). pose proof (Hne _ _ Hx).
  assert (q <> m /\ q <> bf /\ q <> cq0 /\ q <> p /\ q <> cx
          /\ m <> bf /\ m <> cq0 /\ m <> p /\ m <> cx
          /\ bf <> cq0 /\ bf <> p /\ bf <> cx
          /\ cq0 <> p /\ cq0 <> cx /\ p <> cx)
    as (? & ? & ? & ? & ? & ? & ? & ? & ? & ? & ? & ? & ? & ? & ?)
    by (repeat split; intros ->; congruence).
  destruct (close_eq fd
              (mk_world
                 (delete cx (delete p (delete cq0 (delete bf (delete m
                    (delete q h))))))
                 b f
                 (t ++ [Call F_ibv_destroy_qp [q] 0;
                        Call F_ibv_dereg_mr [m] 0;
                        Call F_free [bf] 0;
                        Call F_ibv_destroy_cq [cq0] 0;
                        Call F_ibv_dealloc_pd [p] 0;
                        Call F_ibv_close_device [cx] 0])
                 r g x c u jk gc)) as [rc Ec].
  cbn [heap brk fds trace rets port_gid rx cq_in runs junk global_config]
    in Ec.
  exists rc. eexists. split.
  - unfold cleanup_resources, cleanup_qp, when, ibv_destroy_qp, ibv_dereg_mr,
      free, ibv_destroy_cq, ibv_dealloc_pd, ibv_close_device, lib_free,
      lookup_obj, release, emit, truthy, NULL, set_heap, set_trace, set_qp,
      mbind, M_bind, mret, M_ret.
    cbn [qp mr buf cq pd context sock_fd heap brk fds trace rets port_gid rx
         cq_in runs junk global_config].
    repeat (rewrite ?(proj2 (Z.eqb_neq _ 0)) by assumption;
            cbn [negb];
            rewrite ?lookup_delete_ne by congruence;
            rewrite ?Hq, ?Hm, ?Hb, ?Hc, ?Hp, ?Hx;
            cbn [is_qp is_mr is_mem is_cq is_pd is_context heap brk fds trace
                 rets port_gid rx cq_in runs junk global_config
                 qp mr buf cq pd context sock_fd gid]).
    rewrite <- !app_assoc. cbn [app]. rewrite Ec. reflexivity.
  - cbn [heap trace fds]. split; [now rewrite <- app_assoc|].
    split.
    + unfold handles. cbn.
      repeat constructor;
        repeat (rewrite lookup_delete_eq || rewrite lookup_delete_ne by congruence);
        reflexivity.
    + split; [|reflexivity].
      intros a Ha. unfold handles in Ha. cbn in Ha.
      rewrite !lookup_delete_ne by (intros ->; tauto). reflexivity.
Qed.

Lemma cleanup_releases_everything_in_order_witness :
  let c := set_sock_fd 7 demo_config in
  let w := set_fds {[ 7 ]} (demo_world [] [] []) in
  exists r w',
    cleanup_resources (Some c) w = Ok (Some (set_qp NULL c)) w'
    /\ trace w'
       = trace w ++ [Call F_ibv_destroy_qp [qp c] 0;
                     Call F_ibv_dereg_mr [mr c] 0;
                     Call F_free [buf c] 0;
                     Call F_ibv_destroy_cq [cq c] 0;
                     Call F_ibv_dealloc_pd [pd c] 0;
                     Call F_ibv_close_device [context c] 0;
                     Call F_close [sock_fd c] r]
    /\ Forall (fun p => heap w' !! p = None) (handles c)
    /\ (forall p, ~ In p (handles c) -> heap w' !! p = heap w !! p)
    /\ fds w' = fds w ∖ {[ sock_fd c ]}.
Proof.
  cbn zeta.
  apply (cleanup_releases_everything_in_order (set_sock_fd 7 demo_config)
           (set_fds {[ 7 ]} (demo_world [] [] []))
           7 IBV_QPS_RTS 9 9 MAX_BUFFER_SIZE []).
  all: try reflexivity.
  cbn. lia.
Defined.

(** ** A session from start to end *)

(** X15.  When every step of [init_resources] succeeds on a zero-initialised
    context, the context it hands out holds six live handles of the right
    kinds (the queue pair still in its initial state, the buffer
    [MAX_BUFFER_SIZE] bytes that are not initialised and hold what
    [malloc] found there, registered with the access flags of the mode),
    the GID of the port and no socket; the device list is gone again; and
    [cleanup_resources] on that context brings the heap back to what it
    was before [init_resources]. *)
Theorem init_then_teardown_round_trip (mode : rdma_mode_t) (w : world)
    (ok : list Z) (rest : list Z) :
  sound w ->
  length ok = 8%nat -> Forall (fun a => a <> 0) ok ->
  rets w = ok ++ 0 :: rest ->
  exists c w1 w2,
    init_resources (Some config_zero) mode w = Ok (RDMA_SUCCESS, Some c) w1
    /\ heap w1 !! context c = Some OContext
    /\ heap w1 !! pd c = Some OPd
    /\ heap w1 !! cq c = Some OCq
    /\ heap w1 !! qp c = Some (OQp (answer_at 5 ok mod 2 ^ 32) IBV_QPS_RESET)
    /\ heap w1 !! buf c
       = Some (OMem MAX_BUFFER_SIZE
                 (take (Z.to_nat MAX_BUFFER_SIZE) (hd [] (junk w))))
    /\ heap w1 !! mr c
       = Some (OMr (answer_at 7 ok mod 2 ^ 32) (answer_at 7 ok mod 2 ^ 32))
    /\ In (Call F_ibv_reg_mr
                [pd c; buf c; MAX_BUFFER_SIZE; access_flags_for_init mode]
                (mr c))
          (trace w1)
    /\ gid c = port_gid w /\ sock_fd c = 0 /\ rets w1 = rest
    /\ dom (heap w1) = dom (heap w) ∪ list_to_set (handles c)
    /\ cleanup_resources (Some c) w1 = Ok (Some (set_qp NULL c)) w2
    /\ heap w2 = heap w /\ fds w2 = fds w.
Proof.
  intros [Hb Hfresh] Hlen Hok Hrets.
  destruct w as [h b f t r g x c u jk gc]; simpl in *. subst r.
  do 8 (destruct ok as [|? ok]; [discriminate Hlen|]).
  destruct ok; [|discriminate Hlen]. clear Hlen.
  repeat match goal with
         | H : Forall _ (_ :: _) |- _ => inversion H; subst; clear H
         end.
  cbn [app]. unfold answer_at. cbn [nth].
  eexists; eexists; eexists.
  split; [unfold_model; unfold MAX_BUFFER_SIZE; run; reflexivity|].
  cbn.
  do 6 (split; [repeat decide_test; reflexivity|]).
  split.
  { rewrite !in_app_iff. cbn. unfold MAX_BUFFER_SIZE. tauto. }
  do 3 (split; [reflexivity|]).
  split.
  { assert (Hnb : b ∉ dom h)
      by (apply not_elem_of_dom, Hfresh; lia).
    rewrite dom_delete_L, !dom_insert_L. unfold handles. cbn.
    apply set_eq; intros a.
    rewrite elem_of_difference, !elem_of_union, !elem_of_singleton,
      elem_of_empty.
    destruct (decide (a = b)) as [->|Hab]; [|tauto].
    split; [intros [_ ?]; congruence|].
    intros H; exfalso; destruct H as [H|H]; [exact (Hnb H)|lia]. }
  split; [unfold_model; unfold MAX_BUFFER_SIZE; run; reflexivity|].
  cbn. split; [heap_eq|reflexivity].
Qed.

Lemma init_then_teardown_round_trip_witness :
  exists c w1 w2,
    init_resources (Some config_zero) MODE_READ
                   (set_junk [[1; 2; 3]] (boot [1; 1; 1; 1; 1; 7; 1; 9; 0]))
    = Ok (RDMA_SUCCESS, Some c) w1
    /\ heap w1 !! context c = Some OContext
    /\ heap w1 !! pd c = Some OPd
    /\ heap w1 !! cq c = Some OCq
    /\ heap w1 !! qp c = Some (OQp 7 IBV_QPS_RESET)
    /\ heap w1 !! buf c = Some (OMem MAX_BUFFER_SIZE [1; 2; 3])
    /\ heap w1 !! mr c = Some (OMr 9 9)
    /\ In (Call F_ibv_reg_mr
                [pd c; buf c; MAX_BUFFER_SIZE; access_flags_for_init MODE_READ]
                (mr c))
          (trace w1)
    /\ gid c = 0 /\ sock_fd c = 0 /\ rets w1 = []
    /\ dom (heap w1) = dom (∅ : gmap Z obj) ∪ list_to_set (handles c)
    /\ cleanup_resources (Some c) w1 = Ok (Some (set_qp NULL c)) w2
    /\ heap w2 = ∅ /\ fds w2 = ∅.
Proof.
  apply (init_then_teardown_round_trip MODE_READ
           (set_junk [[1; 2; 3]] (boot [1; 1; 1; 1; 1; 7; 1; 9; 0]))
           [1; 1; 1; 1; 1; 7; 1; 9] []).
  - split; [simpl; lia|]. intros p _. apply lookup_empty.
  - reflexivity.
  - repeat constructor; lia.
  - reflexivity.
Defined.

(** ** The lambda protocol, end to end *)

(** X16.  The first message of a lambda request survives the trip: when the
    receive of the server completes with the bytes [execute_lambda] put at
    the start of its buffer, [receive_request] gives the server the
    metadata the client wrote (the name cut to 127 bytes and padded with
    zeros, the code size, the input size, entry offset [0]) and the
    client's own record, field by field. *)
Theorem server_decodes_the_client_request config w func_name code_size
    input_size q tail d rest :
  0 <= code_size < 2 ^ 64 -> 0 <= input_size < 2 ^ 64 ->
  0 <= qp_num q < 2 ^ 32 -> 0 <= qi_gid q < 2 ^ 128 ->
  0 <= addr q < 2 ^ 64 -> 0 <= rkey q < 2 ^ 32 ->
  heap w !! buf config = Some (OMem MAX_BUFFER_SIZE d) ->
  cq_in w
  = arrival (combined_meta func_name code_size input_size q ++ tail) :: rest ->
  exists w',
    receive_request config w
    = Ok (mk_metadata
            (bytes_at (take 127 (cstring func_name)) 0 LAMBDA_MAX_FUNCTION_NAME)
            code_size input_size 0, q) w'.
Proof.
  intros Hc Hi Hn Hg Ha Hk Hbuf Hcq.
  destruct w as [h b f t r g x c u jk gc]. cbn in Hbuf, Hcq. subst c.
  set (H := combined_meta func_name code_size input_size q).
  assert (HH : length H = 192%nat).
  { unfold H, combined_meta.
    now rewrite length_app, length_encode_lambda_metadata, length_encode_qp_info. }
  unfold receive_request.
  rewrite (bind_Ok _ _ _ _ _ (wait_completion_on_arrival _ _ _ _ _ _ _ _ _ _ _ _ _ _ _ Hbuf)).
  unfold sizeof_lambda_metadata, sizeof_qp_info_t, MAX_BUFFER_SIZE.
  erewrite bind_Ok by (eapply load_ok; [apply lookup_insert_eq|lia|lia]).
  erewrite bind_Ok by (eapply load_ok; [apply lookup_insert_eq|lia|lia]).
  eexists. unfold mret, M_ret. f_equal. f_equal.
  - rewrite bytes_at_arrived by (rewrite ?HH; lia).
    unfold H, combined_meta.
    rewrite bytes_at_exact by now rewrite length_encode_lambda_metadata.
    rewrite decode_encode_lambda_metadata by (cbn; lia). reflexivity.
  - rewrite bytes_at_arrived by (rewrite ?HH; lia).
    unfold H, combined_meta.
    rewrite bytes_at_skip by now rewrite length_encode_lambda_metadata.
    rewrite bytes_at_exact_end by now rewrite length_encode_qp_info.
    now apply decode_encode_qp_info.
Qed.

Lemma server_decodes_the_client_request_witness :
  exists w',
    receive_request demo_config
      (demo_world [] [arrival (combined_meta [102; 0] 4096 4 demo_client)] [])
    = Ok (mk_metadata
            (bytes_at (take 127 (cstring [102; 0])) 0 LAMBDA_MAX_FUNCTION_NAME)
            4096 4 0, demo_client) w'.
Proof.
  apply (server_decodes_the_client_request demo_config
           (demo_world [] [arrival (combined_meta [102; 0] 4096 4 demo_client)] [])
           [102; 0] 4096 4 demo_client [] [] []).
  all: try (cbn; lia).
  - reflexivity.
  - cbn [cq_in demo_world]. now rewrite app_nil_r.
Defined.

(** X17.  The server never turns down a request for its size or its entry
    point when the metadata is what [execute_lambda] sends: with the code
    size [get_function_size] reports and entry offset [0], serving the
    request logs neither of the two rejections, however the receives and
    the call go. *)
Theorem client_request_is_never_rejected config server_regions name func
    input_size client_info :
  emits_only (fun e => negb (is_rejection e))
    (lambda_server_request config server_regions
       (mk_metadata name (get_function_size func) input_size 0) client_info).
Proof.
  unfold lambda_server_request, get_function_size.
  cbn [code_size entry_offset].
  change ((4096 =? 0) || (LAMBDA_MAX_CODE_SIZE <? 4096)) with false.
  change (4096 <=? 0) with false. cbn iota.
  unfold post_lambda_write, post_operation. emits.
  all: try (apply emits_only_invoke; reflexivity).
  all: emits.
Qed.

(** X18.  The client decodes the result record: when its receive
    completes with a message that starts with a status [r], a size
    [s <= MAX_BUFFER_SIZE - 12] and [s] bytes, whatever follows them in
    the message, [execute_lambda] hands its caller that status, that size
    and those bytes. *)
Theorem client_reads_the_server_result config cap r s (out tail d : list Z)
    rest w res w' :
  - 2 ^ 31 <= r < 2 ^ 31 ->
  Z.of_nat (length out) = s -> s <= MAX_BUFFER_SIZE - 12 ->
  heap w !! buf config = Some (OMem MAX_BUFFER_SIZE d) ->
  cq_in w = arrival (result_message r s out ++ tail) :: rest ->
  receive_result config cap w = Ok res w' ->
  res = (r, s, out).
Proof. apply receive_result_reads. Qed.

Lemma client_reads_the_server_result_witness :
  let w := demo_world []
             [arrival (result_message (-1) 2 [72; 0] ++ [9; 9; 9])] [] in
  exists res w',
    receive_result demo_config 1024 w = Ok res w'
    /\ res = (-1, 2, [72; 0]).
Proof.
  cbn zeta. do 2 eexists. split; [vm_compute; reflexivity|].
  eapply (client_reads_the_server_result demo_config 1024 (-1) 2 [72; 0]
            [9; 9; 9] [] []
            (demo_world []
               [arrival (result_message (-1) 2 [72; 0] ++ [9; 9; 9])] [])).
  - lia.
  - reflexivity.
  - unfold MAX_BUFFER_SIZE. lia.
  - reflexivity.
  - reflexivity.
  - vm_compute. reflexivity.
Defined.

Lemma load_overrun p off n w size data :
  heap w !! p = Some (OMem size data) -> size < off + n ->
  load p off n w = Fault w.
Proof.
  intros H Hn. unfold load, lookup_obj, mbind, M_bind. rewrite H.
  rewrite (proj2 (Z.leb_gt (off + n) size)) by lia.
  now rewrite andb_false_r.
Qed.

(** X19.  [execute_lambda] copies as many bytes as the record announces:
    for a record whose size field is above [MAX_BUFFER_SIZE - 12], the
    size is read, and the copy of [output_size] bytes from offset 12 of
    the registered buffer then reads past the end of the buffer, whatever
    the capacity of the caller's [output] is; nothing checks the size
    before. *)
Theorem oversized_result_is_read_out_of_bounds config cap r s (tail d : list Z)
    rest w w0 :
  MAX_BUFFER_SIZE - 12 < s < 2 ^ 64 ->
  heap w !! buf config = Some (OMem MAX_BUFFER_SIZE d) ->
  cq_in w = arrival (le_encode 4 r ++ le_encode 8 s ++ tail) :: rest ->
  post_receive config w = Ok tt w0 ->
  exists w',
    receive_result config cap w = Fault w'
    /\ load (buf config) 4 8 w' = Ok (le_encode 8 s) w'
    /\ load (buf config) (4 + 8) s w' = Fault w'.
Proof.
  intros Hs Hbuf Hcq E0.
  assert (F2 : bytes_at (le_encode 4 r ++ le_encode 8 s) 4 8 = le_encode 8 s).
  { rewrite bytes_at_skip by now rewrite length_le_encode.
    now apply bytes_at_exact_end; rewrite length_le_encode. }
  assert (HL : length (le_encode 4 r ++ le_encode 8 s) = 12%nat)
    by now rewrite length_app, !length_le_encode.
  unfold receive_result. rewrite (bind_Ok _ _ _ _ _ E0).
  apply post_receive_returns in E0 as [lkey ->].
  rewrite Hcq, app_assoc.
  erewrite bind_Ok by (apply wait_completion_on_arrival; exact Hbuf).
  unfold MAX_BUFFER_SIZE in *.
  erewrite bind_Ok by (eapply load_ok; [apply lookup_insert_eq|lia|lia]).
  erewrite bind_Ok by (eapply load_ok; [apply lookup_insert_eq|lia|lia]).
  rewrite (bytes_at_arrived _ _ _ _ 4 8) by (rewrite ?HL; lia).
  rewrite F2, (le_decode_encode 8 s) by lia.
  eexists. split; [|split].
  - apply bind_Fault. eapply load_overrun; [apply lookup_insert_eq|lia].
  - erewrite load_ok; [|apply lookup_insert_eq|lia|lia].
    now rewrite bytes_at_arrived, F2 by (rewrite ?HL; lia).
  - eapply load_overrun; [apply lookup_insert_eq|lia].
Qed.

Lemma oversized_result_is_read_out_of_bounds_witness :
  let w := demo_world []
             [arrival (le_encode 4 0 ++ le_encode 8 4085 ++ replicate 4085 65)]
             [] in
  exists w',
    receive_result demo_config 8192 w = Fault w'
    /\ load (buf demo_config) 4 8 w' = Ok (le_encode 8 4085) w'
    /\ load (buf demo_config) (4 + 8) 4085 w' = Fault w'.
Proof.
  cbn zeta.
  eapply (oversized_result_is_read_out_of_bounds demo_config 8192 0 4085
            (replicate 4085 65) [] []
            (demo_world []
               [arrival (le_encode 4 0 ++ le_encode 8 4085
                         ++ replicate 4085 65)] [])).
  - unfold MAX_BUFFER_SIZE. lia.
  - reflexivity.
  - reflexivity.
  - vm_compute. reflexivity.
Defined.

Lemma process_data_inv input input_size r size out :
  process_data input input_size = Some (r, size, out) ->
  let text := take (Z.to_nat input_size) (cstring input) in
  r = 0 /\ size = Z.of_nat (length text) + 1 /\ out = map upcase text ++ [0].
Proof.
  intros H. unfold process_data in H.
  destruct (process_loop input (Z.to_nat input_size)) as [o|] eqn:E;
    [|discriminate H].
  cbn in H. apply process_loop_some in E. subst o.
  injection H as <- <- <-. now rewrite length_map.
Qed.

(** X20.  What the example lambda produces fits a result record: for an
    input of at most [MAX_BUFFER_SIZE - 13] bytes, a message that carries
    the status, the size and the output of [process_data] is decoded by
    [execute_lambda] to status [0], that size and the whole output. *)
Theorem uppercase_result_reaches_the_client config cap input input_size
    r s out tail d rest w res w' :
  0 <= input_size <= MAX_BUFFER_SIZE - 13 ->
  process_data input input_size = Some (r, s, out) ->
  heap w !! buf config = Some (OMem MAX_BUFFER_SIZE d) ->
  cq_in w = arrival (result_message r s out ++ tail) :: rest ->
  receive_result config cap w = Ok res w' ->
  res = (0, s, out).
Proof.
  intros Hn Hp Hbuf Hcq E.
  destruct (process_data_inv _ _ _ _ _ Hp) as (Hr & Hs & Ho).
  set (text := take (Z.to_nat input_size) (cstring input)) in *.
  assert (Hlen : (length text <= Z.to_nat input_size)%nat)
    by (unfold text; rewrite length_take; lia).
  unfold MAX_BUFFER_SIZE in *.
  assert (Hres : res = (r, s, out)).
  { eapply receive_result_reads; [| | |exact Hbuf|exact Hcq|exact E].
    - lia.
    - rewrite Ho, length_app, length_map. cbn. lia.
    - unfold MAX_BUFFER_SIZE. lia. }
  now rewrite Hres, Hr.
Qed.

Lemma uppercase_result_reaches_the_client_witness :
  let w := demo_world []
             [arrival (result_message 0 3 [72; 73; 0] ++ [1; 2])] [] in
  exists res w',
    receive_result demo_config 1024 w = Ok res w'
    /\ res = (0, 3, [72; 73; 0]).
Proof.
  cbn zeta. do 2 eexists. split; [vm_compute; reflexivity|].
  eapply (uppercase_result_reaches_the_client demo_config 1024 [104; 105; 0] 3
           0 3 [72; 73; 0] [1; 2] [] []
           (demo_world []
              [arrival (result_message 0 3 [72; 73; 0] ++ [1; 2])] [])).
  - unfold MAX_BUFFER_SIZE. lia.
  - reflexivity.
  - reflexivity.
  - reflexivity.
  - vm_compute. reflexivity.
Defined.

(** ** The read server *)

(** X21.  The read server stores the line it reads without its newline and
    with a terminator at the start of the registered buffer and then stays
    in its loop for ever; [rd_server_loop] returns only when there is no
    line to read, and has then done nothing. *)
Theorem rd_server_loop_stores_the_line config (text tail d : list Z) w :
  Forall (fun c => c <> 0) text ->
  Z.of_nat (length text) + 2 <= MAX_BUFFER_SIZE ->
  heap w !! buf config = Some (OMem MAX_BUFFER_SIZE d) ->
  rd_server_loop config None w = Ok tt w
  /\ exists w',
      rd_server_loop config (Some (text ++ 10 :: 0 :: tail)) w = Blocked w'
      /\ load (buf config) 0 (Z.of_nat (length text) + 1) w'
         = Ok (text ++ [0]) w'
      /\ forall input w0 w1,
          rd_server_loop config (Some input) w0 <> Ok tt w1.
Proof.
  intros Ht Hlen Hbuf. split; [reflexivity|].
  assert (Hnever : forall input w0 w1,
             rd_server_loop config (Some input) w0 <> Ok tt w1).
  { intros input w0 w1 E. unfold rd_server_loop in E.
    destruct (strip_newline input) as [[len i]|]; [|discriminate E].
    apply bind_Ok_inv in E as (a & w2 & _ & E). discriminate E. }
  unfold rd_server_loop. rewrite strip_newline_line by exact Ht.
  unfold MAX_BUFFER_SIZE in *.
  unfold memcpy, lookup_obj, store_obj, blocked, mbind, M_bind. rewrite Hbuf.
  rewrite (proj2 (Z.leb_le _ 4096)) by lia.
  rewrite (proj2 (Z.leb_le _ (Z.of_nat (length (text ++ 0 :: 0 :: tail)))))
    by (rewrite length_app; cbn; lia).
  cbn. eexists. split; [reflexivity|]. split; [|exact Hnever].
  erewrite load_ok; [|apply lookup_insert_eq|lia|lia].
  f_equal.
  change (text ++ 0 :: 0 :: tail) with (text ++ [0] ++ 0 :: tail).
  rewrite (app_assoc text [0]), take_app_length'
    by (rewrite length_app; cbn; lia).
  unfold overwrite. apply bytes_at_exact. rewrite length_app. cbn. lia.
Qed.

Lemma rd_server_loop_stores_the_line_witness :
  let w := demo_world [] [] [] in
  rd_server_loop demo_config None w = Ok tt w
  /\ exists w',
      rd_server_loop demo_config (Some [104; 105; 10; 0]) w = Blocked w'
      /\ load (buf demo_config) 0 3 w' = Ok [104; 105; 0] w'
      /\ forall input w0 w1,
          rd_server_loop demo_config (Some input) w0 <> Ok tt w1.
Proof.
  cbn zeta.
  apply (rd_server_loop_stores_the_line demo_config [104; 105] [] []
           (demo_world [] [] [])).
  - repeat constructor; lia.
  - unfold MAX_BUFFER_SIZE. simpl. lia.
  - reflexivity.
Defined.

(** ** Connection setup as a whole *)

Lemma init_resources_opens_no_socket config mode :
  emits_only (fun e => negb (is_modify e) && negb (is_call F_socket e))
             (init_resources config mode).
Proof. emits_lib. Qed.

(** X22.  Connection setup posts no work request, however it ends.  When it
    reports success the queue pair has gone through Init, ReadyToReceive
    and ReadyToSend, in this order and each once; when it reports a
    failure, the status is the one [init_resources] gave, the last line
    on [stderr] names it, no socket was opened and no transition was
    asked for. *)
Theorem connection_setup_posts_nothing config server_name mode want_remote w :
  let o := setup_rdma_connection config server_name mode want_remote w in
  let new := drop (length (trace w)) (trace (final o)) in
  forallb no_post new = true
  /\ forall status c ri w',
      o = Ok (status, c, ri) w' ->
      if bool_decide (status = RDMA_SUCCESS)
      then transitions new
           = [(IBV_QPS_INIT, 0); (IBV_QPS_RTR, 0); (IBV_QPS_RTS, 0)]
      else ri = None
           /\ transitions new = [] /\ calls_to F_socket new = 0%nat
           /\ last new
              = Some (Stderr ("Failed to initialize resources: "
                              +:+ rdma_err_to_str status) [])
           /\ exists w1,
               init_resources (Some config) mode w = Ok (status, c) w1.
Proof.
  cbn zeta. split.
  - destruct (setup_posts_nothing config server_name mode want_remote w)
      as (new & T & F).
    now rewrite T, drop_app_length.
  - intros status c ri w' E. rewrite E. cbn [final].
    destruct (bool_decide (status = RDMA_SUCCESS)) eqn:Es.
    + apply bool_decide_eq_true_1 in Es. subst status.
      eapply setup_success_is_connected. exact E.
    + unfold setup_rdma_connection in E.
      apply bind_Ok_inv in E as ([st c0] & w1 & E1 & E).
      destruct (init_resources_opens_no_socket (Some config) mode w)
        as (n1 & T1 & F1).
      rewrite E1 in T1. cbn in T1.
      destruct (bool_decide (st = RDMA_SUCCESS)) eqn:Est; cbn [negb] in E.
      * destruct c0 as [c0|]; [|discriminate E].
        apply bind_Ok_inv in E as ([c1 r1] & w2 & _ & E).
        apply Ok_inj in E as [E _]. injection E as <- _ _.
        vm_compute in Es. discriminate Es.
      * apply bind_Ok_inv in E as ([] & w2 & E2 & E).
        apply Ok_inj in E as [E <-]. injection E as <- <- <-.
        unfold emit in E2. apply Ok_inj in E2 as [_ <-]. cbn [trace set_trace].
        rewrite T1, <- app_assoc, drop_app_length.
        split; [reflexivity|].
        rewrite transitions_app, calls_to_app, last_snoc.
        assert (Hq : transitions n1 = [] /\ calls_to F_socket n1 = 0%nat).
        { clear -F1. induction n1 as [|e n1 IH]; [now split|].
          cbn in F1. apply andb_prop in F1 as [He F1].
          apply andb_prop in He as [H1 H2].
          destruct (IH F1) as [IH1 IH2].
          destruct e; cbn in *; try discriminate; try (now split).
          split; [exact IH1|].
          unfold calls_to in *. cbn.
          apply negb_true_iff in H2. rewrite H2. exact IH2. }
        destruct Hq as [-> ->].
        split; [reflexivity|]. split; [reflexivity|]. split; [reflexivity|].
        exists w1. exact E1.
Qed.

(** ** The regions of the lambda server *)

(** X23.  [setup_lambda_regions] either ends the process with [exit(1)] or
    returns regions of which the code region is a fresh object of
    [LAMBDA_MAX_CODE_SIZE] zero bytes with a memory region of its own, the
    input region is the registered buffer, and the output region starts
    [MAX_BUFFER_SIZE] bytes behind the start of that buffer, where the
    buffer ends; no object that existed before is touched. *)
Theorem setup_lambda_regions_outcome config w :
  sound w ->
  match setup_lambda_regions (Some config) w with
  | Ok regions w' =>
    code_region regions = brk w
    /\ heap w' !! code_region regions = Some (OMem LAMBDA_MAX_CODE_SIZE [])
    /\ (exists lkey rk, heap w' !! code_mr regions = Some (OMr lkey rk))
    /\ input_region regions = buf config /\ buf config <> NULL
    /\ output_region regions = buf config + MAX_BUFFER_SIZE
    /\ input_mr regions = mr config /\ output_mr regions = mr config
    /\ (forall p, p < brk w -> heap w' !! p = heap w !! p)
    /\ In (Call F_ibv_reg_mr
                [pd config; code_region regions; LAMBDA_MAX_CODE_SIZE;
                 Z.lor IBV_ACCESS_LOCAL_WRITE IBV_ACCESS_REMOTE_WRITE]
                (code_mr regions))
          (trace w')
  | Exit status _ => status = 1
  | _ => False
  end.
Proof.
  intros [Hb Hfresh]. destruct w as [h b f t r g x c u jk gc]. cbn in Hb, Hfresh.
  destruct r as [|r0 [|r1 r]].
  all: unfold setup_lambda_regions, mmap; unfold_model; unfold MAP_FAILED, LAMBDA_MAX_CODE_SIZE,
         LAMBDA_MAX_INPUT_SIZE, MAX_BUFFER_SIZE.
  all: explore.
  all: know_tests; try lia; try reflexivity.
  all: cbn.
  all: repeat split; try reflexivity; try lia.
  all: repeat decide_test; try reflexivity.
  all: try (do 2 eexists; reflexivity).
  all: try (intros p Hp; repeat decide_test; reflexivity).
  all: try (rewrite !in_app_iff; cbn; tauto).
Qed.

Lemma setup_lambda_regions_outcome_witness :
  match setup_lambda_regions (Some demo_config) (demo_world [1; 1] [] []) with
  | Ok regions w' =>
    code_region regions = brk (demo_world [1; 1] [] [])
    /\ heap w' !! code_region regions = Some (OMem LAMBDA_MAX_CODE_SIZE [])
    /\ (exists lkey rk, heap w' !! code_mr regions = Some (OMr lkey rk))
    /\ input_region regions = buf demo_config /\ buf demo_config <> NULL
    /\ output_region regions = buf demo_config + MAX_BUFFER_SIZE
    /\ input_mr regions = mr demo_config /\ output_mr regions = mr demo_config
    /\ (forall p, p < brk (demo_world [1; 1] [] []) ->
          heap w' !! p = heap (demo_world [1; 1] [] []) !! p)
    /\ In (Call F_ibv_reg_mr
                [pd demo_config; code_region regions; LAMBDA_MAX_CODE_SIZE;
                 Z.lor IBV_ACCESS_LOCAL_WRITE IBV_ACCESS_REMOTE_WRITE]
                (code_mr regions))
          (trace w')
  | Exit status _ => status = 1
  | _ => False
  end.
Proof.
  apply (setup_lambda_regions_outcome demo_config (demo_world [1; 1] [] [])).
  split; [cbn; lia|].
  intros p Hp. cbn in Hp. unfold demo_world, demo_heap. cbn [heap].
  repeat (rewrite lookup_insert_ne by lia). apply lookup_empty.
Defined.

(** ** Two connections for one session *)

Lemma no_socket_calls new :
  forallb (fun e => negb (is_call F_socket e)) new = true ->
  calls_to F_socket new = 0%nat.
Proof.
  induction new as [|e new IH]; [reflexivity|].
  cbn. intros H. apply andb_prop in H as [He H].
  unfold calls_to in *. cbn. apply negb_true_iff in He. rewrite He. auto.
Qed.

Lemma no_session_split new :
  forallb no_session new = true ->
  forallb no_post new = true
  /\ forallb (fun e => negb (is_call F_socket e)) new = true.
Proof.
  induction new as [|e new IH]; [now split|].
  cbn. intros H. apply andb_prop in H as [He H].
  apply andb_prop in He as [H1 H2]. destruct (IH H) as [IH1 IH2].
  unfold no_post at 1. now rewrite H1, H2, IH1, IH2.
Qed.

Lemma not_posted new : forallb no_post new = true -> ~ posted new.
Proof.
  unfold posted. induction new as [|e new IH]; [discriminate|].
  cbn. intros H. apply andb_prop in H as [He H].
  unfold no_post in He. apply negb_true_iff in He. rewrite He. now apply IH.
Qed.

Lemma posted_app t1 t2 : posted (t1 ++ t2) <-> posted t1 \/ posted t2.
Proof. unfold posted. rewrite existsb_app. apply orb_true_iff. Qed.

Lemma opens_sockets_quiet {A} (m : M A) :
  emits_only no_session m -> opens_sockets 0 m.
Proof.
  intros H w. destruct (H w) as (new & T & F).
  apply no_session_split in F as [F1 F2].
  exists new. repeat split; try assumption.
  intros _ _ _. now apply no_socket_calls.
Qed.

Lemma opens_sockets_bind {A B} n1 n2 (m : M A) (f : A -> M B) :
  opens_sockets n1 m -> (forall a, opens_sockets n2 (f a)) ->
  opens_sockets (n1 + n2) (m ≫= f).
Proof.
  intros Hm Hf w. destruct (Hm w) as (new1 & T1 & F1 & C1).
  unfold mbind, M_bind. destruct (m w) as [a w1| | |] eqn:E; cbn in *;
    try (exists new1; repeat split; try assumption; discriminate).
  destruct (Hf a w1) as (new2 & T2 & F2 & C2).
  exists (new1 ++ new2). rewrite T2, T1, app_assoc.
  split; [reflexivity|]. split; [now rewrite forallb_app, F1, F2|].
  intros b w' Eb. rewrite calls_to_app, (C1 _ _ eq_refl), (C2 _ _ Eb).
  reflexivity.
Qed.

Lemma emits_only_connect_retry_no_session n fd :
  emits_only no_session (connect_retry n fd).
Proof. induction n; cbn [connect_retry]; emits. exact IHn. Qed.

Lemma bind_cases {A B} (m : M A) (f : A -> M B) w :
  (m ≫= f) w
  = match m w with
    | Ok a w' => f a w'
    | Exit s w' => Exit s w'
    | Fault w' => Fault w'
    | Blocked w' => Blocked w'
    end.
Proof. reflexivity. Qed.

(** Either role calls [socket] once. *)
Lemma setup_socket_opens_one config server_name :
  opens_sockets 1 (setup_socket config server_name).
Proof.
  unfold setup_socket. destruct server_name as [name|].
  - change 1%nat with (1 + 0)%nat. apply opens_sockets_bind.
    + intros w. rewrite open_fd_eq. eexists. cbn.
      split; [reflexivity|]. split; [reflexivity|].
      intros _ _ _. reflexivity.
    + intros fd. apply opens_sockets_quiet.
      emits; apply emits_only_connect_retry_no_session.
  - change 1%nat with (1 + 0)%nat. apply opens_sockets_bind.
    + intros w. rewrite open_fd_eq. eexists. cbn.
      split; [reflexivity|]. split; [reflexivity|].
      intros _ _ _. reflexivity.
    + intros fd. apply opens_sockets_quiet. emits.
Qed.

Lemma connect_qps_opens_one config server_name want_remote mode :
  opens_sockets 1 (connect_qps config server_name want_remote mode).
Proof.
  unfold connect_qps.
  change 1%nat with (0 + (0 + (1 + 0)))%nat.
  apply opens_sockets_bind; [apply opens_sockets_quiet; emits|intros num].
  apply opens_sockets_bind; [apply opens_sockets_quiet; emits|intros rk].
  apply opens_sockets_bind; [apply setup_socket_opens_one|intros c].
  apply opens_sockets_quiet. emits_lib.
Qed.

Lemma init_resources_no_session config mode :
  emits_only no_session (init_resources config mode).
Proof. emits_lib. Qed.

(** Connection setup posts nothing, and when it reports success it has
    opened one socket. *)
Lemma setup_opens_one config server_name mode want_remote w :
  exists new,
    trace (final (setup_rdma_connection config server_name mode want_remote w))
    = trace w ++ new
    /\ ~ posted new
    /\ forall c ri w',
        setup_rdma_connection config server_name mode want_remote w
        = Ok (RDMA_SUCCESS, c, ri) w' ->
        calls_to F_socket new = 1%nat.
Proof.
  unfold setup_rdma_connection.
  destruct (init_resources_no_session (Some config) mode w) as (n1 & T1 & F1).
  apply no_session_split in F1 as [P1 S1]. apply no_socket_calls in S1.
  rewrite bind_cases.
  destruct (init_resources (Some config) mode w) as [[st c0] w1| | |] eqn:E1;
    cbn [final] in *;
    try (exists n1; split; [exact T1|]; split;
         [now apply not_posted|intros ? ? ? E; discriminate E]).
  destruct (bool_decide (st = RDMA_SUCCESS)) eqn:Est; cbn [negb].
  - destruct c0 as [c0|].
    2:{ exists n1. split; [exact T1|]. split; [now apply not_posted|].
        intros ? ? ? E. discriminate E. }
    destruct (connect_qps_opens_one c0 server_name want_remote mode w1)
      as (n2 & T2 & P2 & C2).
    rewrite bind_cases.
    destruct (connect_qps c0 server_name want_remote mode w1)
      as [[c1 r1] w2| | |] eqn:E2; unfold mret, M_ret; cbn [final] in *.
    all: exists (n1 ++ n2); rewrite T2, T1, app_assoc.
    all: split; [reflexivity|].
    all: split; [apply not_posted; now rewrite forallb_app, P1, P2|].
    all: try (intros ? ? ? E; discriminate E).
    intros c ri w' _. now rewrite calls_to_app, S1, (C2 _ _ eq_refl).
  - exists (n1 ++ [Stderr ("Failed to initialize resources: "
                           +:+ rdma_err_to_str st) []]).
    unfold mbind, M_bind, emit, mret, M_ret. cbn.
    rewrite T1, app_assoc. split; [reflexivity|].
    split; [apply not_posted; now rewrite forallb_app, P1|].
    intros c ri w' E. apply Ok_inj in E as [E _].
    assert (st = RDMA_SUCCESS) as -> by congruence.
    vm_compute in Est. discriminate Est.
Qed.

Ltac session_step :=
  first
    [ emits_step
    | apply emits_only_invoke; reflexivity
    | progress unfold post_operation, post_lambda_write, post_lambda_send,
        rw_post_write, sr_post_send, rd_post_read, send_buffer,
        receive_result, cleanup_resources, cleanup_qp, ibv_destroy_qp,
        ibv_dereg_mr, free, ibv_destroy_cq, ibv_dealloc_pd, ibv_close_device,
        ibv_reg_mr, malloc, mmap, error_log ].

Ltac session := repeat session_step.

Lemma posts_after_sockets_quiet {A} (m : M A) :
  keeps_session m -> posts_after_sockets 0 m.
Proof.
  intros H w. destruct (H w) as (new & T & F). exists new.
  split; [exact T|]. intros _. now apply no_socket_calls.
Qed.

Lemma posts_after_sockets_then {A B} n (m : M A) (f : A -> M B) :
  posts_after_sockets n m -> (forall a, emits_only no_session (f a)) ->
  posts_after_sockets n (m ≫= f).
Proof.
  intros Hm Hf w. destruct (Hm w) as (new1 & T1 & C1).
  rewrite bind_cases.
  destruct (m w) as [a w1| | |] eqn:E; cbn [final] in *;
    try (exists new1; split; [exact T1|exact C1]).
  destruct (Hf a w1) as (new2 & T2 & F2).
  apply no_session_split in F2 as [P2 S2].
  exists (new1 ++ new2). rewrite T2, T1, app_assoc. split; [reflexivity|].
  intros H. apply posted_app in H as [H|H].
  - rewrite calls_to_app, (C1 H), (no_socket_calls _ S2). lia.
  - now apply not_posted in P2.
Qed.

(** A connection, then [k]: the posts of [k] come after one socket more. *)
Lemma posts_after_sockets_setup {A} n server_name mode want_remote
    (k : rdma_status_t * option config_t * option qp_info_t -> M A) :
  (forall c ri, posts_after_sockets n (k (RDMA_SUCCESS, c, ri))) ->
  (forall st c ri, st <> RDMA_SUCCESS -> emits_only no_post (k (st, c, ri))) ->
  posts_after_sockets (S n)
    (setup_rdma_connection config_zero server_name mode want_remote ≫= k).
Proof.
  intros Hk Hf w.
  destruct (setup_opens_one config_zero server_name mode want_remote w)
    as (new1 & T1 & P1 & C1).
  rewrite bind_cases.
  destruct (setup_rdma_connection config_zero server_name mode want_remote w)
    as [[[st c] ri] w1| | |] eqn:E; cbn [final] in *;
    try (exists new1; split; [exact T1|]; intros H; now destruct P1).
  destruct (decide (st = RDMA_SUCCESS)) as [->|Hst].
  - destruct (Hk c ri w1) as (new2 & T2 & C2).
    exists (new1 ++ new2). rewrite T2, T1, app_assoc. split; [reflexivity|].
    intros H. apply posted_app in H as [H|H]; [now destruct P1|].
    rewrite calls_to_app, (C1 _ _ _ eq_refl), (C2 H). reflexivity.
  - destruct (Hf st c ri Hst w1) as (new2 & T2 & P2).
    exists (new1 ++ new2). rewrite T2, T1, app_assoc. split; [reflexivity|].
    intros H. apply posted_app in H as [H|H]; [now destruct P1|].
    now apply not_posted in P2.
Qed.

Lemma rw_client_lines_keeps_session config remote_info stdin :
  keeps_session (rw_client_lines config remote_info stdin).
Proof.
  unfold keeps_session. induction stdin as [|l stdin IH];
    cbn [rw_client_lines]; [session|].
  unfold rw_client_line. session. exact IH.
Qed.

Lemma rw_server_turns_keeps_session n config :
  keeps_session (rw_server_turns n config).
Proof.
  unfold keeps_session. induction n as [|n IH];
    cbn [rw_server_turns]; [session|].
  unfold rw_server_turn. session. exact IH.
Qed.

Lemma sr_client_lines_keeps_session config stdin :
  keeps_session (sr_client_lines config stdin).
Proof.
  unfold keeps_session. induction stdin as [|l stdin IH];
    cbn [sr_client_lines]; [session|].
  unfold sr_client_line. session. exact IH.
Qed.

Lemma sr_server_turns_keeps_session n config :
  keeps_session (sr_server_turns n config).
Proof.
  unfold keeps_session. induction n as [|n IH];
    cbn [sr_server_turns]; [session|].
  unfold sr_server_turn. session. exact IH.
Qed.

Lemma rd_client_lines_keeps_session config remote_info stdin :
  keeps_session (rd_client_lines config remote_info stdin).
Proof.
  unfold keeps_session. revert remote_info.
  induction stdin as [|l stdin IH]; intros remote_info;
    cbn [rd_client_lines]; [session|].
  unfold rd_client_range. session; apply IH.
Qed.

Lemma lambda_server_turns_keeps_session n config server_regions :
  keeps_session (lambda_server_turns n config server_regions).
Proof.
  unfold keeps_session. induction n as [|n IH];
    cbn [lambda_server_turns]; [session|].
  unfold lambda_server_turn, receive_request, lambda_server_request.
  session. exact IH.
Qed.

Ltac one_connection :=
  apply posts_after_sockets_setup;
  [ intros c ri; cbn [negb bool_decide decide_rel]
  | intros st c ri Hst; destruct st; try congruence; cbn; session ].

Lemma rw_run_server_one_socket : posts_after_sockets 1 rw_run_server.
Proof.
  unfold rw_run_server. one_connection.
  apply posts_after_sockets_quiet. unfold keeps_session.
  destruct c as [c|]; session.
  intros w. apply rw_server_turns_keeps_session.
Qed.

Lemma rw_run_client_one_socket server_name stdin :
  posts_after_sockets 1 (rw_run_client server_name stdin).
Proof.
  unfold rw_run_client. one_connection.
  apply posts_after_sockets_quiet. unfold keeps_session.
  destruct c as [c|], ri as [ri|]; session.
  apply rw_client_lines_keeps_session.
Qed.

Lemma sr_run_server_one_socket : posts_after_sockets 1 sr_run_server.
Proof.
  unfold sr_run_server. one_connection.
  apply posts_after_sockets_quiet. unfold keeps_session.
  destruct c as [c|]; session.
  intros w. apply sr_server_turns_keeps_session.
Qed.

Lemma sr_run_client_one_socket server_name stdin :
  posts_after_sockets 1 (sr_run_client server_name stdin).
Proof.
  unfold sr_run_client. one_connection.
  apply posts_after_sockets_quiet. unfold keeps_session.
  destruct c as [c|]; session.
  apply sr_client_lines_keeps_session.
Qed.

Lemma rd_run_server_one_socket stdin :
  posts_after_sockets 1 (rd_run_server stdin).
Proof.
  unfold rd_run_server. one_connection.
  apply posts_after_sockets_quiet. unfold keeps_session.
  destruct c as [c|]; unfold rd_server_loop; session.
Qed.

Lemma rd_run_client_one_socket server_name stdin :
  posts_after_sockets 1 (rd_run_client server_name stdin).
Proof.
  unfold rd_run_client. one_connection.
  apply posts_after_sockets_quiet. unfold keeps_session.
  destruct c as [c|], ri as [ri|]; session.
  apply rd_client_lines_keeps_session.
Qed.

Lemma lambda_run_server_one_socket : posts_after_sockets 1 lambda_run_server.
Proof.
  unfold lambda_run_server. one_connection.
  apply posts_after_sockets_quiet. unfold keeps_session.
  unfold setup_lambda_regions. destruct c as [c|]; session.
  intros w. apply lambda_server_turns_keeps_session.
Qed.

Lemma lambda_run_client_one_socket server_name loaded :
  posts_after_sockets 1 (lambda_run_client server_name loaded).
Proof.
  unfold lambda_run_client. one_connection.
  apply posts_after_sockets_quiet. unfold keeps_session.
  unfold lambda_client.setup_lambda_regions, execute_lambda.
  destruct c as [c|], loaded as [[code|]|]; session.
Qed.

(** X24.  A work request is only ever posted on a second connection.
    [run_server] and [run_client] set up a connection of their own and then
    call the runner of the mode, which sets up its own: in every run of
    either, however it ends, a work request has been posted only if
    [socket] has been called exactly twice. *)
Theorem work_is_posted_on_a_second_connection
    mode stdin server_name loaded :
  posts_after_sockets 2 (run_server mode stdin)
  /\ posts_after_sockets 2 (run_client server_name mode stdin loaded).
Proof.
  split.
  - unfold run_server. one_connection.
    apply posts_after_sockets_then; [|intros; session].
    destruct mode.
    + apply sr_run_server_one_socket.
    + apply rw_run_server_one_socket.
    + apply rd_run_server_one_socket.
    + apply lambda_run_server_one_socket.
  - unfold run_client. one_connection.
    apply posts_after_sockets_then; [|intros; session].
    destruct mode.
    + apply sr_run_client_one_socket.
    + apply rw_run_client_one_socket.
    + apply rd_run_client_one_socket.
    + apply lambda_run_client_one_socket.
Qed.

(** ** The entry point *)

Lemma report_last {A} (m : M A) fmt (f : A -> Z) w r w' :
  (a ← m; when (negb (f a =? 0)) (emit (Stderr fmt [f a]));; mret (f a)) w
  = Ok r w' ->
  r <> 0 -> last (trace w') = Some (Stderr fmt [r]).
Proof.
  intros E Hr. apply bind_Ok_inv in E as (a & w1 & _ & E).
  destruct (f a =? 0) eqn:Ez.
  - cbn in E. apply Ok_inj in E as [<- _]. apply Z.eqb_eq in Ez. lia.
  - cbn in E. apply Ok_inj in E as [<- <-]. cbn. apply last_snoc.
Qed.

Lemma main_prelude {A} (k : M A) w :
  (setup_signal_handlers;; store_global_config (Some config_zero);; k) w
  = k (handlers_installed w).
Proof.
  unfold setup_signal_handlers.
  rewrite bind_cases, bind_cases, syscall_eq, bind_cases, syscall_eq.
  unfold mret, M_ret. rewrite bind_cases.
  unfold store_global_config, handlers_installed, set_global_config. cbn.
  now rewrite <- app_assoc.
Qed.

(** X25.  [main] and its command line.  With no argument or more than
    two, [main] returns [1] and has done nothing.  With an unknown mode it
    returns [1] as well, but has by then installed its two signal
    handlers and made [global_config] point to its own [config], and
    leaves it so.  With a mode it knows, [global_config] is [NULL] again
    when [main] returns, and every result other than [0] has just been
    reported on [stderr], with that value. *)
Theorem main_reports_every_failure argv stdin loaded w r w' :
  main argv stdin loaded w = Ok r w' ->
  if usage_ok argv
  then global_config w' = None
       /\ (r <> 0 ->
           exists e, last (trace w') = Some e /\ failure_report r e)
  else r = 1 /\ w' = if argc_ok argv then handlers_installed w else w.
Proof.
  intros E. unfold usage_ok, argc_ok, main in *.
  destruct argv as [|a0 [|mode [|host [|x rest]]]];
    try (apply Ok_inj in E as [<- <-]; now split).
  - rewrite main_prelude in E.
    destruct (mode_of_string mode) as [m|];
      [|apply Ok_inj in E as [<- <-]; now split].
    cbn [lookup list_lookup] in E.
    apply bind_Ok_inv in E as (result & w3 & E3 & E).
    apply Ok_inj in E as [<- <-]. split; [reflexivity|].
    intros Hr. eexists. split.
    + exact (report_last _ _ (fun a => a) _ _ _ E3 Hr).
    + now right.
  - rewrite main_prelude in E.
    destruct (mode_of_string mode) as [m|];
      [|apply Ok_inj in E as [<- <-]; now split].
    cbn [lookup list_lookup] in E.
    apply bind_Ok_inv in E as (result & w3 & E3 & E).
    apply Ok_inj in E as [<- <-]. split; [reflexivity|].
    intros Hr. eexists. split.
    + exact (report_last _ _ (fun a => a) _ _ _ E3 Hr).
    + now left.
Qed.

Lemma main_reports_every_failure_witness :
  exists w',
    main ["rdma"; "write"]%string (mk_stdin [] (fun _ => None)) None
         (demo_world [] [] [])
    = Ok (-1) w'
    /\ global_config w' = None
    /\ exists e, last (trace w') = Some e /\ failure_report (-1) e.
Proof.
  eexists. split; [vm_compute; reflexivity|].
  destruct (main_reports_every_failure ["rdma"; "write"]%string
              (mk_stdin [] (fun _ => None)) None (demo_world [] [] []) (-1)
              _ ltac:(vm_compute; reflexivity)) as [Hg Hr].
  split; [exact Hg|]. apply Hr. lia.
Defined.

(** An unknown mode: the handlers stay installed and [global_config]
    stays set. *)
Example main_unknown_mode_demo :
  main ["rdma"; "copy"]%string (mk_stdin [] (fun _ => None)) None (boot [])
  = Ok 1 (handlers_installed (boot []))
  /\ global_config (handlers_installed (boot [])) = Some config_zero
  /\ trace (handlers_installed (boot []))
     = [Call F_sigaction [SIGINT] 0; Call F_sigaction [SIGTERM] 0].
Proof. repeat split. Qed.
